(** * The unlock pipeline of local-pdf-toolbox

    A shallow embedding of the three places of the repository that remove a
    PDF password, and the properties of their contract:

    - [Route.POST]: the Next.js route handler [app/api/unlock/route.ts]
      (external tool, temporary files, [try]/[catch]/[finally]);
    - [Express.unlock]: the stand-alone express server
      [backend/unlock-server.js] (external tool, callbacks);
    - [Client.unlockPdfInBrowser]: the browser strategy
      [app/lib/unlock-client.ts] (PDF.js decoder, canvas, pdf-lib).

    Around them, the code that the three places share a file or a caller
    with:

    - [PdfUtils]: the pdf-lib helpers of [lib/pdf-utils.ts] (validation,
      merge, split, extract);
    - [Store]: the store of the pages, [store/pdf-store.ts];
    - [UnlockPage], [MergePage], [ExtractPage]: the handlers of the pages
      that call the route handler and the helpers.

    JavaScript effects are written in a state-and-exception monad; the file
    system is a finite map from paths to contents; whatever the handlers do
    not control (the external tool, the decoder, the canvas, the network) is
    an explicit environment record. *)

From Stdlib Require Import ZArith Lia List String Ascii.
From stdpp Require Import base strings gmap list pretty sorting.

Open Scope string_scope.
Open Scope list_scope.
Open Scope Z_scope.

(** ** JavaScript values shared by the three embeddings *)

Abbreviation bytes := (list Byte.byte).

(** [error.code] of a failed [execFile]: a string for spawn failures
    (["ENOENT"], ["EACCES"]), the exit status for a tool that ran. *)
Inductive err_code :=
| CodeName (s : string)
| CodeExit (n : Z).

(** A thrown value. The sources read it only through [?.name], [?.message],
    [?.code] and [?.stderr], each either compared with a constant or tested
    for truthiness, so an absent property is the empty string (or [None]). *)
Record JsError := mkJsError {
  e_name : string;
  e_message : string;
  e_code : option err_code;
  e_stderr : string
}.

(** [new Error(msg)] *)
Definition new_Error (msg : string) : JsError :=
  {| e_name := "Error"; e_message := msg; e_code := None;
     e_stderr := EmptyString |}.

#[global] Instance err_code_eq_dec : EqDecision err_code.
Proof. solve_decision. Defined.

#[global] Instance JsError_eq_dec : EqDecision JsError.
Proof. solve_decision. Defined.

(** How a JavaScript computation ends: [return] or [throw]; for a promise,
    resolved or rejected. *)
Inductive outcome (A : Type) :=
| Returned (a : A)
| Thrown (e : JsError).
Arguments Returned {A} a.
Arguments Thrown {A} e.

Definition is_returned {A} (o : outcome A) : bool :=
  match o with Returned _ => true | Thrown _ => false end.

(** A [File] (of a form or of a file picker): its [size] property and what
    [arrayBuffer()] settles to. *)
Record File := mkFile {
  size : Z;
  arrayBuffer : outcome bytes
}.

(** ** The effect monad: state passing with exceptions *)

Module Js.
Section Monad.
Context {S : Type}.

Definition M (A : Type) : Type := S -> outcome A * S.

Definition ret {A} (a : A) : M A := fun s => (Returned a, s).

Definition throw {A} (e : JsError) : M A := fun s => (Thrown e, s).

Definition bind {A B} (m : M A) (k : A -> M B) : M B :=
  fun s =>
    match m s with
    | (Returned a, s') => k a s'
    | (Thrown e, s') => (Thrown e, s')
    end.

(** [await p] for an already settled promise *)
Definition await {A} (p : outcome A) : M A := fun s => (p, s).

Definition gets {A} (f : S -> A) : M A := fun s => (Returned (f s), s).

Definition modify (f : S -> S) : M unit := fun s => (Returned tt, f s).

(** [try { m } catch (error) { h error }] *)
Definition try_catch {A} (m : M A) (h : JsError -> M A) : M A :=
  fun s =>
    match m s with
    | (Returned a, s') => (Returned a, s')
    | (Thrown e, s') => h e s'
    end.

(** [try { m } finally { f }]: [f] runs on both exits; the completion of
    [m] stands unless [f] itself throws. *)
Definition try_finally {A} (m : M A) (f : M unit) : M A :=
  fun s =>
    match m s with
    | (r, s') =>
        match f s' with
        | (Returned _, s'') => (r, s'')
        | (Thrown e, s'') => (Thrown e, s'')
        end
    end.

(** [for (const x of l) { f x }] *)
Fixpoint for_each {A} (f : A -> M unit) (l : list A) : M unit :=
  match l with
  | [] => ret tt
  | x :: l' => bind (f x) (fun _ => for_each f l')
  end.
End Monad.
Arguments M : clear implicits.
End Js.

Notation "'let*' x ':=' m 'in' k" := (Js.bind m (fun x => k))
  (at level 10, x pattern, m at level 100, k at level 200).
Notation "m ';;;' k" := (Js.bind m (fun _ => k))
  (at level 100, k at level 200, right associativity).

(** ** Strings: substring tests *)

Definition dquote : string := String (ascii_of_nat 34) EmptyString.

(** [a || b] on strings: the empty string is falsy. *)
Definition or_else (a b : string) : string :=
  if decide (a = EmptyString) then b else a.

(** [hay.includes(needle)] *)
Fixpoint includes (needle hay : string) : bool :=
  String.prefix needle hay ||
  match hay with
  | EmptyString => false
  | String _ hay' => includes needle hay'
  end.

(** ASCII lower-casing: a regular expression with flag [i] and without flag
    [u] folds case on code units and never lets a non-ASCII unit match an
    ASCII one. *)
Definition lower_ascii (c : ascii) : ascii :=
  let n := nat_of_ascii c in
  if ((65 <=? n)%nat && (n <=? 90)%nat)%bool then ascii_of_nat (n + 32) else c.

Fixpoint lower (s : string) : string :=
  match s with
  | EmptyString => EmptyString
  | String c s' => String (lower_ascii c) (lower s')
  end.

(** [/password/gi.test(s)] on a fresh regular expression ([lastIndex] 0) *)
Definition matches_password (s : string) : bool :=
  includes "password" (lower s).

(** ** Effects on the outside world, in program order *)

Inductive body :=
| BodyText (s : string)
| BodyBytes (b : bytes).

Record Response := mkResponse {
  status : Z;
  resp_body : body;
  headers : list (string * string)
}.

Inductive event :=
| EvWriteFile (p : string)
| EvExec (file : string) (args : list string)
| EvReadFile (p : string)
| EvUnlink (p : string)
| EvConsole (label : string) (payload : JsError)
| EvRespond (r : Response).

Definition is_respond (ev : event) : bool :=
  match ev with EvRespond _ => true | _ => false end.

(** [created_during p tl]: [p] is a temporary artifact of the time line:
    a file the handler wrote, or the output path it named to the tool. *)
Definition created_during (p : string) (tl : list event) : Prop :=
  EvWriteFile p ∈ tl \/
  exists file args, EvExec file args ∈ tl /\ last args = Some p.

(** Events that neither answer the caller nor delete a file. *)
Definition quiet (ev : event) : Prop :=
  match ev with EvRespond _ | EvUnlink _ => False | _ => True end.

(** [unlinked_before_response p tl]: the time line [tl] deletes [p], and
    does so before it hands the first response to the caller. *)
Fixpoint unlinked_before_response (p : string) (tl : list event) : bool :=
  match tl with
  | [] => false
  | EvRespond _ :: _ => false
  | EvUnlink q :: tl' =>
      if decide (p = q) then existsb is_respond tl'
      else unlinked_before_response p tl'
  | _ :: tl' => unlinked_before_response p tl'
  end.

(** The programs a time line runs, each with its arguments. *)
Definition executions (tl : list event) : list (string * list string) :=
  flat_map
    (fun ev => match ev with EvExec file args => [(file, args)] | _ => [] end)
    tl.

(** ** The Next.js route handler ([app/api/unlock/route.ts]) *)

Module Route.

Definition MAX_FILE_SIZE : Z := 100 * 1024 * 1024.

(** What [formData.get(name)] returns: [null] is [None]. *)
Inductive FormDataEntryValue :=
| EntryFile (f : File)
| EntryString (s : string).

Record FormData := mkFormData {
  get_pdf : option FormDataEntryValue;
  get_password : option FormDataEntryValue
}.

Record Request := mkRequest {
  formData : outcome FormData
}.

(** What the handler does not control. [execFile file args fs] is the
    external program: it may fail and may change the file system.
    [QPDF_BINARY_PATH] is the module constant computed once from
    [process.env] and [process.platform]. *)
Record Env := mkEnv {
  QPDF_BINARY_PATH : string;
  tmpdir : string;
  randomUUID : nat -> string;
  writeFile_fault : option JsError;
  execFile :
    string -> list string -> gmap string bytes ->
    option JsError * gmap string bytes;
  unlink_fault : string -> option JsError
}.

(** The file system, the effects so far, and the two [let] variables that
    the [finally] block reads. *)
Record State := mkState {
  fs : gmap string bytes;
  trace : list event;
  inputPath : option string;
  outputPath : option string
}.

Definition init (fs0 : gmap string bytes) : State :=
  {| fs := fs0; trace := []; inputPath := None; outputPath := None |}.

Definition set_fs (f : gmap string bytes -> gmap string bytes) (s : State) :=
  {| fs := f (fs s); trace := trace s;
     inputPath := inputPath s; outputPath := outputPath s |}.

Definition emit (ev : event) : Js.M State unit :=
  Js.modify (fun s =>
    {| fs := fs s; trace := trace s ++ [ev];
       inputPath := inputPath s; outputPath := outputPath s |}).

Definition set_inputPath (p : string) : Js.M State unit :=
  Js.modify (fun s =>
    {| fs := fs s; trace := trace s;
       inputPath := Some p; outputPath := outputPath s |}).

Definition set_outputPath (p : string) : Js.M State unit :=
  Js.modify (fun s =>
    {| fs := fs s; trace := trace s;
       inputPath := inputPath s; outputPath := Some p |}).

(** The error of a file-system call on a path that does not exist. *)
Definition enoent : JsError :=
  {| e_name := "Error"; e_message := "ENOENT: no such file or directory";
     e_code := Some (CodeName "ENOENT"); e_stderr := EmptyString |}.

(** [path.join(dir, name)] for a directory without a trailing separator *)
Definition path_join (dir name : string) : string := dir +:+ "/" +:+ name.

Definition fs_writeFile (env : Env) (p : string) (data : bytes)
  : Js.M State unit :=
  emit (EvWriteFile p);;;
  match writeFile_fault env with
  | Some e => Js.throw e
  | None => Js.modify (set_fs (insert p data))
  end.

Definition execFileAsync (env : Env) (file : string) (args : list string)
  : Js.M State unit :=
  emit (EvExec file args);;;
  fun s =>
    match execFile env file args (fs s) with
    | (None, fs') => (Returned tt, set_fs (fun _ => fs') s)
    | (Some e, fs') => (Thrown e, set_fs (fun _ => fs') s)
    end.

Definition fs_readFile (p : string) : Js.M State bytes :=
  emit (EvReadFile p);;;
  fun s =>
    match fs s !! p with
    | Some data => (Returned data, s)
    | None => (Thrown enoent, s)
    end.

Definition fs_unlink (env : Env) (p : string) : Js.M State unit :=
  emit (EvUnlink p);;;
  match unlink_fault env p with
  | Some e => Js.throw e
  | None =>
      fun s =>
        match fs s !! p with
        | Some _ => (Returned tt, set_fs (delete p) s)
        | None => (Thrown enoent, s)
        end
  end.

Definition console_error (label : string) (e : JsError) : Js.M State unit :=
  emit (EvConsole label e).

(** [new NextResponse(text, { status })] *)
Definition text_response (msg : string) (st : Z) : Response :=
  {| status := st; resp_body := BodyText msg; headers := [] |}.

Definition MSG_PDF_REQUIRED := "PDF file is required.".
Definition MSG_PASSWORD_REQUIRED := "Password is required.".
Definition MSG_EMPTY := "The provided PDF is empty.".
Definition MSG_TOO_LARGE := "PDF file is too large.".
Definition MSG_NOT_FOUND :=
  "qpdf binary not found. Set QPDF_BINARY_PATH to a valid executable.".
Definition MSG_WRONG_PASSWORD :=
  "Failed to unlock PDF. Wrong password or file is not encrypted.".
Definition MSG_UNEXPECTED :=
  "Unexpected error while unlocking PDF. Please try again.".

(** The [catch] of the inner [try] around the tool. *)
Definition tool_failed (error : JsError) : Js.M State (option Response) :=
  if decide (e_code error = Some (CodeName "ENOENT")) then
    console_error "qpdf binary not found:" error;;;
    Js.ret (Some (text_response MSG_NOT_FOUND 500))
  else
    console_error "Failed to unlock PDF:" error;;;
    Js.ret
      (Some (text_response (or_else (e_stderr error) MSG_WRONG_PASSWORD) 400)).

(** The two temporary paths of a request, from the first and the second
    call of [randomUUID]. *)
Definition temp_input (env : Env) : string :=
  path_join (tmpdir env) ("pdf-input-" +:+ randomUUID env 0 +:+ ".pdf").

Definition temp_output (env : Env) : string :=
  path_join (tmpdir env) ("pdf-output-" +:+ randomUUID env 1 +:+ ".pdf").

Definition tool_args (env : Env) (password : string) : list string :=
  ["--password=" +:+ password; "--decrypt"; temp_input env; temp_output env].

Definition pdf_response (unlockedPdf : bytes) : Response :=
  {| status := 200;
     resp_body := BodyBytes unlockedPdf;
     headers :=
       [("Content-Type", "application/pdf");
        ("Content-Disposition",
         "attachment; filename=" +:+ dquote +:+ "unlocked.pdf" +:+ dquote);
        ("Content-Length", pretty (length unlockedPdf))] |}.

(** From [arrayBuffer()] to the last [return] of the outer [try] block. *)
Definition unlock_with_tool (env : Env) (pdfFile : File) (password : string)
  : Js.M State Response :=
  let* buffer := Js.await (arrayBuffer pdfFile) in
  set_inputPath (temp_input env);;;
  set_outputPath (temp_output env);;;
  fs_writeFile env (temp_input env) buffer;;;
  let* early :=
    Js.try_catch
      (execFileAsync env (QPDF_BINARY_PATH env) (tool_args env password);;;
       Js.ret None)
      tool_failed in
  match early with
  | Some response => Js.ret response
  | None =>
      let* unlockedPdf := fs_readFile (temp_output env) in
      Js.ret (pdf_response unlockedPdf)
  end.

(** The outer [try] block: the four validation returns, then the tool. *)
Definition try_block (env : Env) (request : Request) : Js.M State Response :=
  let* fd := Js.await (formData request) in
  match get_pdf fd with
  | Some (EntryFile pdfFile) =>
      match get_password fd with
      | Some (EntryString password) =>
          if decide (password = EmptyString) then
            Js.ret (text_response MSG_PASSWORD_REQUIRED 400)
          else if size pdfFile =? 0 then
            Js.ret (text_response MSG_EMPTY 400)
          else if size pdfFile >? MAX_FILE_SIZE then
            Js.ret (text_response MSG_TOO_LARGE 400)
          else unlock_with_tool env pdfFile password
      | _ => Js.ret (text_response MSG_PASSWORD_REQUIRED 400)
      end
  | _ => Js.ret (text_response MSG_PDF_REQUIRED 400)
  end.

Definition catch_block (error : JsError) : Js.M State Response :=
  console_error "Unexpected unlock error:" error;;;
  Js.ret (text_response MSG_UNEXPECTED 500).

(** [[inputPath, outputPath].filter(Boolean)]: [null] and the empty string
    are dropped. *)
Definition truthy_paths (l : list (option string)) : list string :=
  flat_map
    (fun o => match o with
              | Some p => if decide (p = EmptyString) then [] else [p]
              | None => []
              end) l.

(** The [finally] block. The two unlinks are started in list order and
    touch different paths, so [Promise.all] over them is their sequence;
    each one swallows its own failure. *)
Definition finally_block (env : Env) : Js.M State unit :=
  let* ip := Js.gets inputPath in
  let* op := Js.gets outputPath in
  Js.for_each
    (fun filePath =>
       Js.try_catch (fs_unlink env filePath) (fun _ => Js.ret tt))
    (truthy_paths [ip; op]).

Definition POST (env : Env) (request : Request) (fs0 : gmap string bytes)
  : outcome Response * State :=
  Js.try_finally (Js.try_catch (try_block env request) catch_block)
    (finally_block env) (init fs0).

(** The effects of one request in program order, closed by the delivery of
    the response: the promise of an [async] function settles after its
    [finally] block has run. *)
Definition timeline (env : Env) (request : Request) (fs0 : gmap string bytes)
  : list event :=
  match POST env request fs0 with
  | (Returned r, s) => trace s ++ [EvRespond r]
  | (Thrown _, s) => trace s
  end.

(** The same environment with another behaviour of [fs.unlink]. *)
Definition with_unlink_fault (uf : string -> option JsError) (env : Env)
  : Env :=
  {| QPDF_BINARY_PATH := QPDF_BINARY_PATH env;
     tmpdir := tmpdir env;
     randomUUID := randomUUID env;
     writeFile_fault := writeFile_fault env;
     execFile := execFile env;
     unlink_fault := uf |}.

(** A request that passes the four guards of the [try] block and whose
    bytes can be read. *)
Definition accepted (request : Request) (pdfFile : File) (password : string)
    (buffer : bytes) : Prop :=
  formData request =
    Returned {| get_pdf := Some (EntryFile pdfFile);
                get_password := Some (EntryString password) |}
  /\ password <> EmptyString
  /\ size pdfFile <> 0
  /\ size pdfFile <= MAX_FILE_SIZE
  /\ arrayBuffer pdfFile = Returned buffer.

(** What the external tool does when the handler runs it: on the tool's
    arguments, in the file system that holds the temporary input. *)
Definition tool_run (env : Env) (password : string) (buffer : bytes)
    (fs0 : gmap string bytes) : option JsError * gmap string bytes :=
  execFile env (QPDF_BINARY_PATH env) (tool_args env password)
    (<[temp_input env := buffer]> fs0).

Definition fixed_messages : list string :=
  [MSG_PDF_REQUIRED; MSG_PASSWORD_REQUIRED; MSG_EMPTY; MSG_TOO_LARGE;
   MSG_NOT_FOUND; MSG_WRONG_PASSWORD; MSG_UNEXPECTED].

Definition log_labels : list string :=
  ["qpdf binary not found:"; "Failed to unlock PDF:";
   "Unexpected unlock error:"].

End Route.

(** ** The stand-alone express server ([backend/unlock-server.js]) *)

Module Express.

(** [req.file] as multer's [upload.single("pdf")] leaves it: the upload is
    already stored under [path] when the handler starts. *)
Record UploadedFile := mkUploadedFile {
  path : string
}.

Record Request := mkRequest {
  body_password : option string;
  file : option UploadedFile
}.

Record Env := mkEnv {
  execFile :
    string -> list string -> gmap string bytes ->
    option JsError * gmap string bytes;
  unlink_fault : string -> option JsError
}.

Record State := mkState {
  fs : gmap string bytes;
  trace : list event
}.

Definition emit (ev : event) : Js.M State unit :=
  Js.modify (fun s => {| fs := fs s; trace := trace s ++ [ev] |}).

Definition MSG_FAILED :=
  "Failed to unlock PDF. Wrong password or not encrypted.".

(** A template literal prints a missing value as [undefined]. *)
Definition template (v : option string) : string :=
  match v with Some s => s | None => "undefined" end.

(** Reading [.path] of an undefined [req.file]. *)
Definition type_error : JsError :=
  {| e_name := "TypeError";
     e_message := "Cannot read properties of undefined (reading 'path')";
     e_code := None; e_stderr := EmptyString |}.

(** [execFile(file, args, callback)]: the value handed to the callback *)
Definition run_tool (env : Env) (file : string) (args : list string)
  : Js.M State (option JsError) :=
  emit (EvExec file args);;;
  fun s =>
    match execFile env file args (fs s) with
    | (err, fs') => (Returned err, {| fs := fs'; trace := trace s |})
    end.

Definition fs_unlinkSync (env : Env) (p : string) : Js.M State unit :=
  emit (EvUnlink p);;;
  match unlink_fault env p with
  | Some e => Js.throw e
  | None =>
      fun s =>
        match fs s !! p with
        | Some _ => (Returned tt, {| fs := delete p (fs s); trace := trace s |})
        | None => (Thrown Route.enoent, s)
        end
  end.

(** [res.status(st).send(msg)] *)
Definition res_send (st : Z) (msg : string) : Js.M State unit :=
  emit (EvRespond (Route.text_response msg st)).

(** [res.download(p, filename, callback)] up to the call of [callback]:
    the file is streamed to the caller when it can be read; the callback
    runs either way and the handler's callback ignores its argument. *)
Definition res_download (p filename : string) : Js.M State unit :=
  emit (EvReadFile p);;;
  let* content := Js.gets (fun s => fs s !! p) in
  match content with
  | Some data =>
      emit (EvRespond
              {| status := 200; resp_body := BodyBytes data;
                 headers :=
                   [("Content-Disposition",
                     "attachment; filename=" +:+ dquote +:+ filename
                     +:+ dquote)] |})
  | None => Js.ret tt
  end.

(** The callback of [execFile]. *)
Definition tool_done (env : Env) (inputPath outputPath : string)
    (err : option JsError) : Js.M State unit :=
  match err with
  | Some e =>
      emit (EvConsole "Error" e);;;
      res_send 400 MSG_FAILED;;;
      fs_unlinkSync env inputPath
  | None =>
      res_download outputPath "unlocked.pdf";;;
      fs_unlinkSync env inputPath;;;
      fs_unlinkSync env outputPath
  end.

(** The handler of [app.post("/unlock", ...)]; a [Thrown] outcome is an
    exception that nothing in the file catches. *)
Definition unlock (env : Env) (req : Request) (fs0 : gmap string bytes)
  : outcome unit * State :=
  (let password := body_password req in
   match file req with
   | None => Js.throw type_error
   | Some f =>
       let inputPath := path f in
       let outputPath := inputPath +:+ "-unlocked.pdf" in
       let* err :=
         run_tool env "qpdf"
           ["--password=" +:+ template password; "--decrypt";
            inputPath; outputPath] in
       tool_done env inputPath outputPath err
   end) {| fs := fs0; trace := [] |}.

Definition timeline (env : Env) (req : Request) (fs0 : gmap string bytes)
  : list event :=
  trace (snd (unlock env req fs0)).

End Express.

(** ** The browser strategy ([app/lib/unlock-client.ts]) *)

Module Client.

Definition PDFJS_VERSION := "3.11.174".

(** Page and canvas dimensions. The code copies these numbers from the
    decoder to the canvas and to the new page and never computes on them. *)
Record Viewport := mkViewport {
  width : Z;
  height : Z
}.

(** A decoded page: [getViewport({ scale })], and what
    [render({ canvasContext, viewport }).promise] settles to together with
    the pixels it leaves on the canvas. *)
Record PDFPageProxy := mkPage {
  getViewport : Z -> Viewport;
  render : Viewport -> outcome bytes
}.

Record PDFDocumentProxy := mkDocument {
  numPages : nat;
  getPage : nat -> outcome PDFPageProxy
}.

(** The PDF.js library object. [getDocument data password callback] is
    [getDocument({ data, password, passwordCallback }).promise]; the
    callback, asked with a reason, either calls [_verifyPassword] with a
    password ([Returned]) or throws. *)
Record PdfJsLib := mkLib {
  NEED_PASSWORD : Z;
  workerSrc : string;
  getDocument :
    bytes -> string -> (Z -> outcome string) -> outcome PDFDocumentProxy
}.

(** What an appended [<script>] element does: [onload] (with or without
    having defined [window.pdfjsLib]) or [onerror]. *)
Inductive script_result :=
| OnLoad (defined : option PdfJsLib)
| OnError.

(** pdf-lib: an embedded image, a drawing operation, a page. *)
Record PDFImage := mkImage {
  png : bytes
}.

Record DrawnImage := mkDrawn {
  image : PDFImage;
  at_x : Z;
  at_y : Z;
  drawn_width : Z;
  drawn_height : Z
}.

Record PDFPage := mkPDFPage {
  page_size : Z * Z;
  content : list DrawnImage
}.

Record Blob := mkBlob {
  blob_parts : bytes;
  blob_type : string
}.

(** The browser around the module. [script_load n] is the fate of the
    [n]-th script element ever appended; [getContext2d n] tells whether the
    canvas created for page [n] has a 2-D context. [half_rounds_up]
    resolves the one place where double arithmetic is not determined by
    exact arithmetic, see [round_ratio_50]. *)
Record Browser := mkBrowser {
  script_load : nat -> script_result;
  PDFDocument_create : outcome unit;
  getContext2d : nat -> bool;
  toDataURL : Viewport -> bytes -> string;
  fetch : string -> outcome bytes;
  embedPng_fault : bytes -> option JsError;
  save : list PDFPage -> outcome bytes;
  half_rounds_up : nat -> nat -> bool
}.

(** Module and global state that outlives a call: [window] (absent on a
    server), [window.pdfjsLib], the module variable [pdfJsLoader] (a promise,
    here with what it settled to), and how many script elements were added
    to [document.head]. *)
Record Loader := mkLoader {
  window_defined : bool;
  window_pdfjsLib : option PdfJsLib;
  pdfJsLoader : option (outcome PdfJsLib);
  scripts : nat
}.

Inductive cevent :=
| Progress (pct : Z) (step : string)
| AppendScript (src : string)
| GetDocument (data : bytes) (password : string)
| GetPage (n : nat).

Record State := mkState {
  loader : Loader;
  trace : list cevent
}.

Definition emit (ev : cevent) : Js.M State unit :=
  Js.modify (fun s => {| loader := loader s; trace := trace s ++ [ev] |}).

Definition CDN := "https://cdnjs.cloudflare.com/ajax/libs/pdf.js/".

Definition set_workerSrc (lib : PdfJsLib) (src : string) : PdfJsLib :=
  {| NEED_PASSWORD := NEED_PASSWORD lib; workerSrc := src;
     getDocument := getDocument lib |}.

(** [new Promise(...)] in [loadPdfJs], with its executor run to the point
    where the promise is settled: the promise is stored in [pdfJsLoader]
    and returned. A script that loads defines the global; [onload] then
    sets the worker source on that same object. *)
Definition settle (br : Browser) (n : nat) (l : Loader)
  : outcome PdfJsLib * Loader :=
  match script_load br n with
  | OnLoad (Some lib) =>
      let pdfjsLib :=
        set_workerSrc lib (CDN +:+ PDFJS_VERSION +:+ "/pdf.worker.min.js") in
      (Returned pdfjsLib,
       {| window_defined := window_defined l;
          window_pdfjsLib := Some pdfjsLib;
          pdfJsLoader := Some (Returned pdfjsLib);
          scripts := S (scripts l) |})
  | OnLoad None =>
      let rejected := Thrown (new_Error "PDF.js failed to load.") in
      (rejected,
       {| window_defined := window_defined l;
          window_pdfjsLib := window_pdfjsLib l;
          pdfJsLoader := Some rejected;
          scripts := S (scripts l) |})
  | OnError =>
      let rejected := Thrown (new_Error "Failed to load PDF.js from CDN.") in
      (rejected,
       {| window_defined := window_defined l;
          window_pdfjsLib := window_pdfjsLib l;
          pdfJsLoader := Some rejected;
          scripts := S (scripts l) |})
  end.

Definition load_script (br : Browser) : Js.M State (outcome PdfJsLib) :=
  emit (AppendScript (CDN +:+ PDFJS_VERSION +:+ "/pdf.min.js"));;;
  fun s =>
    match settle br (scripts (loader s)) (loader s) with
    | (promise, l') => (Returned promise, {| loader := l'; trace := trace s |})
    end.

(** [loadPdfJs()], awaited. *)
Definition loadPdfJs (br : Browser) : Js.M State PdfJsLib :=
  let* has_window := Js.gets (fun s => window_defined (loader s)) in
  if negb has_window then
    Js.throw (new_Error "PDF.js can only be loaded in the browser.")
  else
    let* global := Js.gets (fun s => window_pdfjsLib (loader s)) in
    match global with
    | Some lib => Js.ret lib
    | None =>
        let* cached := Js.gets (fun s => pdfJsLoader (loader s)) in
        let* promise :=
          match cached with
          | None => load_script br
          | Some promise => Js.ret promise
          end in
        Js.await promise
    end.

(** [dataUrlToUint8Array]: [fetch] the data URL and read its bytes. *)
Definition dataUrlToUint8Array (br : Browser) (dataUrl : string)
  : Js.M State bytes :=
  Js.await (fetch br dataUrl).

Definition buildPasswordError : JsError :=
  new_Error "Incorrect password. Please verify and try again.".

(** The [passwordCallback] given to [getDocument]. *)
Definition passwordCallback (pdfjsLib : PdfJsLib) (password : string)
    (passwordError : JsError) (reason : Z) : outcome string :=
  if reason =? NEED_PASSWORD pdfjsLib then Returned password
  else Thrown passwordError.

(** The test of the [catch] in [loadEncryptedPdf]. [error === passwordError]
    is identity of objects; equality of values gives the same verdict,
    because every value equal to [passwordError] carries its message, which
    the third disjunct accepts. *)
Definition is_password_failure (passwordError error : JsError) : bool :=
  bool_decide (error = passwordError)
  || bool_decide (e_name error = "PasswordException")
  || matches_password (e_message error).

Definition loadEncryptedPdf (pdfjsLib : PdfJsLib) (data : bytes)
    (password : string) : Js.M State PDFDocumentProxy :=
  let passwordError := buildPasswordError in
  emit (GetDocument data password);;;
  Js.try_catch
    (Js.await
       (getDocument pdfjsLib data password
          (passwordCallback pdfjsLib password passwordError)))
    (fun error =>
       if is_password_failure passwordError error then Js.throw passwordError
       else Js.throw error).

(** [updateProgress?.(pct, step)]: nothing happens without a sink. *)
Definition progress (updateProgress : bool) (pct : Z) (step : string)
  : Js.M State unit :=
  if updateProgress then emit (Progress pct step) else Js.ret tt.

(** [Math.round((pageNumber / totalPages) * 50)] for
    [1 <= pageNumber <= totalPages]. [Math.round] rounds to the nearest
    integer. The two double operations before it carry a relative error
    below [2^-51], far less than the distance [1/(2 * totalPages)] that
    separates [50 * pageNumber / totalPages] from the nearest half unless it
    is one; so the result is the nearest integer of the exact quotient,
    and only for an exact half does the double product decide the side
    (JavaScript gives 13 for 1/4 but 28 for 57/100): that side is
    [half_rounds_up]. *)
Definition round_ratio_50 (br : Browser) (pageNumber totalPages : nat) : Z :=
  let n := 100 * Z.of_nat pageNumber in
  let d := 2 * Z.of_nat totalPages in
  let q := n / d in
  let r := n mod d in
  if r <? Z.of_nat totalPages then q
  else if Z.of_nat totalPages <? r then q + 1
  else if half_rounds_up br pageNumber totalPages then q + 1 else q.

Definition page_step_label (pageNumber totalPages : nat) : string :=
  "Rendering page " +:+ pretty pageNumber +:+ " of " +:+ pretty totalPages
  +:+ "...".

Definition no_canvas_error : JsError :=
  new_Error "Canvas rendering is not supported in this environment.".

(** One turn of the [for] loop: the new page appended to [pdfDoc]. *)
Definition render_page (br : Browser) (pdfDocument : PDFDocumentProxy)
    (updateProgress : bool) (totalPages pageNumber : nat)
  : Js.M State PDFPage :=
  progress updateProgress (30 + round_ratio_50 br pageNumber totalPages)
    (page_step_label pageNumber totalPages);;;
  emit (GetPage pageNumber);;;
  let* page := Js.await (getPage pdfDocument pageNumber) in
  let viewport := getViewport page 2 in
  if negb (getContext2d br pageNumber) then
    Js.throw no_canvas_error
  else
    let* pixels := Js.await (render page viewport) in
    let imgData := toDataURL br viewport pixels in
    let* imageBytes := dataUrlToUint8Array br imgData in
    let* embeddedImage :=
      match embedPng_fault br imageBytes with
      | Some e => Js.throw e
      | None => Js.ret {| png := imageBytes |}
      end in
    Js.ret {| page_size := (width viewport, height viewport);
              content :=
                [{| image := embeddedImage; at_x := 0; at_y := 0;
                    drawn_width := width viewport;
                    drawn_height := height viewport |}] |}.

(** [for (let pageNumber = ...; pageNumber <= totalPages; pageNumber++)],
    by recursion on [remaining = totalPages + 1 - pageNumber], the number
    of turns still to run; [pdfDoc] is the output document so far. *)
Fixpoint render_pages (br : Browser) (pdfDocument : PDFDocumentProxy)
    (updateProgress : bool) (totalPages remaining pageNumber : nat)
    (pdfDoc : list PDFPage) : Js.M State (list PDFPage) :=
  match remaining with
  | O => Js.ret pdfDoc
  | S remaining' =>
      let* pdfPage :=
        render_page br pdfDocument updateProgress totalPages pageNumber in
      render_pages br pdfDocument updateProgress totalPages remaining'
        (S pageNumber) (pdfDoc ++ [pdfPage])
  end.

Definition MSG_UNABLE :=
  "Unable to open the encrypted PDF with the provided password.".

(** [unlockPdfInBrowser] from [updateProgress?.(30, ...)] to its [return],
    given the library and the bytes of the file; [updateProgress] tells
    whether the caller passed a progress sink. *)
Definition unlock_with_library (br : Browser) (pdfjsLib : PdfJsLib)
    (arrayBuffer : bytes) (password : string) (updateProgress : bool)
  : Js.M State Blob :=
  progress updateProgress 30 "Decrypting PDF...";;;
  let* pdfDocument :=
    Js.try_catch (loadEncryptedPdf pdfjsLib arrayBuffer password)
      (fun error =>
         if bool_decide (e_message error <> EmptyString) then Js.throw error
         else Js.throw (new_Error (or_else (e_message error) MSG_UNABLE))) in
  Js.await (PDFDocument_create br);;;
  let totalPages := numPages pdfDocument in
  let* pdfDoc :=
    render_pages br pdfDocument updateProgress totalPages totalPages 1%nat [] in
  progress updateProgress 90 "Preparing unlocked PDF...";;;
  let* unlockedBytes := Js.await (save br pdfDoc) in
  progress updateProgress 100 "Complete!";;;
  Js.ret {| blob_parts := unlockedBytes; blob_type := "application/pdf" |}.

(** The body of [unlockPdfInBrowser]. *)
Definition unlock_body (br : Browser) (file : File) (password : string)
    (updateProgress : bool) : Js.M State Blob :=
  let* arrayBuffer := Js.await (arrayBuffer file) in
  let* pdfjsLib := loadPdfJs br in
  unlock_with_library br pdfjsLib arrayBuffer password updateProgress.

(** One call, started in loader state [l] with an empty trace. *)
Definition unlockPdfInBrowser (br : Browser) (l : Loader) (file : File)
    (password : string) (updateProgress : bool) : outcome Blob * State :=
  unlock_body br file password updateProgress {| loader := l; trace := [] |}.

(** The percentages the progress sink received, in order. *)
Definition percentages (tr : list cevent) : list Z :=
  flat_map (fun ev => match ev with Progress p _ => [p] | _ => [] end) tr.

(** The page numbers asked from the decoder, in order. *)
Definition pages_fetched (tr : list cevent) : list nat :=
  flat_map (fun ev => match ev with GetPage n => [n] | _ => [] end) tr.

Definition decoder_calls (tr : list cevent) : list (bytes * string) :=
  flat_map
    (fun ev => match ev with GetDocument d p => [(d, p)] | _ => [] end) tr.

Definition scripts_appended (tr : list cevent) : list string :=
  flat_map (fun ev => match ev with AppendScript src => [src] | _ => [] end) tr.

(** Calls of [loadPdfJs] one after the other, each in the browser
    conditions of its time. *)
Fixpoint later_loads (brs : list Browser) (l : Loader)
  : list (outcome PdfJsLib) * Loader :=
  match brs with
  | [] => ([], l)
  | br :: brs' =>
      match loadPdfJs br {| loader := l; trace := [] |} with
      | (r, s) =>
          match later_loads brs' (loader s) with
          | (rs, l') => (r :: rs, l')
          end
      end
  end.

(** What one turn of the loop computes for page [pageNumber], as a function
    of the decoder and the browser alone. *)
Definition page_result (br : Browser) (pdfDocument : PDFDocumentProxy)
    (pageNumber : nat) : outcome PDFPage :=
  match getPage pdfDocument pageNumber with
  | Thrown e => Thrown e
  | Returned page =>
      let viewport := getViewport page 2 in
      if negb (getContext2d br pageNumber) then
        Thrown no_canvas_error
      else
        match render page viewport with
        | Thrown e => Thrown e
        | Returned pixels =>
            match fetch br (toDataURL br viewport pixels) with
            | Thrown e => Thrown e
            | Returned imageBytes =>
                match embedPng_fault br imageBytes with
                | Some e => Thrown e
                | None =>
                    Returned
                      {| page_size := (width viewport, height viewport);
                         content :=
                           [{| image := {| png := imageBytes |};
                               at_x := 0; at_y := 0;
                               drawn_width := width viewport;
                               drawn_height := height viewport |}] |}
                end
            end
        end
  end.

(** The percentage announced for page [i] of [N], and the whole sequence
    of a run that succeeds. *)
Definition page_percentage (br : Browser) (N i : nat) : Z :=
  30 + round_ratio_50 br i N.

Definition page_percentages (br : Browser) (N : nat) : list Z :=
  map (page_percentage br N) (seq 1 N).

Definition full_percentages (br : Browser) (N : nat) : list Z :=
  30 :: page_percentages br N ++ [90; 100].

(** A list of percentages that never goes down. *)
Fixpoint non_decreasing (l : list Z) : Prop :=
  match l with
  | [] => True
  | x :: l' =>
      match l' with
      | [] => True
      | y :: _ => x <= y /\ non_decreasing l'
      end
  end.

(** The error a caller sees when the decoder rejects with [error]: what the
    two [catch] blocks around [getDocument] leave of it. *)
Definition open_failure (error : JsError) : JsError :=
  if is_password_failure buildPasswordError error then buildPasswordError
  else if bool_decide (e_message error <> EmptyString) then error
  else new_Error MSG_UNABLE.

(** The trace of one turn of the loop. *)
Definition page_events (br : Browser) (updateProgress : bool) (N i : nat)
  : list cevent :=
  (if updateProgress
   then [Progress (page_percentage br N i) (page_step_label i N)] else [])
  ++ [GetPage i].

Definition add_events (evs : list cevent) (s : State) : State :=
  {| loader := loader s; trace := trace s ++ evs |}.

(** [pages_built br doc k new]: [new] are the rebuilt pages [k], [k+1], ... *)
Definition pages_built (br : Browser) (doc : PDFDocumentProxy) (k : nat)
    (new : list PDFPage) : Prop :=
  Forall2 (fun i out => page_result br doc i = Returned out)
          (seq k (length new)) new.

Section Runs.
Variables (br : Browser) (pdfjsLib : PdfJsLib) (data : bytes)
          (password : string) (updateProgress : bool).

Definition opened : outcome PDFDocumentProxy :=
  getDocument pdfjsLib data password
    (passwordCallback pdfjsLib password buildPasswordError).

Definition sink_event (pct : Z) (step : string) : list cevent :=
  if updateProgress then [Progress pct step] else [].

Definition opening_events : list cevent :=
  sink_event 30 "Decrypting PDF..." ++ [GetDocument data password].

Definition pages_events (N j : nat) : list cevent :=
  flat_map (page_events br updateProgress N) (seq 1 j).

(** The five ways [unlock_with_library] can end, each with its trace. *)
Inductive library_run : outcome Blob -> list cevent -> Prop :=
| OpenFailed e :
    opened = Thrown e ->
    library_run (Thrown (open_failure e)) opening_events
| CreateFailed doc e :
    opened = Returned doc ->
    PDFDocument_create br = Thrown e ->
    library_run (Thrown e) opening_events
| PageFailed doc j e :
    opened = Returned doc ->
    PDFDocument_create br = Returned tt ->
    (1 <= j <= numPages doc)%nat ->
    page_result br doc j = Thrown e ->
    library_run (Thrown e)
      (opening_events ++ pages_events (numPages doc) j)
| SaveFailed doc pdfDoc e :
    opened = Returned doc ->
    PDFDocument_create br = Returned tt ->
    length pdfDoc = numPages doc ->
    pages_built br doc 1 pdfDoc ->
    save br pdfDoc = Thrown e ->
    library_run (Thrown e)
      (opening_events ++ pages_events (numPages doc) (numPages doc)
       ++ sink_event 90 "Preparing unlocked PDF...")
| Complete doc pdfDoc unlockedBytes :
    opened = Returned doc ->
    PDFDocument_create br = Returned tt ->
    length pdfDoc = numPages doc ->
    pages_built br doc 1 pdfDoc ->
    save br pdfDoc = Returned unlockedBytes ->
    library_run
      (Returned {| blob_parts := unlockedBytes;
                   blob_type := "application/pdf" |})
      (opening_events ++ pages_events (numPages doc) (numPages doc)
       ++ sink_event 90 "Preparing unlocked PDF..."
       ++ sink_event 100 "Complete!").
End Runs.

(** A trace without its progress events. *)
Definition silent (tr : list cevent) : list cevent :=
  List.filter
    (fun ev => match ev with Progress _ _ => false | _ => true end) tr.

End Client.

(** ** The pdf-lib helpers ([lib/pdf-utils.ts]) *)

Module PdfUtils.

(** A [File] as a file picker or a drop hands it over: the [name] and the
    [type] the browser gave it, and its size and contents. *)
Record PickedFile := mkPickedFile {
  name : string;
  type : string;
  data : File
}.

Record Validation := mkValidation {
  isValid : bool;
  error : option string
}.

(** [validatePdfFile(file)]; a missing file ([null], [undefined]) is [None]. *)
Definition validatePdfFile (file : option PickedFile) : Validation :=
  match file with
  | None => {| isValid := false; error := Some "No file provided" |}
  | Some file =>
      if negb (bool_decide (type file = "application/pdf")) then
        {| isValid := false; error := Some "File must be a PDF" |}
      else
        let maxSize := 100 * 1024 * 1024 in
        if size (data file) >? maxSize then
          {| isValid := false;
             error := Some "File size must be less than 100MB" |}
        else {| isValid := true; error := None |}
  end.

Section PdfLib.
(** A page of a document: the functions below copy pages from one document
    to another and never look into them. *)
Context {Page : Type}.

(** pdf-lib, as far as the functions below use it. A document is the list
    of its pages: [load bytes] is what [PDFDocument.load(bytes)] settles
    to, [save pages] what [save()] settles to on a document made by
    [PDFDocument.create()] to which [pages] were added in this order.
    What these calls and [file.arrayBuffer()] throw are [Error] objects. *)
Record PdfLib := mkPdfLib {
  create : outcome unit;
  load : bytes -> outcome (list Page);
  save : list Page -> outcome bytes
}.

(** [Array.from({ length }, (_, idx) => f(idx))]: a length below 1 gives
    the empty array. *)
Definition array_from (length : Z) (f : Z -> Z) : list Z :=
  map (fun idx => f (Z.of_nat idx)) (seq 0 (Z.to_nat length)).

(** [pdf.getPageIndices()] *)
Definition getPageIndices (pdf : list Page) : list Z :=
  array_from (Z.of_nat (length pdf)) (fun idx => idx).

(** [srcPages[index]] *)
Definition page_at (pdf : list Page) (index : Z) : option Page :=
  if index <? 0 then None else pdf !! Z.to_nat index.

(** Reading [.node] of an undefined page. *)
Definition no_such_page : JsError :=
  {| e_name := "TypeError";
     e_message := "Cannot read properties of undefined (reading 'node')";
     e_code := None; e_stderr := EmptyString |}.

(** [doc.copyPages(pdf, indices)]: the pages of [pdf] at [indices], in the
    order of [indices]; pdf-lib reads [srcPages[index].node] for each, which
    throws for an index outside the document. *)
Fixpoint copyPages (pdf : list Page) (indices : list Z)
  : outcome (list Page) :=
  match indices with
  | [] => Returned []
  | index :: indices' =>
      match page_at pdf index with
      | None => Thrown no_such_page
      | Some page =>
          match copyPages pdf indices' with
          | Returned pages => Returned (page :: pages)
          | Thrown e => Thrown e
          end
      end
  end.

(** [new Blob([b], { type: 'application/pdf' })] *)
Definition pdf_blob (b : bytes) : Client.Blob :=
  {| Client.blob_parts := b; Client.blob_type := "application/pdf" |}.

(** [new Error(`${prefix}${error instanceof Error ? error.message :
    'Unknown error'}`)], where [prefix] is the text before the hole of the
    template. *)
Definition failed (prefix : string) (error : JsError) : JsError :=
  new_Error (prefix +:+ e_message error).

(** [mergedPdf.addPage(page)]; the state is the document being built. *)
Definition addPage (page : Page) : Js.M (list Page) unit :=
  Js.modify (fun doc => doc ++ [page]).

(** One turn of the loop of [mergePdfs]. *)
Definition merge_turn (lib : PdfLib) (file : File) : Js.M (list Page) unit :=
  let* pdfBytes := Js.await (arrayBuffer file) in
  let* pdf := Js.await (load lib pdfBytes) in
  let* copiedPages := Js.await (copyPages pdf (getPageIndices pdf)) in
  Js.for_each addPage copiedPages.

(** The [try] block of [mergePdfs], run on the new, empty [mergedPdf]. *)
Definition merge_try (lib : PdfLib) (files : list File)
  : Js.M (list Page) Client.Blob :=
  Js.await (create lib);;;
  Js.for_each (merge_turn lib) files;;;
  let* mergedPdf := Js.gets (fun doc => doc) in
  let* mergedPdfBytes := Js.await (save lib mergedPdf) in
  Js.ret (pdf_blob mergedPdfBytes).

(** [mergePdfs(files)]; the [options] argument is never read. *)
Definition mergePdfs (lib : PdfLib) (files : list File)
  : outcome Client.Blob :=
  fst (Js.try_catch (merge_try lib files)
         (fun error => Js.throw (failed "Failed to merge PDFs: " error)) []).

(** The five lines that [splitPdf] (twice) and [extractPages] repeat: a new
    document, the pages of [pdf] at [indices] copied and added to it, the
    document saved and pushed on [results], which is the state. *)
Definition push_document (lib : PdfLib) (pdf : list Page) (indices : list Z)
  : Js.M (list Client.Blob) unit :=
  Js.await (create lib);;;
  let* copiedPages := Js.await (copyPages pdf indices) in
  let* newPdfBytes := Js.await (save lib copiedPages) in
  Js.modify (fun results => results ++ [pdf_blob newPdfBytes]).

(** Page numbers and counts are whole numbers. A range is the two-element
    array the split page builds. *)
Record SplitOptions := mkSplitOptions {
  pageRanges : list (Z * Z);
  splitByCount : bool;
  pagesPerFile : Z
}.

(** [for (let i = ...; i < pageCount; i += pagesPerFile) { ... }] from the
    test of [i] on. The loop need not end: [None] says that it is still
    running after [fuel] turns. *)
Fixpoint count_loop (lib : PdfLib) (pdf : list Page) (pagesPerFile : Z)
    (fuel : nat) (i : Z) (results : list Client.Blob)
  : option (outcome unit * list Client.Blob) :=
  let pageCount := Z.of_nat (length pdf) in
  if i <? pageCount then
    match fuel with
    | O => None
    | S fuel' =>
        let endPage := Z.min (i + pagesPerFile) pageCount in
        match
          push_document lib pdf
            (array_from (endPage - i) (fun idx => i + idx)) results
        with
        | (Returned _, results') =>
            count_loop lib pdf pagesPerFile fuel' (i + pagesPerFile) results'
        | (Thrown e, results') => Some (Thrown e, results')
        end
    end
  else Some (Returned tt, results).

Definition range_loop (lib : PdfLib) (pdf : list Page)
    (pageRanges : list (Z * Z)) : Js.M (list Client.Blob) unit :=
  Js.for_each
    (fun range : Z * Z =>
       let (start, end_) := range in
       push_document lib pdf
         (array_from (end_ - start + 1) (fun idx => start - 1 + idx)))
    pageRanges.

(** What the [try] block of [splitPdf] and [extractPages] leaves: the
    [results] on a normal end, the wrapped error otherwise. *)
Definition finish (prefix : string) (run : outcome unit * list Client.Blob)
  : outcome (list Client.Blob) :=
  match run with
  | (Returned _, results) => Returned results
  | (Thrown e, _) => Thrown (failed prefix e)
  end.

(** [splitPdf(file, options)] within [fuel] turns of its counting loop. *)
Definition splitPdf (lib : PdfLib) (fuel : nat) (file : File)
    (options : SplitOptions) : option (outcome (list Client.Blob)) :=
  let prefix := "Failed to split PDF: " in
  match arrayBuffer file with
  | Thrown e => Some (Thrown (failed prefix e))
  | Returned pdfBytes =>
      match load lib pdfBytes with
      | Thrown e => Some (Thrown (failed prefix e))
      | Returned pdf =>
          if splitByCount options then
            match count_loop lib pdf (pagesPerFile options) fuel 0 [] with
            | None => None
            | Some run => Some (finish prefix run)
            end
          else Some (finish prefix (range_loop lib pdf (pageRanges options) []))
      end
  end.

(** [extractPages(file, { pages })] *)
Definition extractPages (lib : PdfLib) (file : File) (pages : list Z)
  : outcome (list Client.Blob) :=
  let prefix := "Failed to extract pages: " in
  match arrayBuffer file with
  | Thrown e => Thrown (failed prefix e)
  | Returned pdfBytes =>
      match load lib pdfBytes with
      | Thrown e => Thrown (failed prefix e)
      | Returned pdf =>
          let pageCount := Z.of_nat (length pdf) in
          finish prefix
            (Js.for_each
               (fun pageNum =>
                  if (pageNum >? 0) && (pageNum <=? pageCount) then
                    push_document lib pdf [pageNum - 1]
                  else Js.ret tt)
               pages [])
      end
  end.

(** Pages [first] to [last] of a document, counted from 1, as far as the
    document has them. *)
Definition pages_between (pdf : list Page) (first last : Z) : list Page :=
  take (Z.to_nat (last - first + 1)) (drop (Z.to_nat (first - 1)) pdf).



(** A blob that holds what [save] made of [pages]. *)
Definition saved_as (lib : PdfLib) (pages : list Page) (blob : Client.Blob)
  : Prop :=
  save lib pages = Returned (Client.blob_parts blob) /\
  Client.blob_type blob = "application/pdf".

(** A file whose bytes can be read and loaded as the document [pdf]. *)
Definition loads (lib : PdfLib) (file : File) (pdf : list Page) : Prop :=
  exists pdfBytes,
    arrayBuffer file = Returned pdfBytes /\ load lib pdfBytes = Returned pdf.

(** A file that cannot be read, or whose bytes cannot be loaded. *)
Definition fails_with (lib : PdfLib) (file : File) (e : JsError) : Prop :=
  arrayBuffer file = Thrown e \/
  exists pdfBytes,
    arrayBuffer file = Returned pdfBytes /\ load lib pdfBytes = Thrown e.

End PdfLib.
Arguments PdfLib : clear implicits.

End PdfUtils.

(** ** The store of the pages ([store/pdf-store.ts]) *)

Module Store.

(** A file of the store; [file_size] is its [size] property. *)
Record PdfFile := mkPdfFile {
  id : string;
  file : PdfUtils.PickedFile;
  name : string;
  file_size : Z;
  type : string
}.

Record ProcessingState := mkProcessing {
  isProcessing : bool;
  progress : Z;
  currentStep : string;
  error : option string
}.

(** [Partial<ProcessingState>]: the properties an object literal gives;
    [error] itself may be given as [null]. *)
Record PartialProcessing := mkPartial {
  set_isProcessing : option bool;
  set_progress : option Z;
  set_currentStep : option string;
  set_error : option (option string)
}.

(** The files, the processing state, the result and, of the settings, the
    one that is read ([autoDownload]); the other settings and the selected
    pages of the store are not touched by the operations below. *)
Record State := mkState {
  files : list PdfFile;
  processing : ProcessingState;
  result : option Client.Blob;
  autoDownload : bool
}.

Definition defaultProcessing : ProcessingState :=
  {| isProcessing := false; progress := 0; currentStep := EmptyString;
     error := None |}.

Definition initial : State :=
  {| files := []; processing := defaultProcessing; result := None;
     autoDownload := true |}.

(** [addFile(file)], with the [id] that [crypto.randomUUID()] returned. *)
Definition addFile (id : string) (file : PdfUtils.PickedFile) (state : State)
  : State :=
  let pdfFile :=
    {| id := id; file := file; name := PdfUtils.name file;
       file_size := size (PdfUtils.data file);
       type := PdfUtils.type file |} in
  {| files := files state ++ [pdfFile];
     processing := processing state; result := result state;
     autoDownload := autoDownload state |}.


Definition clearFiles (state : State) : State :=
  {| files := []; processing := processing state; result := result state;
     autoDownload := autoDownload state |}.

(** [{ ...state.processing, ...processing }] *)
Definition spread (old : ProcessingState) (new : PartialProcessing)
  : ProcessingState :=
  {| isProcessing := default (isProcessing old) (set_isProcessing new);
     progress := default (progress old) (set_progress new);
     currentStep := default (currentStep old) (set_currentStep new);
     error := default (error old) (set_error new) |}.

Definition setProcessing (new : PartialProcessing) (state : State) : State :=
  {| files := files state; processing := spread (processing state) new;
     result := result state; autoDownload := autoDownload state |}.

Definition resetProcessing (state : State) : State :=
  {| files := files state; processing := defaultProcessing;
     result := result state; autoDownload := autoDownload state |}.

Definition setResult (r : option Client.Blob) (state : State) : State :=
  {| files := files state; processing := processing state; result := r;
     autoDownload := autoDownload state |}.

(** The object literals the pages hand to [setProcessing]. *)
Definition started (step : string) : PartialProcessing :=
  {| set_isProcessing := Some true; set_progress := Some 0;
     set_currentStep := Some step; set_error := None |}.

Definition step_of (pct : Z) (step : string) : PartialProcessing :=
  {| set_isProcessing := None; set_progress := Some pct;
     set_currentStep := Some step; set_error := None |}.

Definition stopped_with (msg : string) : PartialProcessing :=
  {| set_isProcessing := Some false; set_progress := None;
     set_currentStep := None; set_error := Some (Some msg) |}.

Definition back_to_idle : PartialProcessing :=
  {| set_isProcessing := Some false; set_progress := Some 0;
     set_currentStep := Some EmptyString; set_error := None |}.

End Store.

(** ** The unlock page ([app/unlock/page.tsx]) *)

Module UnlockPage.

(** Around the page: the route handler behind [/api/unlock] as it is at
    the [n]-th request, whether the [n]-th [fetch] gets through at all,
    the identifiers of [crypto.randomUUID], and how a response body is
    read as text or as bytes. When a request gets through, the form on
    the server holds the file as the browser has it. *)
Record Env := mkEnv {
  route : nat -> Route.Env;
  fetch_fault : nat -> option JsError;
  randomUUID : nat -> string;
  decode : bytes -> string;
  encode : string -> bytes
}.

(** The store, the component state ([password], [result], the latter by
    the bytes of the blob), and what the page has done to the world:
    alerts, console lines, pending timers, identifiers drawn, requests
    sent, and the server's file system and effects. *)
Record State := mkState {
  store : Store.State;
  password : string;
  result : option bytes;
  alerts : list string;
  console : list JsError;
  timers : nat;
  uuids : nat;
  requests : nat;
  server_fs : gmap string bytes;
  served : list event
}.

Definition initial (fs0 : gmap string bytes) : State :=
  {| store := Store.initial; password := EmptyString; result := None;
     alerts := []; console := []; timers := 0; uuids := 0; requests := 0;
     server_fs := fs0; served := [] |}.

Definition with_store (f : Store.State -> Store.State) (s : State) : State :=
  {| store := f (store s); password := password s; result := result s;
     alerts := alerts s; console := console s; timers := timers s;
     uuids := uuids s; requests := requests s; server_fs := server_fs s;
     served := served s |}.

Definition setPassword (value : string) (s : State) : State :=
  {| store := store s; password := value; result := result s;
     alerts := alerts s; console := console s; timers := timers s;
     uuids := uuids s; requests := requests s; server_fs := server_fs s;
     served := served s |}.

Definition setResult (blob : bytes) : Js.M State unit :=
  Js.modify (fun s =>
    {| store := store s; password := password s; result := Some blob;
       alerts := alerts s; console := console s; timers := timers s;
       uuids := uuids s; requests := requests s; server_fs := server_fs s;
       served := served s |}).

Definition alert (msg : string) : Js.M State unit :=
  Js.modify (fun s =>
    {| store := store s; password := password s; result := result s;
       alerts := alerts s ++ [msg]; console := console s; timers := timers s;
       uuids := uuids s; requests := requests s; server_fs := server_fs s;
       served := served s |}).

Definition console_log (error : JsError) : Js.M State unit :=
  Js.modify (fun s =>
    {| store := store s; password := password s; result := result s;
       alerts := alerts s; console := console s ++ [error];
       timers := timers s; uuids := uuids s; requests := requests s;
       server_fs := server_fs s; served := served s |}).

(** [setTimeout(callback, 2000)]: every callback of the page is the same
    one, so the pending ones are counted. *)
Definition setTimeout : Js.M State unit :=
  Js.modify (fun s =>
    {| store := store s; password := password s; result := result s;
       alerts := alerts s; console := console s; timers := S (timers s);
       uuids := uuids s; requests := requests s; server_fs := server_fs s;
       served := served s |}).

Definition setProcessing (new : Store.PartialProcessing) : Js.M State unit :=
  Js.modify (with_store (Store.setProcessing new)).

(** [addFile(file)] of the store, drawing the next identifier. *)
Definition addFile (env : Env) (file : PdfUtils.PickedFile) : Js.M State unit :=
  Js.modify (fun s =>
    {| store := Store.addFile (randomUUID env (uuids s)) file (store s);
       password := password s; result := result s; alerts := alerts s;
       console := console s; timers := timers s; uuids := S (uuids s);
       requests := requests s; server_fs := server_fs s;
       served := served s |}).

(** [onDrop(acceptedFiles)] *)
Definition onDrop (env : Env) (acceptedFiles : list PdfUtils.PickedFile)
  : Js.M State unit :=
  Js.for_each
    (fun file =>
       let validation := PdfUtils.validatePdfFile (Some file) in
       if PdfUtils.isValid validation then addFile env file
       else alert (default "undefined" (PdfUtils.error validation)))
    acceptedFiles.

(** What the framework answers for a handler that threw. *)
Definition internal_server_error : Response :=
  Route.text_response "Internal Server Error" 500.

(** [fetch("/api/unlock", { method: "POST", body: formData })] *)
Definition fetch_unlock (env : Env) (formData : Route.FormData)
  : Js.M State Response :=
  fun s =>
    match fetch_fault env (requests s) with
    | Some e => (Thrown e, s)
    | None =>
        match
          Route.POST (route env (requests s))
            {| Route.formData := Returned formData |} (server_fs s)
        with
        | (r, rs) =>
            (Returned
               match r with
               | Returned response => response
               | Thrown _ => internal_server_error
               end,
             {| store := store s; password := password s; result := result s;
                alerts := alerts s; console := console s; timers := timers s;
                uuids := uuids s; requests := S (requests s);
                server_fs := Route.fs rs;
                served := served s ++ Route.trace rs |})
        end
    end.

(** [response.ok] *)
Definition ok (response : Response) : bool :=
  (200 <=? status response) && (status response <=? 299).

(** [response.text()] and the bytes of [response.blob()] *)
Definition response_text (env : Env) (response : Response) : string :=
  match resp_body response with
  | BodyText s => s
  | BodyBytes b => decode env b
  end.

Definition response_bytes (env : Env) (response : Response) : bytes :=
  match resp_body response with
  | BodyText s => encode env s
  | BodyBytes b => b
  end.

(** Reading [.file] of an undefined [files[0]]. *)
Definition no_first_file : JsError :=
  {| e_name := "TypeError";
     e_message := "Cannot read properties of undefined (reading 'file')";
     e_code := None; e_stderr := EmptyString |}.

Definition MSG_FALLBACK :=
  "Failed to unlock PDF. Please check the password or try another file.".

(** The [try] block of [handleUnlock]. *)
Definition unlock_try (env : Env) (files : list Store.PdfFile)
    (password : string) : Js.M State unit :=
  let* file :=
    match files with
    | first :: _ => Js.ret (Store.file first)
    | [] => Js.throw no_first_file
    end in
  let formData :=
    {| Route.get_pdf := Some (Route.EntryFile (PdfUtils.data file));
       Route.get_password := Some (Route.EntryString password) |} in
  setProcessing (Store.step_of 25 "Unlocking PDF...");;;
  let* response := fetch_unlock env formData in
  (if negb (ok response)
   then Js.throw (new_Error (response_text env response))
   else Js.ret tt);;;
  setProcessing (Store.step_of 75 "Receiving unlocked PDF...");;;
  let blob := response_bytes env response in
  setProcessing (Store.step_of 100 "Complete!");;;
  setResult blob.

(** [handleUnlock()], up to the end of its [finally] block; [files] and
    [password] are those of the render that made the handler. *)
Definition handleUnlock (env : Env) : Js.M State unit :=
  let* files := Js.gets (fun s => Store.files (store s)) in
  let* password := Js.gets password in
  if bool_decide (length files = 0%nat) then alert "Please select a PDF file"
  else if bool_decide (password = EmptyString) then
    alert "Please enter the password"
  else
    setProcessing (Store.started "Uploading file...");;;
    Js.try_finally
      (Js.try_catch (unlock_try env files password)
         (fun error =>
            console_log error;;;
            setProcessing
              (Store.stopped_with (or_else (e_message error) MSG_FALLBACK))))
      setTimeout.

(** A pending timer of [handleUnlock] fires. *)
Definition timer_fires (s : State) : State :=
  match timers s with
  | O => s
  | S pending =>
      {| store := Store.setProcessing Store.back_to_idle (store s);
         password := password s; result := result s; alerts := alerts s;
         console := console s; timers := pending; uuids := uuids s;
         requests := requests s; server_fs := server_fs s;
         served := served s |}
  end.

(** What can happen on the page: files are dropped, the password is
    edited, the files are cleared, [handleUnlock] runs, a timer fires. *)
Inductive action :=
| Drop (acceptedFiles : list PdfUtils.PickedFile)
| TypePassword (value : string)
| Clear
| Unlock
| TimerFires.

Definition step (env : Env) (a : action) (s : State) : State :=
  match a with
  | Drop acceptedFiles => snd (onDrop env acceptedFiles s)
  | TypePassword value => setPassword value s
  | Clear => with_store Store.clearFiles s
  | Unlock => snd (handleUnlock env s)
  | TimerFires => timer_fires s
  end.

Definition run (env : Env) (actions : list action) (s : State) : State :=
  fold_left (fun s a => step env a s) actions s.

(** The request the page sends for [picked] and [password]. *)
Definition page_request (picked : PdfUtils.PickedFile) (password : string)
  : Route.Request :=
  {| Route.formData :=
       Returned
         {| Route.get_pdf := Some (Route.EntryFile (PdfUtils.data picked));
            Route.get_password := Some (Route.EntryString password) |} |}.

(** The error the page shows. *)
Definition shown_error (s : State) : option string :=
  Store.error (Store.processing (store s)).

(** A file of the store that [validatePdfFile] accepts. *)
Definition validated (f : Store.PdfFile) : Prop :=
  PdfUtils.type (Store.file f) = "application/pdf" /\
  size (PdfUtils.data (Store.file f)) <= 104857600.

End UnlockPage.

(** ** The merge page ([app/(tools)/merge/MergeToolClient.tsx]) *)

Module MergePage.

(** The store, and what the page has done: alerts, downloads started
    (blob and file name), pending timers. *)
Record State := mkState {
  store : Store.State;
  alerts : list string;
  downloads : list (Client.Blob * string);
  timers : nat
}.

Definition with_store (f : Store.State -> Store.State) (s : State) : State :=
  {| store := f (store s); alerts := alerts s; downloads := downloads s;
     timers := timers s |}.

Definition setProcessing (new : Store.PartialProcessing) : Js.M State unit :=
  Js.modify (with_store (Store.setProcessing new)).

Definition setResult (blob : Client.Blob) : Js.M State unit :=
  Js.modify (with_store (Store.setResult (Some blob))).

Definition alert (msg : string) : Js.M State unit :=
  Js.modify (fun s =>
    {| store := store s; alerts := alerts s ++ [msg];
       downloads := downloads s; timers := timers s |}).

(** [downloadResult(blob, filename)] *)
Definition downloadResult (blob : Client.Blob) (filename : string)
  : Js.M State unit :=
  Js.modify (fun s =>
    {| store := store s; alerts := alerts s;
       downloads := downloads s ++ [(blob, filename)]; timers := timers s |}).

Definition setTimeout : Js.M State unit :=
  Js.modify (fun s =>
    {| store := store s; alerts := alerts s; downloads := downloads s;
       timers := S (timers s) |}).

(** [handleMerge()], up to the end of its [finally] block. Whatever
    [mergePdfs] throws is a fresh [Error], so the [catch] shows its
    message. *)
Definition handleMerge {Page : Type} (lib : PdfUtils.PdfLib Page)
  : Js.M State unit :=
  let* files := Js.gets (fun s => Store.files (store s)) in
  if (length files <? 2)%nat then
    alert "Please select at least 2 PDF files to merge"
  else
    setProcessing (Store.started "Preparing files...");;;
    Js.try_finally
      (Js.try_catch
         (let fileList :=
            map (fun f => PdfUtils.data (Store.file f)) files in
          setProcessing (Store.step_of 25 "Merging PDFs...");;;
          let* result := Js.await (PdfUtils.mergePdfs lib fileList) in
          setProcessing (Store.step_of 100 "Complete!");;;
          setResult result;;;
          let* autoDownload :=
            Js.gets (fun s => Store.autoDownload (store s)) in
          if autoDownload then downloadResult result "merged-document.pdf"
          else Js.ret tt)
         (fun error => setProcessing (Store.stopped_with (e_message error))))
      setTimeout.

(** The files of the store, as [handleMerge] hands them to [mergePdfs]. *)
Definition store_files (s : State) : list File :=
  map (fun f => PdfUtils.data (Store.file f)) (Store.files (store s)).

End MergePage.


(** ** The extract page ([ExtractPagesPage]) *)

Module ExtractPage.

(** [togglePage(pageNumber)] on the selection [prev]. The comparison
    function [(a, b) => a - b] orders whole numbers upwards; whatever the
    sorting algorithm, the result is the one upward arrangement of the
    numbers. *)
Definition togglePage (pageNumber : Z) (prev : list Z) : list Z :=
  if bool_decide (pageNumber ∈ prev)
  then filter (fun p => p <> pageNumber) prev
  else merge_sort Z.le (prev ++ [pageNumber]).

(** [selectAllPages()] with the [pageCount] of the component state *)
Definition selectAllPages (pageCount : Z) : list Z :=
  PdfUtils.array_from pageCount (fun i => i + 1).

Definition clearSelection : list Z := [].

(** [s.replace(pattern, '')] for a string [pattern]: the first occurrence
    is taken out. *)
Fixpoint remove_first (pattern s : string) : string :=
  if String.prefix pattern s
  then String.substring (String.length pattern)
         (String.length s - String.length pattern) s
  else match s with
       | EmptyString => EmptyString
       | String c s' => String c (remove_first pattern s')
       end.

(** A number, or [undefined], in a template literal. *)
Definition template (v : option Z) : string :=
  match v with Some n => pretty n | None => "undefined" end.

(** [downloadAll()]: the downloads it starts, in order, each a blob and a
    file name. *)
Definition downloadAll (files : list Store.PdfFile) (selectedPages : list Z)
    (extractResults : list Client.Blob) : list (Client.Blob * string) :=
  imap
    (fun index blob =>
       let pageNumber := selectedPages !! index in
       let filename :=
         match files with
         | first :: _ =>
             remove_first ".pdf" (Store.name first) +:+ "_page_"
             +:+ template pageNumber +:+ ".pdf"
         | [] => "extracted_page_" +:+ template pageNumber +:+ ".pdf"
         end in
       (blob, filename))
    extractResults.

(** A selection in strictly upward order: sorted and without repetition. *)
Definition ascending (l : list Z) : Prop := StronglySorted Z.lt l.

(** What a visitor can do to the selection. *)
Inductive pick :=
| Toggle (pageNumber : Z)
| SelectAll (pageCount : Z)
| ClearSelection.

Definition select (selection : list Z) (a : pick) : list Z :=
  match a with
  | Toggle pageNumber => togglePage pageNumber selection
  | SelectAll pageCount => selectAllPages pageCount
  | ClearSelection => clearSelection
  end.

End ExtractPage.

(** ** Sample inputs *)

Module Samples.

(** The first bytes of a PDF file. *)
Definition pdf_bytes : bytes := [Byte.x25; Byte.x50; Byte.x44; Byte.x46].

Definition newline : string := String (ascii_of_nat 10) EmptyString.

(** The error of [execFile] for a tool that ran and exited with [status],
    as Node builds it: the message is the command line followed by the
    tool's standard error. *)
Definition exit_error (file : string) (args : list string) (status : Z)
    (stderr : string) : JsError :=
  {| e_name := "Error";
     e_message :=
       "Command failed: " +:+ String.concat " " (file :: args) +:+ newline
       +:+ stderr;
     e_code := Some (CodeExit status); e_stderr := stderr |}.

(** The error of [execFile] for an executable that does not exist. *)
Definition spawn_enoent (file : string) : JsError :=
  {| e_name := "Error"; e_message := "spawn " +:+ file +:+ " ENOENT";
     e_code := Some (CodeName "ENOENT"); e_stderr := EmptyString |}.

(** A stand-in for qpdf on a document locked with [secret]: with the right
    password it writes the output file and exits with 0; otherwise it
    names the input file on its standard error the way qpdf does and
    exits with 2. *)
Definition qpdf_like (secret : string) (file : string) (args : list string)
    (fs : gmap string bytes) : option JsError * gmap string bytes :=
  match args with
  | [pw; _; inp; outp] =>
      match fs !! inp with
      | Some data =>
          if decide (pw = "--password=" +:+ secret)
          then (None, <[outp := data]> fs)
          else (Some (exit_error file args 2
                        ("qpdf: " +:+ inp +:+ ": invalid password")), fs)
      | None =>
          (Some (exit_error file args 2
                   ("qpdf: open " +:+ inp +:+ ": No such file or directory")),
           fs)
      end
  | _ => (Some (exit_error file args 2 "qpdf: unrecognized arguments"), fs)
  end.

(** qpdf on a damaged file: it writes the output, warns, and exits with 3,
    which [execFile] reports as an error. *)
Definition qpdf_with_warnings (file : string) (args : list string)
    (fs : gmap string bytes) : option JsError * gmap string bytes :=
  match args with
  | [_; _; inp; outp] =>
      (Some (exit_error file args 3 "WARNING: file is damaged"),
       <[outp := pdf_bytes]> fs)
  | _ => (Some (exit_error file args 2 "qpdf: unrecognized arguments"), fs)
  end.

Definition route_env : Route.Env :=
  {| Route.QPDF_BINARY_PATH := "qpdf";
     Route.tmpdir := "/tmp";
     Route.randomUUID := fun n => "3f9a-" +:+ pretty n;
     Route.writeFile_fault := None;
     Route.execFile := qpdf_like "secret";
     Route.unlink_fault := fun _ => None |}.

Definition route_env_without_qpdf : Route.Env :=
  {| Route.QPDF_BINARY_PATH := "/app/backend/bin/qpdf";
     Route.tmpdir := "/tmp";
     Route.randomUUID := fun n => "3f9a-" +:+ pretty n;
     Route.writeFile_fault := None;
     Route.execFile := fun file _ fs => (Some (spawn_enoent file), fs);
     Route.unlink_fault := fun _ => None |}.

Definition route_env_with_warnings : Route.Env :=
  {| Route.QPDF_BINARY_PATH := "qpdf";
     Route.tmpdir := "/tmp";
     Route.randomUUID := fun n => "3f9a-" +:+ pretty n;
     Route.writeFile_fault := None;
     Route.execFile := qpdf_with_warnings;
     Route.unlink_fault := fun _ => None |}.

Definition pdf_file : File :=
  {| size := 4; arrayBuffer := Returned pdf_bytes |}.

Definition empty_file : File :=
  {| size := 0; arrayBuffer := Returned [] |}.

Definition form (f : File) (password : string) : Route.FormData :=
  {| Route.get_pdf := Some (Route.EntryFile f);
     Route.get_password := Some (Route.EntryString password) |}.

Definition upload (f : File) (password : string) : Route.Request :=
  {| Route.formData := Returned (form f password) |}.

Definition express_env : Express.Env :=
  {| Express.execFile := qpdf_like "secret";
     Express.unlink_fault := fun _ => None |}.

Definition express_env_with_warnings : Express.Env :=
  {| Express.execFile := qpdf_with_warnings;
     Express.unlink_fault := fun _ => None |}.

Definition express_upload (password : string) : Express.Request :=
  {| Express.body_password := Some password;
     Express.file := Some {| Express.path := "uploads/3f9a" |} |}.

(** The file system after multer has stored the upload. *)
Definition express_fs : gmap string bytes := {[ "uploads/3f9a" := pdf_bytes ]}.

(** A decoder for documents of [n] A4 pages locked with [secret]: it
    rejects empty data, asks the callback about a wrong password, and
    rejects with a [PasswordException] when the callback does not throw. *)
Definition a4 : Client.PDFPageProxy :=
  {| Client.getViewport :=
       fun scale =>
         {| Client.width := 595 * scale; Client.height := 842 * scale |};
     Client.render := fun _ => Returned [Byte.xff] |}.

Definition document (n : nat) : Client.PDFDocumentProxy :=
  {| Client.numPages := n; Client.getPage := fun _ => Returned a4 |}.

Definition invalid_pdf : JsError :=
  {| e_name := "InvalidPDFException"; e_message := "Invalid PDF structure.";
     e_code := None; e_stderr := EmptyString |}.

Definition password_exception : JsError :=
  {| e_name := "PasswordException"; e_message := "Incorrect Password";
     e_code := None; e_stderr := EmptyString |}.

Definition library (n : nat) (secret : string) : Client.PdfJsLib :=
  {| Client.NEED_PASSWORD := 1;
     Client.workerSrc := EmptyString;
     Client.getDocument :=
       fun data password callback =>
         match data with
         | [] => Thrown invalid_pdf
         | _ =>
             if decide (password = secret) then Returned (document n)
             else match callback 2 with
                  | Thrown e => Thrown e
                  | Returned _ => Thrown password_exception
                  end
         end |}.

(** A browser in which the CDN script loads and every step works; and one
    whose canvas for page 2 has no 2-D context. *)
Definition browser (n : nat) (secret : string) : Client.Browser :=
  {| Client.script_load := fun _ => Client.OnLoad (Some (library n secret));
     Client.PDFDocument_create := Returned tt;
     Client.getContext2d := fun _ => true;
     Client.toDataURL := fun _ _ => "data:image/png;base64,";
     Client.fetch := fun _ => Returned [Byte.x89; Byte.x50; Byte.x4e; Byte.x47];
     Client.embedPng_fault := fun _ => None;
     Client.save :=
       fun pages => Returned (pdf_bytes ++ repeat Byte.x0a (length pages));
     Client.half_rounds_up := fun _ _ => true |}.

Definition browser_without_canvas (n : nat) (secret : string)
  : Client.Browser :=
  {| Client.script_load := fun _ => Client.OnLoad (Some (library n secret));
     Client.PDFDocument_create := Returned tt;
     Client.getContext2d := fun pageNumber => negb (pageNumber =? 2)%nat;
     Client.toDataURL := fun _ _ => "data:image/png;base64,";
     Client.fetch := fun _ => Returned [Byte.x89; Byte.x50; Byte.x4e; Byte.x47];
     Client.embedPng_fault := fun _ => None;
     Client.save :=
       fun pages => Returned (pdf_bytes ++ repeat Byte.x0a (length pages));
     Client.half_rounds_up := fun _ _ => true |}.

Definition offline_browser : Client.Browser :=
  {| Client.script_load := fun _ => Client.OnError;
     Client.PDFDocument_create := Returned tt;
     Client.getContext2d := fun _ => true;
     Client.toDataURL := fun _ _ => "data:image/png;base64,";
     Client.fetch := fun _ => Returned [];
     Client.embedPng_fault := fun _ => None;
     Client.save := fun _ => Returned [];
     Client.half_rounds_up := fun _ _ => true |}.

(** A page that has not loaded PDF.js yet. *)
Definition fresh_loader : Client.Loader :=
  {| Client.window_defined := true;
     Client.window_pdfjsLib := None;
     Client.pdfJsLoader := None;
     Client.scripts := 0 |}.

End Samples.

(** ** Sample inputs of the pages *)

Module PageSamples.

(** A stand-in for pdf-lib in which a document is written as one byte per
    page: loading gives the bytes as pages, saving gives the pages as
    bytes; no bytes at all are not a document. *)
Definition one_page_per_byte : PdfUtils.PdfLib Byte.byte :=
  {| PdfUtils.create := Returned tt;
     PdfUtils.load :=
       fun b => match b with
                | [] => Thrown Samples.invalid_pdf
                | _ => Returned b
                end;
     PdfUtils.save := fun pages => Returned pages |}.

Definition five_pages : File :=
  {| size := 5;
     arrayBuffer := Returned [Byte.x01; Byte.x02; Byte.x03; Byte.x04; Byte.x05] |}.

Definition two_pages : File :=
  {| size := 2; arrayBuffer := Returned [Byte.x0a; Byte.x0b] |}.

Definition not_readable : JsError :=
  {| e_name := "NotReadableError"; e_message := "The file could not be read.";
     e_code := None; e_stderr := EmptyString |}.

Definition unreadable_file : File :=
  {| size := 5; arrayBuffer := Thrown not_readable |}.

Definition by_count (pagesPerFile : Z) : PdfUtils.SplitOptions :=
  {| PdfUtils.pageRanges := []; PdfUtils.splitByCount := true;
     PdfUtils.pagesPerFile := pagesPerFile |}.


Definition picked (name : string) (f : File) : PdfUtils.PickedFile :=
  {| PdfUtils.name := name; PdfUtils.type := "application/pdf";
     PdfUtils.data := f |}.

Definition stored (id name : string) (f : File) : Store.PdfFile :=
  {| Store.id := id; Store.file := picked name f; Store.name := name;
     Store.file_size := size f; Store.type := "application/pdf" |}.

(** An express server on a machine without qpdf. *)
Definition express_env_without_qpdf : Express.Env :=
  {| Express.execFile :=
       fun file _ fs => (Some (Samples.spawn_enoent file), fs);
     Express.unlink_fault := fun _ => None |}.

(** The unlock page in front of the sample route handler. *)
Definition page_env : UnlockPage.Env :=
  {| UnlockPage.route := fun _ => Samples.route_env;
     UnlockPage.fetch_fault := fun _ => None;
     UnlockPage.randomUUID := fun n => "file-" +:+ pretty n;
     UnlockPage.decode := fun _ => EmptyString;
     UnlockPage.encode := fun _ => [] |}.

(** The page after a drop of the sample PDF and a password. *)
Definition ready (password : string) : UnlockPage.State :=
  UnlockPage.run page_env
    [UnlockPage.Drop [picked "locked.pdf" Samples.pdf_file];
     UnlockPage.TypePassword password]
    (UnlockPage.initial ∅).

(** The same page with the network down. *)
Definition failed_to_fetch : JsError :=
  {| e_name := "TypeError"; e_message := "Failed to fetch"; e_code := None;
     e_stderr := EmptyString |}.

Definition offline_page_env : UnlockPage.Env :=
  {| UnlockPage.route := fun _ => Samples.route_env;
     UnlockPage.fetch_fault := fun _ => Some failed_to_fetch;
     UnlockPage.randomUUID := fun n => "file-" +:+ pretty n;
     UnlockPage.decode := fun _ => EmptyString;
     UnlockPage.encode := fun _ => [] |}.

(** The merge page with two files in its store. *)
Definition merge_page (files : list Store.PdfFile) : MergePage.State :=
  {| MergePage.store :=
       {| Store.files := files; Store.processing := Store.defaultProcessing;
          Store.result := None; Store.autoDownload := true |};
     MergePage.alerts := []; MergePage.downloads := [];
     MergePage.timers := 0 |}.

Definition two_files_dropped : MergePage.State :=
  merge_page [stored "file-0" "a.pdf" two_pages;
              stored "file-1" "b.pdf" five_pages].

Definition one_file_unreadable : MergePage.State :=
  merge_page [stored "file-0" "a.pdf" two_pages;
              stored "file-1" "b.pdf" unreadable_file].

End PageSamples.

(** * Properties *)

Ltac js_unfold :=
  unfold Js.bind, Js.try_catch, Js.try_finally, Js.ret, Js.throw, Js.await,
         Js.gets, Js.modify in *.

(** Peels the elements off a hypothesis [x ∈ [a; b; ...]]. *)
Ltac elem_cases :=
  repeat match goal with
    | H : _ ∈ [] |- _ => by apply elem_of_nil in H
    | H : _ ∈ _ :: _ |- _ => apply elem_of_cons in H as [?|H]; simplify_eq/=
    end.

(** ** The route handler *)

Section RouteProperties.
Import Route.

Ltac route_unfold :=
  unfold try_block, catch_block, unlock_with_tool, tool_failed, fs_writeFile,
         execFileAsync, fs_readFile, console_error, emit, set_inputPath,
         set_outputPath, init, set_fs in *;
  js_unfold.

(** Runs the [try] block on every branch of the request and the world. *)
Ltac route_cases := route_unfold; repeat (case_match; simplify_eq/=).

(** Closes a goal [∃ msg, run = (Returned (text_response msg 400), _) ∧
    In msg [...]] once the run is a value. *)
Ltac validation_msg := eexists; split; [reflexivity|]; simpl; tauto.

Lemma path_join_nonempty dir name : path_join dir name <> EmptyString.
Proof. unfold path_join. destruct dir; discriminate. Qed.

(** The [try] and [catch] blocks always produce a response; they neither
    answer nor unlink; and what they create is named by the two variables
    the [finally] block reads. *)
Lemma try_part_spec env request fs0 :
  ∃ r s1,
    Js.try_catch (try_block env request) catch_block (init fs0)
      = (Returned r, s1) ∧
    Forall quiet (trace s1) ∧
    (∀ p, created_during p (trace s1) →
          p <> EmptyString ∧ (inputPath s1 = Some p ∨ outputPath s1 = Some p)).
Proof.
  route_cases.
  all: eexists _, _; split; [reflexivity|]; simpl.
  all: split; [repeat constructor|].
  all: intros p [Hw|(file & args & Hx & Hlast)]; elem_cases.
  all: split; [apply path_join_nonempty | auto].
Qed.

(** One unlink of the [finally] block: it is recorded, never throws, and
    leaves the path absent unless the unlink itself failed. *)
Lemma unlink_swallowed_spec env p s :
  ∃ s',
    Js.try_catch (fs_unlink env p) (fun _ => Js.ret tt) s = (Returned tt, s') ∧
    trace s' = trace s ++ [EvUnlink p] ∧
    (unlink_fault env p = None → fs s' !! p = None) ∧
    (∀ q, fs s !! q = None → fs s' !! q = None).
Proof.
  unfold fs_unlink, emit, set_fs. js_unfold. simpl.
  destruct (unlink_fault env p) eqn:Hf; simpl.
  - eexists; repeat split; eauto. done.
  - destruct (fs s !! p) eqn:Hp; simpl.
    + eexists; repeat split; eauto; simpl.
      * intros _. apply lookup_delete_eq.
      * intros q Hq. rewrite lookup_delete. case_decide; done.
    + eexists; repeat split; eauto.
Qed.

Lemma for_each_unlink_spec env ps : ∀ s,
  ∃ s',
    Js.for_each
      (fun filePath => Js.try_catch (fs_unlink env filePath) (fun _ => Js.ret tt))
      ps s = (Returned tt, s') ∧
    trace s' = trace s ++ map EvUnlink ps ∧
    (∀ p, p ∈ ps → unlink_fault env p = None → fs s' !! p = None) ∧
    (∀ q, fs s !! q = None → fs s' !! q = None).
Proof.
  induction ps as [|p ps IH]; intros s; simpl.
  - eexists; repeat split; eauto.
    + by rewrite app_nil_r.
    + intros p Hp. by apply elem_of_nil in Hp.
  - destruct (unlink_swallowed_spec env p s) as (s1 & H1 & Ht1 & Hd1 & Hk1).
    unfold Js.bind at 1. rewrite H1.
    destruct (IH s1) as (s2 & H2 & Ht2 & Hd2 & Hk2).
    exists s2. rewrite H2. repeat split.
    + rewrite Ht2, Ht1, <- app_assoc. done.
    + intros q Hq Hf. apply elem_of_cons in Hq as [->|Hq]; auto.
    + auto.
Qed.

Lemma finally_block_spec env s :
  let ps := truthy_paths [inputPath s; outputPath s] in
  ∃ s',
    finally_block env s = (Returned tt, s') ∧
    trace s' = trace s ++ map EvUnlink ps ∧
    (∀ p, p ∈ ps → unlink_fault env p = None → fs s' !! p = None).
Proof.
  intros ps. unfold finally_block, Js.bind, Js.gets.
  destruct (for_each_unlink_spec env ps s) as (s' & H & Ht & Hd & _).
  exists s'. fold ps. rewrite H. auto.
Qed.

Lemma POST_from_try_part env request fs0 r s1 :
  Js.try_catch (try_block env request) catch_block (init fs0)
    = (Returned r, s1) →
  ∃ s2,
    POST env request fs0 = (Returned r, s2) ∧
    trace s2
    = trace s1 ++ map EvUnlink (truthy_paths [inputPath s1; outputPath s1]).
Proof.
  intros Htry. destruct (finally_block_spec env s1) as (s2 & Hfin & Htrace & _).
  exists s2. unfold POST, Js.try_finally. rewrite Htry, Hfin. done.
Qed.

Lemma truthy_paths_elem p ip op :
  p <> EmptyString → ip = Some p ∨ op = Some p → p ∈ truthy_paths [ip; op].
Proof.
  intros Hne [->| ->]; unfold truthy_paths; simpl.
  - case_decide; [done|]. apply elem_of_app. left.
    by apply list_elem_of_singleton.
  - apply elem_of_app. right. case_decide; [done|]. rewrite app_nil_r.
    by apply list_elem_of_singleton.
Qed.

Lemma unlinked_before_response_quiet p tr rest :
  Forall quiet tr →
  unlinked_before_response p (tr ++ rest) = unlinked_before_response p rest.
Proof.
  induction 1 as [|ev tr Hev _ IH]; [done|].
  destruct ev; simpl in *; done.
Qed.

Lemma existsb_respond_end tr r :
  existsb is_respond (tr ++ [EvRespond r]) = true.
Proof. rewrite existsb_app. simpl. apply orb_true_r. Qed.

Lemma unlinked_before_response_unlinks p ps r :
  p ∈ ps →
  unlinked_before_response p (map EvUnlink ps ++ [EvRespond r]) = true.
Proof.
  induction ps as [|q ps IH]; intros Hp; [by apply elem_of_nil in Hp|].
  simpl. case_decide as Hq; [apply existsb_respond_end|].
  apply elem_of_cons in Hp as [->|Hp]; [done|auto].
Qed.

Lemma elem_of_unlinks ev ps : ev ∈ map EvUnlink ps → ∃ q, ev = EvUnlink q.
Proof. intros Hev. apply list_elem_of_fmap in Hev as (q & -> & _). eauto. Qed.

Lemma created_during_app_unlinks p tr ps :
  created_during p (tr ++ map EvUnlink ps) → created_during p tr.
Proof.
  intros [Hw|(file & args & Hx & Hl)].
  - apply elem_of_app in Hw as [Hw|Hw]; [by left|].
    apply elem_of_unlinks in Hw as [q Hq]. discriminate.
  - apply elem_of_app in Hx as [Hx|Hx]; [right; eauto|].
    apply elem_of_unlinks in Hx as [q Hq]. discriminate.
Qed.

(** For every request, [POST] returns a response, and every temporary
    artifact created on the way (the file it wrote, the output path it
    named to the tool) is unlinked before the response is delivered: on
    success, on a tool failure and on any other error. The path is gone
    from the file system unless the unlink itself failed, and a failing
    unlink never changes the response. *)
Lemma route_cleanup env request fs0 :
  ∃ r s,
    POST env request fs0 = (Returned r, s) ∧
    (∀ p, created_during p (trace s) →
          unlinked_before_response p (timeline env request fs0) = true ∧
          (unlink_fault env p = None → fs s !! p = None)) ∧
    (∀ uf, fst (POST (with_unlink_fault uf env) request fs0) = Returned r).
Proof.
  destruct (try_part_spec env request fs0) as (r & s1 & Htry & Hquiet & Hpaths).
  destruct (finally_block_spec env s1) as (s2 & Hfin & Htrace & Hgone).
  assert (HPOST : POST env request fs0 = (Returned r, s2)).
  { unfold POST, Js.try_finally. rewrite Htry, Hfin. done. }
  exists r, s2. split; [done|]. split.
  - intros p Hp. rewrite Htrace in Hp. apply created_during_app_unlinks in Hp.
    destruct (Hpaths p Hp) as [Hne Hvar].
    pose proof (truthy_paths_elem p _ _ Hne Hvar) as Hin.
    split; [|auto].
    unfold timeline. rewrite HPOST, Htrace, <- app_assoc.
    rewrite unlinked_before_response_quiet by done.
    by apply unlinked_before_response_unlinks.
  - intros uf.
    destruct (finally_block_spec (with_unlink_fault uf env) s1)
      as (s3 & Hfin' & _).
    unfold POST, Js.try_finally.
    change (try_block (with_unlink_fault uf env) request)
      with (try_block env request).
    rewrite Htry, Hfin'. done.
Qed.

(** When the form holds an empty document, a document over 100MB or an
    empty password, [POST] answers 400 with one of the four validation
    messages and leaves the world as it found it: nothing written, nothing
    run, nothing read, nothing deleted. *)
Lemma route_validation env request fs0 fd :
  formData request = Returned fd →
  (∃ f, get_pdf fd = Some (EntryFile f) ∧ (size f = 0 ∨ MAX_FILE_SIZE < size f))
  ∨ get_password fd = Some (EntryString EmptyString) →
  ∃ msg,
    POST env request fs0 = (Returned (text_response msg 400), init fs0) ∧
    In msg [MSG_PDF_REQUIRED; MSG_PASSWORD_REQUIRED; MSG_EMPTY; MSG_TOO_LARGE].
Proof.
  intros Hfd Hbad.
  assert (Htry : ∃ msg,
    Js.try_catch (try_block env request) catch_block (init fs0)
      = (Returned (text_response msg 400), init fs0) ∧
    In msg [MSG_PDF_REQUIRED; MSG_PASSWORD_REQUIRED; MSG_EMPTY; MSG_TOO_LARGE]).
  { route_unfold. rewrite Hfd. simpl.
    destruct Hbad as [(f & -> & Hsize)| ->].
    - destruct (get_password fd) as [[f'|password]|]; try by validation_msg.
      case_decide; [by validation_msg|].
      destruct (size f =? 0) eqn:Hz; [by validation_msg|].
      destruct (size f >? MAX_FILE_SIZE) eqn:Hm; [by validation_msg|].
      exfalso. apply Z.eqb_neq in Hz. rewrite Z.gtb_ltb in Hm.
      apply Z.ltb_ge in Hm. lia.
    - destruct (get_pdf fd) as [[f|s]|]; by validation_msg. }
  destruct Htry as (msg & Htry & Hmsg). exists msg. split; [|done].
  unfold POST, Js.try_finally. rewrite Htry. reflexivity.
Qed.

(** C3. When the request is accepted and the tool fails, the response is
    500 exactly when the error code is ENOENT and 400 exactly when it is
    anything else; there is no third answer. *)
Theorem route_tool_failure_status env request fs0 pdfFile password buffer e fs1 :
  accepted request pdfFile password buffer →
  writeFile_fault env = None →
  tool_run env password buffer fs0 = (Some e, fs1) →
  ∃ r,
    fst (POST env request fs0) = Returned r ∧
    (status r = 500 ↔ e_code e = Some (CodeName "ENOENT")) ∧
    (status r = 400 ↔ e_code e <> Some (CodeName "ENOENT")) ∧
    (r = text_response MSG_NOT_FOUND 500 ∨
     r = text_response (or_else (e_stderr e) MSG_WRONG_PASSWORD) 400).
Proof.
  intros (Hfd & Hpw & Hnz & Hmax & Hbuf) Hwrite Htool. unfold tool_run in Htool.
  assert (Htry : ∃ s1,
    Js.try_catch (try_block env request) catch_block (init fs0)
      = (Returned (if decide (e_code e = Some (CodeName "ENOENT"))
                   then text_response MSG_NOT_FOUND 500
                   else text_response
                          (or_else (e_stderr e) MSG_WRONG_PASSWORD) 400), s1)).
  { apply Z.eqb_neq in Hnz.
    assert (Hle : (size pdfFile >? MAX_FILE_SIZE) = false)
      by (rewrite Z.gtb_ltb; by apply Z.ltb_ge).
    route_unfold. rewrite Hfd. simpl. rewrite decide_False by done.
    rewrite Hnz, Hle, Hbuf, Hwrite. simpl. rewrite Htool. simpl.
    case_decide; simpl; eauto. }
  destruct Htry as (s1 & Htry).
  destruct (POST_from_try_part _ _ _ _ _ Htry) as (s2 & HPOST & _).
  rewrite HPOST. simpl. eexists; split; [reflexivity|].
  case_decide; simpl; repeat split; auto; done.
Qed.

Lemma accepted_intro request fd pdfFile password buffer :
  formData request = Returned fd →
  get_pdf fd = Some (EntryFile pdfFile) →
  get_password fd = Some (EntryString password) →
  password <> EmptyString →
  (size pdfFile =? 0) = false →
  (size pdfFile >? MAX_FILE_SIZE) = false →
  arrayBuffer pdfFile = Returned buffer →
  accepted request pdfFile password buffer.
Proof.
  intros Hfd Hpdf Hpw Hne Hnz Hmax Hbuf. destruct fd as [pdf pw]. simpl in *.
  subst. apply Z.eqb_neq in Hnz. rewrite Z.gtb_ltb in Hmax.
  apply Z.ltb_ge in Hmax. by repeat split.
Qed.

(** The three kinds of response of the [try] and [catch] blocks: a fixed
    text, the tool's own standard error, or the unlocked bytes. The log
    holds nothing but the three fixed labels, each with a caught error. *)
Lemma try_part_classes env request fs0 :
  ∃ r s1,
    Js.try_catch (try_block env request) catch_block (init fs0)
      = (Returned r, s1) ∧
    (∀ label payload, EvConsole label payload ∈ trace s1 → In label log_labels) ∧
    ((∃ msg, In msg fixed_messages ∧
             (r = text_response msg 400 ∨ r = text_response msg 500))
     ∨ (∃ pdfFile password buffer e fs1,
          accepted request pdfFile password buffer ∧
          writeFile_fault env = None ∧
          tool_run env password buffer fs0 = (Some e, fs1) ∧
          e_code e <> Some (CodeName "ENOENT") ∧
          e_stderr e <> EmptyString ∧
          r = text_response (e_stderr e) 400)
     ∨ (∃ pdfFile password buffer fs1 unlockedPdf,
          accepted request pdfFile password buffer ∧
          writeFile_fault env = None ∧
          tool_run env password buffer fs0 = (None, fs1) ∧
          fs1 !! temp_output env = Some unlockedPdf ∧
          r = pdf_response unlockedPdf)).
Proof.
  unfold tool_run. route_cases.
  all: eexists _, _; split; [reflexivity|]; simpl.
  all: split;
    [ intros label payload Hin; elem_cases; simpl; tauto | ].
  all: try (left; eexists; split; [|first [by left | by right]];
            simpl; tauto).
  all: match goal with
       | Hfd : formData _ = Returned ?fd,
         Hpdf : get_pdf ?fd = Some (EntryFile ?f),
         Hpw : get_password ?fd = Some (EntryString ?pw),
         Hne : ?pw <> EmptyString,
         Hnz : (size ?f =? 0) = false,
         Hmax : (size ?f >? MAX_FILE_SIZE) = false,
         Hbuf : arrayBuffer ?f = Returned ?buffer |- _ =>
           pose proof (accepted_intro _ _ _ _ _ Hfd Hpdf Hpw Hne Hnz Hmax Hbuf)
             as Hacc
       end.
  - unfold or_else.
    match goal with |- context [decide (e_stderr ?e = EmptyString)] =>
      destruct (decide (e_stderr e = EmptyString)) as [Hstderr|Hstderr] end.
    + left. eexists; split; [|by left]. simpl. tauto.
    + right; left. eauto 12.
  - right; right. eauto 12.
Qed.

Lemma console_not_unlink label payload tr ps :
  EvConsole label payload ∈ tr ++ map EvUnlink ps → EvConsole label payload ∈ tr.
Proof.
  intros Hin. apply elem_of_app in Hin as [Hin|Hin]; [done|].
  apply elem_of_unlinks in Hin as [q Hq]. discriminate.
Qed.

(** C4 (amended). Every response of [POST] that is not the unlocked
    document is a text with status 400 or 500. The text is one of seven
    fixed messages, chosen without looking at the password or the paths,
    except after a tool failure other than ENOENT with a non-empty standard
    error: then it is the tool's standard error, word for word. Every log
    line is one of three fixed labels followed by the caught error: the
    handler itself hands neither the password nor a path to the log. *)
Theorem route_failure_messages env request fs0 :
  ∃ r s,
    POST env request fs0 = (Returned r, s) ∧
    (status r = 200 ∨
     ∃ msg,
       (r = text_response msg 400 ∨ r = text_response msg 500) ∧
       (In msg fixed_messages ∨
        ∃ pdfFile password buffer e fs1,
          accepted request pdfFile password buffer ∧
          tool_run env password buffer fs0 = (Some e, fs1) ∧
          e_code e <> Some (CodeName "ENOENT") ∧
          e_stderr e <> EmptyString ∧
          msg = e_stderr e)) ∧
    (∀ label payload, EvConsole label payload ∈ trace s → In label log_labels).
Proof.
  destruct (try_part_classes env request fs0)
    as (r & s1 & Htry & Hlog & Hclass).
  destruct (POST_from_try_part _ _ _ _ _ Htry) as (s2 & HPOST & Htrace).
  exists r, s2. split; [done|]. split.
  - destruct Hclass as [(msg & Hmsg & Hr)|
                        [(pdfFile & password & buffer & e & fs1 & Hacc & _ &
                          Htool & Hcode & Hstderr & ->)|
                         (pdfFile & password & buffer & fs1 & unlockedPdf &
                          _ & _ & _ & _ & ->)]].
    + right. exists msg. auto.
    + right. exists (e_stderr e). split; [by left|]. right. eauto 10.
    + by left.
  - intros label payload Hin. rewrite Htrace in Hin.
    apply console_not_unlink in Hin. eauto.
Qed.


(** Refutes [accepted request _ _ _] on a branch of the [try] block that
    left through a guard or a failure. *)
Ltac not_accepted :=
  let Hform := fresh "Hform" in
  let Hfd := fresh "Hfd" in
  let Hnz := fresh "Hnz" in
  let Hmax := fresh "Hmax" in
  match goal with H : formData _ = _ |- _ => rename H into Hform end;
  intros ? ? ? (Hfd & ? & Hnz & Hmax & ?);
  rewrite Hfd in Hform;
  simplify_eq/=; simpl in *; simplify_eq/=;
  first [ congruence
        | exfalso; apply Hnz; by apply Z.eqb_eq
        | exfalso;
          match goal with
          | H : (_ >? _) = true |- _ =>
              rewrite Z.gtb_ltb in H; apply Z.ltb_lt in H; lia
          end ].

(** *** When the tool is run *)

(** An accepted request whose input can be written starts with the write
    of the temporary input and the run of the tool on it. *)
Lemma accepted_runs_tool env request fs0 pdfFile password buffer :
  accepted request pdfFile password buffer →
  writeFile_fault env = None →
  ∃ r s tail,
    POST env request fs0 = (Returned r, s) ∧
    trace s
    = EvWriteFile (temp_input env)
      :: EvExec (QPDF_BINARY_PATH env) (tool_args env password) :: tail.
Proof.
  intros (Hfd & Hpw & Hnz & Hmax & Hbuf) Hwrite.
  assert (Htry : ∃ r s1 tail,
    Js.try_catch (try_block env request) catch_block (init fs0)
      = (Returned r, s1) ∧
    trace s1
    = EvWriteFile (temp_input env)
      :: EvExec (QPDF_BINARY_PATH env) (tool_args env password) :: tail).
  { apply Z.eqb_neq in Hnz.
    assert (Hle : (size pdfFile >? MAX_FILE_SIZE) = false)
      by (rewrite Z.gtb_ltb; by apply Z.ltb_ge).
    route_unfold. rewrite Hfd. simpl. rewrite decide_False by done.
    rewrite Hnz, Hle, Hbuf, Hwrite. simpl.
    repeat (case_match; simplify_eq/=); eauto. }
  destruct Htry as (r & s1 & tail & Htry & Htrace).
  destruct (POST_from_try_part _ _ _ _ _ Htry) as (s2 & HPOST & Htrace2).
  exists r, s2. eexists. split; [done|]. rewrite Htrace2, Htrace. done.
Qed.

Lemma executions_unlinks tr ps :
  executions (tr ++ map EvUnlink ps) = executions tr.
Proof.
  unfold executions. rewrite flat_map_app.
  replace (flat_map _ (map EvUnlink ps)) with (@nil (string * list string)).
  - by rewrite app_nil_r.
  - induction ps; simpl; auto.
Qed.

(** X1. The route handler runs a program only for a request that passed
    its four guards and whose input it could write: then it runs exactly
    one, the configured qpdf binary, on this request's password and this
    request's two temporary paths. For every other request it runs
    nothing. *)
Theorem route_runs_tool_iff_accepted env request fs0 :
  let runs := executions (trace (snd (POST env request fs0))) in
  (∃ pdfFile password buffer,
     accepted request pdfFile password buffer ∧
     writeFile_fault env = None ∧
     runs = [(QPDF_BINARY_PATH env, tool_args env password)])
  ∨ (runs = [] ∧
     ∀ pdfFile password buffer,
       accepted request pdfFile password buffer → writeFile_fault env <> None).
Proof.
  intros runs. subst runs.
  destruct (try_part_spec env request fs0) as (r & s1 & Htry & _ & _).
  destruct (POST_from_try_part _ _ _ _ _ Htry) as (s2 & HPOST & Htrace).
  rewrite HPOST. simpl. rewrite Htrace, executions_unlinks.
  clear HPOST Htrace s2. revert Htry.
  route_cases; intros; simplify_eq/=.
  all: try (right; split; [reflexivity|]; by not_accepted).
  all: left;
       match goal with
       | Hfd : formData _ = Returned ?fd,
         Hpdf : get_pdf ?fd = Some (EntryFile ?f),
         Hpw : get_password ?fd = Some (EntryString ?pw),
         Hne : ?pw <> EmptyString,
         Hnz : (size ?f =? 0) = false,
         Hmax : (size ?f >? MAX_FILE_SIZE) = false,
         Hbuf : arrayBuffer ?f = Returned ?buffer |- _ =>
           pose proof (accepted_intro _ _ _ _ _ Hfd Hpdf Hpw Hne Hnz Hmax Hbuf)
             as Hacc
       end; eauto 10.
Qed.

(** The response of [POST] is the unlocked document or a text that is not
    empty. *)
Lemma route_response_kinds env request fs0 :
  ∃ r s,
    POST env request fs0 = (Returned r, s) ∧
    ((∃ unlockedPdf, r = pdf_response unlockedPdf)
     ∨ (∃ msg, msg <> EmptyString ∧
               (r = text_response msg 400 ∨ r = text_response msg 500))).
Proof.
  destruct (try_part_classes env request fs0)
    as (r & s1 & Htry & _ & Hclass).
  destruct (POST_from_try_part _ _ _ _ _ Htry) as (s2 & HPOST & _).
  exists r, s2. split; [done|].
  destruct Hclass as [(msg & Hmsg & Hr)|
                      [(pdfFile & password & buffer & e & fs1 & _ & _ & _ &
                        _ & Hstderr & ->)|
                       (pdfFile & password & buffer & fs1 & unlockedPdf &
                        _ & _ & _ & _ & ->)]].
  - right. exists msg. split; [|done].
    simpl in Hmsg. intuition (subst; discriminate).
  - right. eauto.
  - left. eauto.
Qed.

(** *** What the handler leaves alone *)

Lemma unlink_swallowed_frame env p s q :
  q <> p →
  fs (snd (Js.try_catch (fs_unlink env p) (fun _ => Js.ret tt) s)) !! q
  = fs s !! q.
Proof.
  intros Hq. unfold fs_unlink, emit, set_fs. js_unfold. simpl.
  repeat (case_match; simplify_eq/=); try done.
  by rewrite lookup_delete_ne.
Qed.

Lemma for_each_unlink_frame env ps q : ∀ s,
  q ∉ ps →
  fs (snd (Js.for_each
             (fun filePath =>
                Js.try_catch (fs_unlink env filePath) (fun _ => Js.ret tt))
             ps s)) !! q
  = fs s !! q.
Proof.
  induction ps as [|p ps IH]; intros s Hq; [done|].
  apply not_elem_of_cons in Hq as [Hp Hq]. simpl.
  destruct (unlink_swallowed_spec env p s) as (s1 & H1 & _).
  pose proof (unlink_swallowed_frame env p s q Hp) as Hframe.
  unfold Js.bind at 1. rewrite H1 in *. simpl in Hframe.
  by rewrite IH.
Qed.

Lemma try_part_frame env request fs0 q r s1 :
  q <> temp_input env →
  (∀ password fs,
     (execFile env (QPDF_BINARY_PATH env) (tool_args env password) fs).2 !! q
     = fs !! q) →
  Js.try_catch (try_block env request) catch_block (init fs0)
    = (Returned r, s1) →
  fs s1 !! q = fs0 !! q ∧
  (∀ p, p ∈ truthy_paths [inputPath s1; outputPath s1] →
        p = temp_input env ∨ p = temp_output env) ∧
  (∀ p, EvWriteFile p ∈ trace s1 → p = temp_input env).
Proof.
  intros Hq Htool. route_cases; intros; simplify_eq/=.
  all: split;
    [|split; [intros p Hp; simpl in Hp; elem_cases; auto
             |intros p Hp; by elem_cases]].
  all: try done.
  all: match goal with
       | H : execFile _ _ (tool_args _ ?pw) ?fs1 = (_, ?g) |- ?g !! _ = _ =>
           pose proof (Htool pw fs1) as Hg; rewrite H in Hg; simpl in Hg;
           rewrite Hg; by rewrite lookup_insert_ne
       end.
Qed.

(** X2. The route handler changes no file but its own two: a path other
    than the temporary input and output that the tool leaves alone holds
    after the request what it held before; and the handler writes and
    unlinks nothing else, whatever the request and however it ends. *)
Theorem route_touches_only_temp_files env request fs0 q :
  q <> temp_input env → q <> temp_output env →
  (∀ password fs,
     (execFile env (QPDF_BINARY_PATH env) (tool_args env password) fs).2 !! q
     = fs !! q) →
  let s := snd (POST env request fs0) in
  fs s !! q = fs0 !! q ∧
  ∀ p, In (EvWriteFile p) (trace s) ∨ In (EvUnlink p) (trace s) →
       p = temp_input env ∨ p = temp_output env.
Proof.
  intros Hin Hout Htool s. subst s.
  destruct (try_part_spec env request fs0) as (r & s1 & Htry & Hquiet & _).
  destruct (try_part_frame env request fs0 q r s1 Hin Htool Htry)
    as (Hfs & Hpaths & Hwrites).
  destruct (finally_block_spec env s1) as (s2 & Hfin & Htrace & _).
  assert (HPOST : POST env request fs0 = (Returned r, s2)).
  { unfold POST, Js.try_finally. rewrite Htry, Hfin. done. }
  rewrite HPOST. simpl. split.
  - assert (Hq : q ∉ truthy_paths [inputPath s1; outputPath s1]).
    { intros Hq. destruct (Hpaths q Hq); done. }
    pose proof (for_each_unlink_frame env _ q s1 Hq) as Hframe.
    unfold finally_block, Js.bind, Js.gets in Hfin.
    rewrite Hfin in Hframe. simpl in Hframe. by rewrite Hframe.
  - intros p [Hp|Hp]; rewrite Htrace in Hp;
      apply list_elem_of_In, elem_of_app in Hp as [Hp|Hp].
    + left. by apply Hwrites.
    + apply elem_of_unlinks in Hp as [? ?]. discriminate.
    + rewrite Forall_forall in Hquiet. by apply Hquiet in Hp.
    + apply list_elem_of_fmap in Hp as (p' & [= ->] & Hp). by apply Hpaths.
Qed.

End RouteProperties.

(** *** The route handler on the sample inputs *)

(** A wrong password: both temporary files are unlinked, then the
    response leaves; the message is the tool's standard error. *)
Example route_wrong_password_timeline :
  Route.timeline Samples.route_env
    (Samples.upload Samples.pdf_file "wrong") ∅
  = [EvWriteFile "/tmp/pdf-input-3f9a-0.pdf";
     EvExec "qpdf"
       ["--password=wrong"; "--decrypt"; "/tmp/pdf-input-3f9a-0.pdf";
        "/tmp/pdf-output-3f9a-1.pdf"];
     EvConsole "Failed to unlock PDF:"
       (Samples.exit_error "qpdf"
          ["--password=wrong"; "--decrypt"; "/tmp/pdf-input-3f9a-0.pdf";
           "/tmp/pdf-output-3f9a-1.pdf"]
          2 "qpdf: /tmp/pdf-input-3f9a-0.pdf: invalid password");
     EvUnlink "/tmp/pdf-input-3f9a-0.pdf";
     EvUnlink "/tmp/pdf-output-3f9a-1.pdf";
     EvRespond
       (Route.text_response
          "qpdf: /tmp/pdf-input-3f9a-0.pdf: invalid password" 400)].
Proof. vm_compute. reflexivity. Qed.

(** A tool that writes its output and then fails: the route handler leaves
    nothing behind. *)
Example route_cleans_after_warning :
  Route.fs (snd (Route.POST Samples.route_env_with_warnings
                   (Samples.upload Samples.pdf_file "secret") ∅)) = ∅.
Proof. vm_compute. reflexivity. Qed.

Lemma route_tool_failure_status_witness :
  ∃ e fs1,
    Route.accepted (Samples.upload Samples.pdf_file "secret")
      Samples.pdf_file "secret" Samples.pdf_bytes ∧
    Route.writeFile_fault Samples.route_env_without_qpdf = None ∧
    Route.tool_run Samples.route_env_without_qpdf "secret" Samples.pdf_bytes ∅
      = (Some e, fs1) ∧
    ∃ r,
      fst (Route.POST Samples.route_env_without_qpdf
             (Samples.upload Samples.pdf_file "secret") ∅) = Returned r ∧
      (status r = 500 ↔ e_code e = Some (CodeName "ENOENT")) ∧
      (status r = 400 ↔ e_code e <> Some (CodeName "ENOENT")) ∧
      (r = Route.text_response Route.MSG_NOT_FOUND 500 ∨
       r = Route.text_response
             (or_else (e_stderr e) Route.MSG_WRONG_PASSWORD) 400).
Proof.
  assert (Hacc : Route.accepted (Samples.upload Samples.pdf_file "secret")
                   Samples.pdf_file "secret" Samples.pdf_bytes).
  { unfold Route.accepted. simpl. repeat split; done. }
  assert (Htool :
    Route.tool_run Samples.route_env_without_qpdf "secret" Samples.pdf_bytes ∅
    = (Some (Samples.spawn_enoent "/app/backend/bin/qpdf"),
       <[Route.temp_input Samples.route_env_without_qpdf := Samples.pdf_bytes]> ∅)).
  { reflexivity. }
  eexists _, _. split; [exact Hacc|]. split; [reflexivity|].
  split; [exact Htool|].
  exact (route_tool_failure_status Samples.route_env_without_qpdf
           (Samples.upload Samples.pdf_file "secret") ∅ Samples.pdf_file
           "secret" Samples.pdf_bytes _ _ Hacc eq_refl Htool).
Defined.

(** C4, as stated, fails: after a wrong password the message the caller
    sees is the tool's standard error, which names the temporary input
    file; and the error object written to the log carries the command
    line, password included. *)
Lemma route_message_names_temp_path :
  let run :=
    Route.POST Samples.route_env (Samples.upload Samples.pdf_file "wrong") ∅ in
  let stderr :=
    "qpdf: " +:+ Route.temp_input Samples.route_env +:+ ": invalid password" in
  let error :=
    Samples.exit_error "qpdf" (Route.tool_args Samples.route_env "wrong") 2
      stderr in
  fst run = Returned (Route.text_response stderr 400)
  ∧ includes (Route.temp_input Samples.route_env) stderr = true
  ∧ In (EvConsole "Failed to unlock PDF:" error) (Route.trace (snd run))
  ∧ includes "--password=wrong" (e_message error) = true.
Proof. repeat split; vm_compute; tauto. Qed.

Lemma route_failure_messages_witness :
  ∃ r s,
    Route.POST Samples.route_env (Samples.upload Samples.pdf_file "wrong") ∅
      = (Returned r, s) ∧
    (status r = 200 ∨
     ∃ msg,
       (r = Route.text_response msg 400 ∨ r = Route.text_response msg 500) ∧
       (In msg Route.fixed_messages ∨
        ∃ pdfFile password buffer e fs1,
          Route.accepted (Samples.upload Samples.pdf_file "wrong")
            pdfFile password buffer ∧
          Route.tool_run Samples.route_env password buffer ∅ = (Some e, fs1) ∧
          e_code e <> Some (CodeName "ENOENT") ∧
          e_stderr e <> EmptyString ∧
          msg = e_stderr e)) ∧
    (∀ label payload,
       EvConsole label payload ∈ Route.trace s → In label Route.log_labels).
Proof.
  exact (route_failure_messages Samples.route_env
           (Samples.upload Samples.pdf_file "wrong") ∅).
Defined.

(** ** The express server *)

Section ExpressProperties.
Import Express.

(** The express handler never unlinks before it answers: whatever the
    request and the tool, no path is deleted ahead of the response. *)
Lemma express_never_unlinks_first env req fs0 p :
  unlinked_before_response p (timeline env req fs0) = false.
Proof.
  unfold timeline, unlock, tool_done, run_tool, res_send, res_download,
    fs_unlinkSync, emit.
  js_unfold. simpl.
  repeat (case_match; simplify_eq/=); done.
Qed.

(** It does unlink the upload afterwards, on both paths. *)
Lemma express_unlinks_upload env req fs0 f :
  file req = Some f → In (EvUnlink (path f)) (timeline env req fs0).
Proof.
  intros Hf. unfold timeline, unlock, tool_done, run_tool, res_send,
    res_download, fs_unlinkSync, emit.
  js_unfold. rewrite Hf. simpl.
  repeat (case_match; simplify_eq/=); rewrite ?in_app_iff; simpl; tauto.
Qed.

(** X3. The express server answers every failure of the tool in the same
    way: status 400 with one fixed text, whatever the error says: a
    missing qpdf binary is answered like a wrong password, and the tool's
    standard error is never passed on. The response comes after the log
    line and before the unlink of the upload; the output path is not
    unlinked. A request without a password field runs the tool with
    [--password=undefined]. *)
Theorem express_failure_answer_is_fixed env req fs0 f e fs1 :
  let args :=
    ["--password=" +:+ template (body_password req); "--decrypt"; path f;
     path f +:+ "-unlocked.pdf"] in
  file req = Some f →
  execFile env "qpdf" args fs0 = (Some e, fs1) →
  timeline env req fs0
  = [EvExec "qpdf" args; EvConsole "Error" e;
     EvRespond (Route.text_response MSG_FAILED 400); EvUnlink (path f)].
Proof.
  intros args Hfile Htool. subst args.
  unfold timeline, unlock, tool_done, run_tool, res_send, fs_unlinkSync, emit.
  js_unfold. rewrite Hfile. simpl. rewrite Htool. simpl.
  repeat (case_match; simplify_eq/=); done.
Qed.

Lemma string_length_app (s1 s2 : string) :
  String.length (s1 +:+ s2) = (String.length s1 + String.length s2)%nat.
Proof. induction s1 as [|c s1 IH]; simpl; [done|]. by rewrite IH. Qed.

(** X4. When the tool succeeds and has written its output, the express
    server streams the output as the response and then unlinks the upload
    and the output, in this order; with unlinks that work, neither file is
    left and no other file is touched. *)
Theorem express_success_unlinks_both env req fs0 f fs1 data :
  let outputPath := path f +:+ "-unlocked.pdf" in
  let args :=
    ["--password=" +:+ template (body_password req); "--decrypt"; path f;
     outputPath] in
  file req = Some f →
  execFile env "qpdf" args fs0 = (None, fs1) →
  fs1 !! outputPath = Some data →
  is_Some (fs1 !! path f) →
  unlink_fault env (path f) = None →
  unlink_fault env outputPath = None →
  unlock env req fs0
  = (Returned tt,
     {| fs := delete outputPath (delete (path f) fs1);
        trace :=
          [EvExec "qpdf" args; EvReadFile outputPath;
           EvRespond
             {| status := 200; resp_body := BodyBytes data;
                headers :=
                  [("Content-Disposition",
                    "attachment; filename=" +:+ dquote +:+ "unlocked.pdf"
                    +:+ dquote)] |};
           EvUnlink (path f); EvUnlink outputPath] |}).
Proof.
  intros outputPath args Hfile Htool Hout [upload Hup] Hf1 Hf2.
  subst outputPath args.
  assert (Hne : path f +:+ "-unlocked.pdf" <> path f).
  { intros Heq. apply (f_equal String.length) in Heq.
    rewrite string_length_app in Heq. simpl in Heq. lia. }
  unfold unlock, tool_done, run_tool, res_download, fs_unlinkSync, emit.
  js_unfold. rewrite Hfile. simpl. rewrite Htool. simpl. rewrite Hout. simpl.
  rewrite Hf1. simpl. rewrite Hup. simpl. rewrite Hf2. simpl.
  rewrite lookup_delete_ne by done. rewrite Hout. done.
Qed.

End ExpressProperties.

(** C1, as stated, fails on the express server: after a wrong password the
    400 response is sent while the upload is still on disk, and the unlink
    follows it. *)
Lemma express_responds_before_unlinking :
  let tl :=
    Express.timeline Samples.express_env (Samples.express_upload "wrong")
      Samples.express_fs in
  tl = [EvExec "qpdf"
          ["--password=wrong"; "--decrypt"; "uploads/3f9a";
           "uploads/3f9a-unlocked.pdf"];
        EvConsole "Error"
          (Samples.exit_error "qpdf"
             ["--password=wrong"; "--decrypt"; "uploads/3f9a";
              "uploads/3f9a-unlocked.pdf"]
             2 "qpdf: uploads/3f9a: invalid password");
        EvRespond (Route.text_response Express.MSG_FAILED 400);
        EvUnlink "uploads/3f9a"]
  ∧ unlinked_before_response "uploads/3f9a" tl = false.
Proof. split; vm_compute; reflexivity. Qed.

(** On the express server a tool that wrote its output and then failed
    leaves that output on disk: the failure path unlinks the upload only. *)
Example express_leaves_output_after_warning :
  Express.fs
    (snd (Express.unlock Samples.express_env_with_warnings
            (Samples.express_upload "secret") Samples.express_fs))
  = {[ "uploads/3f9a-unlocked.pdf" := Samples.pdf_bytes ]}.
Proof. vm_compute. reflexivity. Qed.

(** ** The browser strategy *)

Section ClientProperties.
Import Client.

(** *** Rounding *)

Lemma round_ratio_50_nearest br i N :
  (0 < N)%nat →
  let r := round_ratio_50 br i N in
  2 * Z.of_nat N * r - Z.of_nat N
    <= 100 * Z.of_nat i
    <= 2 * Z.of_nat N * r + Z.of_nat N.
Proof.
  intros HN. unfold round_ratio_50.
  set (n := 100 * Z.of_nat i). set (d := 2 * Z.of_nat N).
  assert (Hd : 0 < d) by (unfold d; lia).
  pose proof (Z.div_mod n d ltac:(lia)) as Hdiv.
  pose proof (Z.mod_pos_bound n d Hd) as Hmod.
  fold d. simpl.
  repeat case_match;
    repeat match goal with
           | H : (_ <? _) = true |- _ => apply Z.ltb_lt in H
           | H : (_ <? _) = false |- _ => apply Z.ltb_ge in H
           end; unfold d in *; nia.
Qed.

Lemma round_ratio_50_bounds br i N :
  (1 <= i <= N)%nat → 0 <= round_ratio_50 br i N <= 50.
Proof.
  intros Hi. pose proof (round_ratio_50_nearest br i N ltac:(lia)) as H.
  simpl in H. nia.
Qed.

Lemma round_ratio_50_mono br i j N :
  (0 < N)%nat → (i < j)%nat → round_ratio_50 br i N <= round_ratio_50 br j N.
Proof.
  intros HN Hij.
  pose proof (round_ratio_50_nearest br i N HN) as Hi.
  pose proof (round_ratio_50_nearest br j N HN) as Hj.
  simpl in *. nia.
Qed.

Lemma round_ratio_50_positive br i N :
  (0 < N)%nat → Z.of_nat N < 100 * Z.of_nat i → 0 < round_ratio_50 br i N.
Proof.
  intros HN Hi. pose proof (round_ratio_50_nearest br i N HN) as H.
  simpl in H. nia.
Qed.

Lemma page_percentages_three br : page_percentages br 3 = [47; 63; 80].
Proof.
  unfold page_percentages, page_percentage. simpl.
  pose proof (round_ratio_50_nearest br 1 3 ltac:(lia)) as H1.
  pose proof (round_ratio_50_nearest br 2 3 ltac:(lia)) as H2.
  pose proof (round_ratio_50_nearest br 3 3 ltac:(lia)) as H3.
  simpl in *.
  assert (round_ratio_50 br 1 3 = 17) as -> by lia.
  assert (round_ratio_50 br 2 3 = 33) as -> by lia.
  assert (round_ratio_50 br 3 3 = 50) as -> by lia.
  reflexivity.
Qed.

(** *** The page loop *)

Lemma progress_spec sink p step s :
  progress sink p step s
  = (Returned tt, add_events (if sink then [Progress p step] else []) s).
Proof.
  unfold progress, add_events, emit. js_unfold.
  destruct sink; simpl; [done|]. rewrite app_nil_r. by destruct s.
Qed.

Lemma render_page_spec br doc sink N k s :
  render_page br doc sink N k s
  = (page_result br doc k, add_events (page_events br sink N k) s).
Proof.
  unfold render_page. unfold Js.bind at 1. rewrite progress_spec.
  unfold page_result, page_events, add_events, dataUrlToUint8Array, emit,
    page_percentage.
  js_unfold. simpl. rewrite <- app_assoc.
  repeat case_match; simplify_eq/=; try done; try congruence.
Qed.

Lemma add_events_app evs1 evs2 s :
  add_events evs2 (add_events evs1 s) = add_events (evs1 ++ evs2) s.
Proof. unfold add_events. simpl. by rewrite app_assoc. Qed.

Lemma render_pages_spec br doc sink N rem : ∀ k acc s r s',
  render_pages br doc sink N rem k acc s = (r, s') →
  ∃ j, (j <= rem)%nat ∧
       s' = add_events (flat_map (page_events br sink N) (seq k j)) s ∧
       match r with
       | Returned out =>
           j = rem ∧ ∃ new, out = acc ++ new ∧ length new = rem ∧
                            pages_built br doc k new
       | Thrown e =>
           (0 < j)%nat ∧ page_result br doc (k + j - 1) = Thrown e
       end.
Proof.
  induction rem as [|rem IH]; intros k acc s r s' Hrun; simpl in Hrun.
  - unfold Js.ret in Hrun. injection Hrun as <- <-. exists 0%nat.
    split; [lia|]. split.
    + unfold add_events. simpl. rewrite app_nil_r. by destruct s.
    + split; [done|]. exists []. rewrite app_nil_r. repeat split. constructor.
  - unfold Js.bind in Hrun at 1. rewrite render_page_spec in Hrun.
    destruct (page_result br doc k) as [out|e] eqn:Hpage.
    + apply IH in Hrun as (j & Hj & -> & Hr).
      exists (S j). split; [lia|]. split.
      * rewrite add_events_app. simpl. done.
      * destruct r as [outs|e].
        -- destruct Hr as (-> & new & -> & Hlen & Hnew). split; [done|].
           exists (out :: new). rewrite <- app_assoc. simpl.
           repeat split; [by rewrite Hlen|]. constructor; done.
        -- destruct Hr as (Hpos & Hfail). split; [lia|].
           replace (k + S j - 1)%nat with (S k + j - 1)%nat by lia. done.
    + simplify_eq. exists 1%nat. split; [lia|]. split.
      * simpl. by rewrite app_nil_r.
      * split; [lia|]. replace (k + 1 - 1)%nat with k by lia. done.
Qed.

Lemma loadEncryptedPdf_spec lib data pw s :
  loadEncryptedPdf lib data pw s
  = (match opened lib data pw with
     | Returned doc => Returned doc
     | Thrown e =>
         Thrown (if is_password_failure buildPasswordError e
                 then buildPasswordError else e)
     end, add_events [GetDocument data pw] s).
Proof.
  unfold loadEncryptedPdf, opened, emit, add_events. js_unfold. simpl.
  repeat case_match; simplify_eq/=; done.
Qed.

Lemma password_error_has_message :
  bool_decide (e_message buildPasswordError <> EmptyString) = true.
Proof. reflexivity. Qed.

Lemma unlock_with_library_spec br lib data pw sink s r s' :
  unlock_with_library br lib data pw sink s = (r, s') →
  ∃ tr, library_run br lib data pw sink r tr ∧ s' = add_events tr s.
Proof.
  unfold unlock_with_library. unfold Js.bind at 1. rewrite progress_spec.
  unfold Js.bind at 1, Js.try_catch. rewrite loadEncryptedPdf_spec.
  rewrite add_events_app. fold (sink_event sink 30 "Decrypting PDF...").
  fold (opening_events data pw sink).
  destruct (opened lib data pw) as [doc|e] eqn:Hopen.
  - unfold Js.bind at 1, Js.await.
    destruct (PDFDocument_create br) as [[]|e] eqn:Hcreate.
    + unfold Js.bind at 1.
      destruct (render_pages _ _ _ _ _ _ _ _) as [rp sp] eqn:Hloop.
      apply render_pages_spec in Hloop as (j & Hj & -> & Hr).
      rewrite add_events_app.
      destruct rp as [pdfDoc|e].
      * destruct Hr as (-> & new & -> & Hlen & Hbuilt). simpl.
        unfold Js.bind at 1. rewrite progress_spec, add_events_app.
        unfold Js.bind at 1, Js.await.
        destruct (save br new) as [unlockedBytes|e] eqn:Hsave.
        -- unfold Js.bind at 1. rewrite progress_spec, add_events_app.
           unfold Js.ret. intros [= <- <-]. eexists; split.
           ++ eapply Complete; eauto.
           ++ by rewrite <- !app_assoc.
        -- intros [= <- <-]. eexists; split.
           ++ eapply SaveFailed; eauto.
           ++ by rewrite <- !app_assoc.
      * destruct Hr as (Hpos & Hfail). intros [= <- <-]. eexists; split.
        -- replace (1 + j - 1)%nat with j in Hfail by lia.
           eapply (PageFailed _ _ _ _ _ doc j); eauto.
        -- done.
    + intros [= <- <-]. eexists; split; [eapply CreateFailed; eauto|done].
  - intros Hrun. exists (opening_events data pw sink).
    assert (r = Thrown (open_failure e) ∧
            s' = add_events (opening_events data pw sink) s) as [-> ->].
    { unfold open_failure. destruct (is_password_failure buildPasswordError e).
      - rewrite password_error_has_message in Hrun. unfold Js.throw in Hrun.
        by injection Hrun as <- <-.
      - destruct (bool_decide (e_message e <> EmptyString)) eqn:Hmsg;
          unfold Js.throw in Hrun; injection Hrun as <- <-; [done|].
        apply bool_decide_eq_false in Hmsg. apply dec_stable in Hmsg.
        unfold or_else. rewrite Hmsg. done. }
    split; [by apply OpenFailed|done].
Qed.

(** *** The loader *)

Lemma loadPdfJs_trace br s r s' :
  loadPdfJs br s = (r, s') →
  ∃ srcs, trace s' = trace s ++ map AppendScript srcs.
Proof.
  unfold loadPdfJs, load_script, settle, emit. js_unfold. simpl.
  intros Hrun.
  repeat (case_match; simplify_eq/=);
    first [ by exists []; rewrite app_nil_r | by eexists [_] ].
Qed.

Lemma loadPdfJs_cached br l r s1 :
  loadPdfJs br {| loader := l; trace := [] |} = (r, s1) →
  ∀ br' tr,
    loadPdfJs br' {| loader := loader s1; trace := tr |}
    = (r, {| loader := loader s1; trace := tr |}).
Proof.
  unfold loadPdfJs, load_script, settle, emit. js_unfold. simpl.
  intros Hrun br' tr.
  repeat (case_match; simplify_eq/=); try done; try congruence.
Qed.

Lemma later_loads_cached brs : ∀ l r,
  (∀ br' tr, loadPdfJs br' {| loader := l; trace := tr |}
             = (r, {| loader := l; trace := tr |})) →
  later_loads brs l = (map (fun _ => r) brs, l).
Proof.
  induction brs as [|br brs IH]; intros l r Hfix; simpl; [done|].
  rewrite Hfix. simpl. rewrite (IH l r Hfix). done.
Qed.

(** *** A whole call *)

Lemma unlockPdfInBrowser_cases br l file pw sink r s :
  unlockPdfInBrowser br l file pw sink = (r, s) →
  (∃ e, arrayBuffer file = Thrown e ∧ r = Thrown e ∧
        s = {| loader := l; trace := [] |})
  ∨ (∃ data e, arrayBuffer file = Returned data ∧
               loadPdfJs br {| loader := l; trace := [] |} = (Thrown e, s) ∧
               r = Thrown e)
  ∨ (∃ data lib s0 tr,
       arrayBuffer file = Returned data ∧
       loadPdfJs br {| loader := l; trace := [] |} = (Returned lib, s0) ∧
       library_run br lib data pw sink r tr ∧ s = add_events tr s0).
Proof.
  unfold unlockPdfInBrowser, unlock_body. unfold Js.bind at 1, Js.await.
  destruct (arrayBuffer file) as [data|e] eqn:Hread.
  - unfold Js.bind at 1.
    destruct (loadPdfJs br _) as [[lib|e] s0] eqn:Hload.
    + intros Hrun. apply unlock_with_library_spec in Hrun as (tr & Hrun & ->).
      right; right. eauto 10.
    + intros [= <- <-]. right; left. eauto.
  - intros [= <- <-]. left. eauto.
Qed.

(** *** Reading traces *)

Lemma percentages_app tr1 tr2 :
  percentages (tr1 ++ tr2) = percentages tr1 ++ percentages tr2.
Proof. apply flat_map_app. Qed.

Lemma pages_fetched_app tr1 tr2 :
  pages_fetched (tr1 ++ tr2) = pages_fetched tr1 ++ pages_fetched tr2.
Proof. apply flat_map_app. Qed.

Lemma scripts_appended_app tr1 tr2 :
  scripts_appended (tr1 ++ tr2) = scripts_appended tr1 ++ scripts_appended tr2.
Proof. apply flat_map_app. Qed.

Lemma percentages_scripts srcs : percentages (map AppendScript srcs) = [].
Proof. induction srcs; simpl; auto. Qed.

Lemma pages_fetched_scripts srcs : pages_fetched (map AppendScript srcs) = [].
Proof. induction srcs; simpl; auto. Qed.

Lemma percentages_pages br N l :
  percentages (flat_map (page_events br true N) l) = map (page_percentage br N) l.
Proof. induction l as [|i l IH]; simpl; [done|]. by rewrite IH. Qed.

Lemma pages_fetched_pages br sink N l :
  pages_fetched (flat_map (page_events br sink N) l) = l.
Proof.
  induction l as [|i l IH]; simpl; [done|].
  rewrite pages_fetched_app, IH. by destruct sink.
Qed.

Lemma pages_fetched_sink sink p step :
  pages_fetched (sink_event sink p step) = [].
Proof. by destruct sink. Qed.

Lemma scripts_appended_sink sink p step :
  scripts_appended (sink_event sink p step) = [].
Proof. by destruct sink. Qed.

Lemma scripts_appended_pages br sink N l :
  scripts_appended (flat_map (page_events br sink N) l) = [].
Proof.
  induction l as [|i l IH]; simpl; [done|].
  rewrite scripts_appended_app, IH. by destruct sink.
Qed.

Lemma library_run_no_script br lib data pw sink r tr :
  library_run br lib data pw sink r tr → scripts_appended tr = [].
Proof.
  destruct 1; unfold opening_events, pages_events;
    rewrite ?scripts_appended_app, ?scripts_appended_sink,
      ?scripts_appended_pages; done.
Qed.

Lemma decoder_calls_app tr1 tr2 :
  decoder_calls (tr1 ++ tr2) = decoder_calls tr1 ++ decoder_calls tr2.
Proof. apply flat_map_app. Qed.

Lemma decoder_calls_scripts srcs : decoder_calls (map AppendScript srcs) = [].
Proof. induction srcs; simpl; auto. Qed.

Lemma decoder_calls_sink sink p step :
  decoder_calls (sink_event sink p step) = [].
Proof. by destruct sink. Qed.

Lemma decoder_calls_pages br sink N l :
  decoder_calls (flat_map (page_events br sink N) l) = [].
Proof.
  induction l as [|i l IH]; simpl; [done|].
  rewrite decoder_calls_app, IH. by destruct sink.
Qed.

Lemma library_run_decodes br lib data pw sink r tr :
  library_run br lib data pw sink r tr → decoder_calls tr = [(data, pw)].
Proof.
  destruct 1; unfold opening_events, pages_events;
    rewrite ?decoder_calls_app, ?decoder_calls_sink, ?decoder_calls_pages;
    done.
Qed.

(** The browser strategy checks nothing before it decodes: once the file
    is read and the library is there, the decoder is called, once, with the
    bytes and the password as they came. *)
Lemma client_always_decodes br l file pw sink data lib s0 :
  arrayBuffer file = Returned data →
  loadPdfJs br {| loader := l; trace := [] |} = (Returned lib, s0) →
  decoder_calls (trace (snd (unlockPdfInBrowser br l file pw sink)))
  = [(data, pw)].
Proof.
  intros Hread Hload.
  destruct (unlockPdfInBrowser br l file pw sink) as [r s] eqn:Hrun.
  apply unlockPdfInBrowser_cases in Hrun
    as [(e' & ? & _)|[(data' & e' & ? & ? & _)|
        (data' & lib' & s0' & tr & Hread' & Hload' & Hrun & ->)]];
    try congruence.
  rewrite Hread in Hread'. injection Hread' as <-.
  rewrite Hload in Hload'. injection Hload' as <- <-.
  apply loadPdfJs_trace in Hload as (srcs & Htr). simpl in *.
  rewrite Htr, decoder_calls_app, decoder_calls_scripts. simpl.
  by eapply library_run_decodes.
Qed.

(** *** Non-decreasing lists *)

Lemma non_decreasing_app_l l1 l2 :
  non_decreasing (l1 ++ l2) → non_decreasing l1.
Proof.
  induction l1 as [|x l1 IH]; [done|].
  destruct l1 as [|y l1]; [done|]. simpl. intros [Hxy Hrest]. split; [done|].
  apply IH. done.
Qed.

Lemma non_decreasing_chain (f : nat → Z) (hi : Z) (tail : list Z) :
  non_decreasing (hi :: tail) →
  ∀ j k lo,
    lo <= hi →
    (∀ i, (k <= i < k + j)%nat → lo <= f i <= hi) →
    (∀ i i', (k <= i)%nat → (i < i')%nat → (i' < k + j)%nat → f i <= f i') →
    non_decreasing (lo :: map f (seq k j) ++ tail).
Proof.
  intros Htail. induction j as [|j IH]; intros k lo Hlo Hin Hmono.
  - simpl. destruct tail as [|y tail]; [done|]. simpl in Htail. split; [lia|].
    apply Htail.
  - change (non_decreasing (lo :: f k :: map f (seq (S k) j) ++ tail)).
    split; [apply Hin; lia|].
    apply IH.
    + apply Hin. lia.
    + intros i Hi. split; [|apply Hin; lia].
      apply Hmono; lia.
    + intros i i' ???. apply Hmono; lia.
Qed.

Lemma page_percentage_bounds br N i :
  (1 <= i <= N)%nat → 30 <= page_percentage br N i <= 80.
Proof.
  intros Hi. unfold page_percentage.
  pose proof (round_ratio_50_bounds br i N Hi). lia.
Qed.

Lemma full_percentages_non_decreasing br N :
  non_decreasing (full_percentages br N).
Proof.
  unfold full_percentages, page_percentages.
  apply (non_decreasing_chain _ 90); simpl; try lia.
  - intros i Hi. pose proof (page_percentage_bounds br N i ltac:(lia)). lia.
  - intros i i' ???. unfold page_percentage.
    pose proof (round_ratio_50_mono br i i' N ltac:(lia) ltac:(lia)). lia.
Qed.

(** *** Progress of a whole call *)

Lemma percentages_opening data pw :
  percentages (opening_events data pw true) = [30].
Proof. reflexivity. Qed.

Lemma percentages_of_run br l file pw r s :
  unlockPdfInBrowser br l file pw true = (r, s) →
  ∃ N rest,
    full_percentages br N = percentages (trace s) ++ rest ∧
    (is_returned r = true ↔ rest = []).
Proof.
  intros Hrun.
  apply unlockPdfInBrowser_cases in Hrun
    as [(e & _ & -> & ->)|[(data & e & _ & Hload & ->)|
        (data & lib & s0 & tr & _ & Hload & Hrun & ->)]].
  - exists 0%nat, (full_percentages br 0). simpl. split; [done|]. split; done.
  - apply loadPdfJs_trace in Hload as (srcs & ->). simpl.
    rewrite percentages_scripts.
    exists 0%nat, (full_percentages br 0). split; [done|]. split; done.
  - apply loadPdfJs_trace in Hload as (srcs & Htr). simpl in *.
    rewrite Htr, percentages_app, percentages_scripts. simpl.
    destruct Hrun as [e _|doc e _ _|doc j e _ _ Hj _|doc pdfDoc e _ _ _ _ _|
                      doc pdfDoc unlockedBytes _ _ _ _ _];
      unfold pages_events;
      rewrite ?percentages_app, ?percentages_pages, ?percentages_opening; simpl.
    + exists 0%nat, [90; 100]. split; [done|]. split; done.
    + exists 0%nat, [90; 100]. split; [done|]. split; done.
    + exists (numPages doc),
        (map (page_percentage br (numPages doc))
             (seq (1 + j) (numPages doc - j)) ++ [90; 100]).
      split.
      * unfold full_percentages, page_percentages.
        replace (numPages doc) with (j + (numPages doc - j))%nat at 2 by lia.
        rewrite seq_app, map_app, <- app_assoc. done.
      * split; [done|]. intros Hnil. by apply app_eq_nil in Hnil as [_ ?].
    + exists (numPages doc), [100]. split.
      * unfold full_percentages, page_percentages. simpl.
        by rewrite <- ?app_assoc.
      * split; done.
    + exists (numPages doc), []. split.
      * unfold full_percentages, page_percentages. rewrite app_nil_r. simpl.
        by rewrite <- ?app_assoc.
      * split; done.
Qed.

Lemma full_percentages_front br N :
  full_percentages br N = (30 :: page_percentages br N ++ [90]) ++ [100]
  ∧ Forall (fun x => x <= 90) (30 :: page_percentages br N ++ [90]).
Proof.
  split.
  - unfold full_percentages. simpl. rewrite <- app_assoc. done.
  - constructor; [lia|]. apply Forall_app. split; [|repeat constructor; lia].
    unfold page_percentages. apply Forall_forall. intros x Hx.
    apply list_elem_of_fmap in Hx as (i & -> & Hi).
    apply elem_of_seq in Hi.
    pose proof (page_percentage_bounds br N i ltac:(lia)). lia.
Qed.

(** C6. In a call with a progress sink the percentages received never go
    down, and the last one is 100 exactly when the call returns the
    unlocked document. *)
Theorem client_progress_monotone br l file pw :
  let run := unlockPdfInBrowser br l file pw true in
  non_decreasing (percentages (trace (snd run))) ∧
  (last (percentages (trace (snd run))) = Some 100
   ↔ is_returned (fst run) = true).
Proof.
  intros run. destruct run as [r s] eqn:Hrun. subst run. simpl.
  apply percentages_of_run in Hrun as (N & rest & Hfull & Hok).
  split.
  - apply (non_decreasing_app_l _ rest). rewrite <- Hfull.
    apply full_percentages_non_decreasing.
  - rewrite Hok. destruct (full_percentages_front br N) as [Hsplit Hfront].
    rewrite Hsplit in Hfull. split.
    + intros Hlast. destruct rest as [|y rest' _] using rev_ind; [done|].
      exfalso. rewrite app_assoc in Hfull.
      apply app_inj_tail in Hfull as [Hfront_eq _].
      rewrite Hfront_eq in Hfront. apply Forall_app in Hfront as [Hle _].
      apply last_Some in Hlast as (l' & Hl'). rewrite Hl' in Hle.
      apply Forall_app in Hle as [_ Hle]. inversion Hle; subst. lia.
    + intros ->. rewrite app_nil_r in Hfull. rewrite <- Hfull.
      apply last_snoc.
Qed.

(** *** Successful calls *)

Lemma success_inversion br l file pw sink blob s :
  unlockPdfInBrowser br l file pw sink = (Returned blob, s) →
  ∃ data lib s0 doc pdfDoc,
    arrayBuffer file = Returned data ∧
    loadPdfJs br {| loader := l; trace := [] |} = (Returned lib, s0) ∧
    opened lib data pw = Returned doc ∧
    length pdfDoc = numPages doc ∧
    pages_built br doc 1 pdfDoc ∧
    save br pdfDoc = Returned (blob_parts blob) ∧
    s = add_events
          (opening_events data pw sink
           ++ pages_events br sink (numPages doc) (numPages doc)
           ++ sink_event sink 90 "Preparing unlocked PDF..."
           ++ sink_event sink 100 "Complete!") s0.
Proof.
  intros Hrun.
  apply unlockPdfInBrowser_cases in Hrun
    as [(e & _ & ? & _)|[(data & e & _ & _ & ?)|
        (data & lib & s0 & tr & Hread & Hload & Hrun & ->)]]; try done.
  inversion Hrun; subst. simpl. eauto 15.
Qed.

Lemma page_result_size br doc i out :
  page_result br doc i = Returned out →
  ∃ page, getPage doc i = Returned page ∧
          page_size out
          = (width (getViewport page 2), height (getViewport page 2)).
Proof.
  unfold page_result. intros H.
  repeat (case_match; simplify_eq/=). eauto.
Qed.

(** C5. A call that succeeds on a document of N pages asked the decoder for
    the pages 1, 2, ..., N in this order, once each; the output document
    has N pages; and output page i is the page rebuilt from source page i,
    its size the width and height of that page's viewport at scale 2. *)
Theorem client_rebuilds_every_page br l file pw sink blob s :
  unlockPdfInBrowser br l file pw sink = (Returned blob, s) →
  ∃ data lib s0 doc pdfDoc,
    arrayBuffer file = Returned data ∧
    loadPdfJs br {| loader := l; trace := [] |} = (Returned lib, s0) ∧
    opened lib data pw = Returned doc ∧
    save br pdfDoc = Returned (blob_parts blob) ∧
    length pdfDoc = numPages doc ∧
    pages_fetched (trace s) = seq 1 (numPages doc) ∧
    ∀ i, (1 <= i <= numPages doc)%nat →
      ∃ page out,
        getPage doc i = Returned page ∧
        pdfDoc !! (i - 1)%nat = Some out ∧
        page_result br doc i = Returned out ∧
        page_size out
        = (width (getViewport page 2), height (getViewport page 2)).
Proof.
  intros Hrun.
  apply success_inversion in Hrun
    as (data & lib & s0 & doc & pdfDoc & Hread & Hload & Hopen & Hlen &
        Hbuilt & Hsave & ->).
  exists data, lib, s0, doc, pdfDoc. repeat (split; [done|]). split.
  - apply loadPdfJs_trace in Hload as (srcs & Htr). simpl in *.
    rewrite Htr. unfold opening_events, pages_events.
    rewrite !pages_fetched_app, pages_fetched_scripts, !pages_fetched_sink,
      pages_fetched_pages. simpl. by rewrite app_nil_r.
  - intros i Hi. unfold pages_built in Hbuilt. rewrite Hlen in Hbuilt.
    assert (Hseq : seq 1 (numPages doc) !! (i - 1)%nat = Some i).
    { rewrite lookup_seq_lt by lia. f_equal. lia. }
    destruct (Forall2_lookup_l _ _ _ _ _ Hbuilt Hseq) as (out & Hout & Hpage).
    destruct (page_result_size _ _ _ _ Hpage) as (page & Hget & Hsize).
    eauto 10.
Qed.

(** *** Failures of the decoder *)



(** *** Failures of a page *)



(** *** Per-page progress *)

(** C9 (amended). A call that succeeds on a document of N pages with a
    progress sink has received 30, then one percentage per page in page
    order, then 90 and 100. The percentage of page i is
    30 + Math.round((i / N) * 50), an integer nearest to 30 + 50 i / N; it
    lies between 30 and 80 inclusive, and above 30 as soon as 100 i > N. For
    three pages the sequence is 30, 47, 63, 80, 90, 100. *)
Theorem client_page_progress br l file pw blob s :
  unlockPdfInBrowser br l file pw true = (Returned blob, s) →
  ∃ data lib s0 doc,
    arrayBuffer file = Returned data ∧
    loadPdfJs br {| loader := l; trace := [] |} = (Returned lib, s0) ∧
    opened lib data pw = Returned doc ∧
    let N := numPages doc in
    percentages (trace s) = 30 :: page_percentages br N ++ [90; 100] ∧
    length (page_percentages br N) = N ∧
    (∀ i, (1 <= i <= N)%nat →
       page_percentages br N !! (i - 1)%nat = Some (page_percentage br N i) ∧
       page_percentage br N i = 30 + round_ratio_50 br i N ∧
       2 * Z.of_nat N * round_ratio_50 br i N - Z.of_nat N
         <= 100 * Z.of_nat i
         <= 2 * Z.of_nat N * round_ratio_50 br i N + Z.of_nat N ∧
       30 <= page_percentage br N i <= 80 ∧
       (Z.of_nat N < 100 * Z.of_nat i → 30 < page_percentage br N i)) ∧
    (N = 3%nat → percentages (trace s) = [30; 47; 63; 80; 90; 100]).
Proof.
  intros Hrun.
  apply success_inversion in Hrun
    as (data & lib & s0 & doc & pdfDoc & Hread & Hload & Hopen & Hlen &
        Hbuilt & Hsave & ->).
  exists data, lib, s0, doc. repeat (split; [done|]).
  assert (Hpct : percentages
            (trace (add_events
               (opening_events data pw true
                ++ pages_events br true (numPages doc) (numPages doc)
                ++ sink_event true 90 "Preparing unlocked PDF..."
                ++ sink_event true 100 "Complete!") s0))
          = 30 :: page_percentages br (numPages doc) ++ [90; 100]).
  { apply loadPdfJs_trace in Hload as (srcs & Htr). simpl in Htr.
    unfold add_events, pages_events. cbn [trace]. rewrite Htr.
    rewrite !percentages_app, percentages_scripts, percentages_pages,
      percentages_opening. done. }
  simpl. split; [done|]. split; [|split].
  - unfold page_percentages. by rewrite length_map, length_seq.
  - intros i Hi. split; [|split; [done|split; [|split]]].
    + unfold page_percentages. rewrite list_lookup_fmap, lookup_seq_lt by lia.
      simpl. do 2 f_equal. lia.
    + apply (round_ratio_50_nearest br i (numPages doc)). lia.
    + by apply page_percentage_bounds.
    + intros Hbig. unfold page_percentage.
      pose proof (round_ratio_50_positive br i (numPages doc) ltac:(lia) Hbig).
      lia.
  - intros H3. simpl in Hpct. rewrite Hpct, H3, page_percentages_three. done.
Qed.

(** *** The loader cache *)

(** C10. Whatever the first call of [loadPdfJs] settles to, every later
    call settles to the same, in any browser conditions, without touching
    the loader state; a later [unlockPdfInBrowser] leaves the loader state
    alone, appends no script, fails with the cached error when the first
    load failed, and otherwise goes on with the cached library. *)
Theorem loader_caches_first_attempt br l r s1 :
  loadPdfJs br {| loader := l; trace := [] |} = (r, s1) →
  (∀ brs, later_loads brs (loader s1) = (map (fun _ => r) brs, loader s1)) ∧
  (∀ br' file pw sink,
     let run := unlockPdfInBrowser br' (loader s1) file pw sink in
     loader (snd run) = loader s1 ∧
     scripts_appended (trace (snd run)) = [] ∧
     ∀ data, arrayBuffer file = Returned data →
       match r with
       | Thrown e => fst run = Thrown e
       | Returned lib =>
           run = unlock_with_library br' lib data pw sink
                   {| loader := loader s1; trace := [] |}
       end).
Proof.
  intros Hfirst. pose proof (loadPdfJs_cached _ _ _ _ Hfirst) as Hfix.
  split; [intros brs; by apply later_loads_cached|].
  intros br' file pw sink run.
  pose (start := {| loader := loader s1; trace := [] |}).
  assert (Hrun : run = match arrayBuffer file with
                       | Thrown e => (Thrown e, start)
                       | Returned data =>
                           match r with
                           | Thrown e => (Thrown e, start)
                           | Returned lib =>
                               unlock_with_library br' lib data pw sink start
                           end
                       end).
  { subst run. unfold unlockPdfInBrowser, unlock_body.
    unfold Js.bind at 1, Js.await. destruct (arrayBuffer file); [|done].
    unfold Js.bind at 1. rewrite Hfix. by destruct r. }
  subst start.
  destruct (arrayBuffer file) as [data|e] eqn:Hread.
  - destruct r as [lib|e].
    + destruct (unlock_with_library br' lib data pw sink
                  {| loader := loader s1; trace := [] |}) as [r' s'] eqn:Hlib.
      rewrite Hrun. pose proof Hlib as Hlib'.
      apply unlock_with_library_spec in Hlib' as (tr & Htr & ->).
      simpl. split; [done|]. split; [by eapply library_run_no_script|].
      intros ? [= <-]. done.
    + rewrite Hrun. simpl. split; [done|]. split; [done|]. intros ? _. done.
  - rewrite Hrun. simpl. split; [done|]. split; [done|]. intros ? [=].
Qed.
(** *** The first page that fails *)

Lemma render_pages_stops br doc sink N : ∀ rem k acc s j e,
  (k <= j < k + rem)%nat →
  (∀ i, (k <= i < j)%nat → is_returned (page_result br doc i) = true) →
  page_result br doc j = Thrown e →
  render_pages br doc sink N rem k acc s
  = (Thrown e,
     add_events (flat_map (page_events br sink N) (seq k (S j - k))) s).
Proof.
  induction rem as [|rem IH]; intros k acc s j e Hj Hbefore Hfail; [lia|].
  simpl. unfold Js.bind at 1. rewrite render_page_spec.
  destruct (decide (k = j)) as [->|Hne].
  - rewrite Hfail. replace (S j - j)%nat with 1%nat by lia. simpl.
    by rewrite app_nil_r.
  - pose proof (Hbefore k ltac:(lia)) as Hk.
    destruct (page_result br doc k) as [out|] eqn:Hpage; [|done].
    rewrite (IH (S k) _ _ j e) by (try done; try lia; intros; apply Hbefore; lia).
    rewrite add_events_app.
    replace (S j - k)%nat with (S (S j - S k)) by lia. done.
Qed.

Lemma percentages_silent_pages br N l :
  percentages (flat_map (page_events br false N) l) = [].
Proof. induction l as [|i l IH]; simpl; auto. Qed.

(** X5. When a page step fails, the call throws the error of the first
    page that failed, as it is: no page after it is asked from the
    decoder, the error is not turned into the password error even if it
    is a password exception, and the progress stops at that page's
    percentage: neither 90 nor 100 is reported. *)
Theorem client_first_failing_page br l file pw sink data lib s0 doc j e :
  arrayBuffer file = Returned data →
  loadPdfJs br {| loader := l; trace := [] |} = (Returned lib, s0) →
  opened lib data pw = Returned doc →
  PDFDocument_create br = Returned tt →
  (1 <= j <= numPages doc)%nat →
  (∀ i, (1 <= i < j)%nat → is_returned (page_result br doc i) = true) →
  page_result br doc j = Thrown e →
  let run := unlockPdfInBrowser br l file pw sink in
  fst run = Thrown e ∧
  pages_fetched (trace (snd run)) = seq 1 j ∧
  percentages (trace (snd run))
  = if sink then 30 :: map (page_percentage br (numPages doc)) (seq 1 j)
    else [].
Proof.
  intros Hread Hload Hopen Hcreate Hj Hbefore Hfail run.
  assert (Hrun : run
    = (Thrown e,
       add_events
         (opening_events data pw sink
          ++ pages_events br sink (numPages doc) j) s0)).
  { subst run. unfold unlockPdfInBrowser, unlock_body.
    unfold Js.bind at 1, Js.await. rewrite Hread.
    unfold Js.bind at 1. rewrite Hload.
    unfold unlock_with_library. unfold Js.bind at 1. rewrite progress_spec.
    unfold Js.bind at 1, Js.try_catch. rewrite loadEncryptedPdf_spec, Hopen.
    unfold Js.bind at 1, Js.await. rewrite Hcreate.
    unfold Js.bind at 1.
    rewrite (render_pages_stops br doc sink _ _ _ _ _ j e) by (done || lia).
    rewrite !add_events_app. replace (S j - 1)%nat with j by lia.
    unfold opening_events, sink_event, pages_events.
    by rewrite <- ?app_assoc. }
  rewrite Hrun. apply loadPdfJs_trace in Hload as (srcs & Htr). simpl in *.
  rewrite Htr. split; [done|]. split.
  - unfold opening_events, pages_events.
    rewrite !pages_fetched_app, pages_fetched_scripts, pages_fetched_sink,
      pages_fetched_pages. done.
  - unfold pages_events.
    rewrite !percentages_app, percentages_scripts. destruct sink.
    + by rewrite percentages_opening, percentages_pages.
    + by rewrite percentages_silent_pages.
Qed.

(** *** The progress sink *)

Lemma silent_app tr1 tr2 : silent (tr1 ++ tr2) = silent tr1 ++ silent tr2.
Proof. apply List.filter_app. Qed.

Lemma silent_sink p step : silent (sink_event true p step) = sink_event false p step.
Proof. reflexivity. Qed.

Lemma silent_pages br N l :
  silent (flat_map (page_events br true N) l)
  = flat_map (page_events br false N) l.
Proof. induction l as [|i l IH]; simpl; [done|]. by rewrite IH. Qed.

Lemma silent_scripts srcs : silent (map AppendScript srcs) = map AppendScript srcs.
Proof. induction srcs as [|src srcs IH]; simpl; [done|]. by rewrite IH. Qed.

Lemma render_pages_any_sink br doc N rem : ∀ k acc,
  ∃ r j, ∀ sink s,
    render_pages br doc sink N rem k acc s
    = (r, add_events (flat_map (page_events br sink N) (seq k j)) s).
Proof.
  induction rem as [|rem IH]; intros k acc.
  - exists (Returned acc), 0%nat. intros sink s. simpl.
    unfold Js.ret, add_events. simpl. rewrite app_nil_r. by destruct s.
  - destruct (page_result br doc k) as [out|e] eqn:Hpage.
    + destruct (IH (S k) (acc ++ [out])) as (r & j & Hrun).
      exists r, (S j). intros sink s. simpl. unfold Js.bind at 1.
      rewrite render_page_spec, Hpage, Hrun, add_events_app. done.
    + exists (Thrown e), 1%nat. intros sink s. simpl. unfold Js.bind at 1.
      rewrite render_page_spec, Hpage. simpl. by rewrite app_nil_r.
Qed.

Lemma unlock_with_library_any_sink br lib data pw :
  ∃ r (evs : bool → list cevent),
    (∀ sink s,
       unlock_with_library br lib data pw sink s
       = (r, add_events (evs sink) s)) ∧
    silent (evs true) = evs false.
Proof.
  assert (Hstart : ∀ sink s,
    unlock_with_library br lib data pw sink s
    = match opened lib data pw with
      | Thrown e =>
          (Thrown (open_failure e), add_events (opening_events data pw sink) s)
      | Returned doc =>
          match PDFDocument_create br with
          | Thrown e => (Thrown e, add_events (opening_events data pw sink) s)
          | Returned _ =>
              (let* pdfDoc :=
                 render_pages br doc sink (numPages doc) (numPages doc) 1%nat
                   [] in
               progress sink 90 "Preparing unlocked PDF...";;;
               let* unlockedBytes := Js.await (save br pdfDoc) in
               progress sink 100 "Complete!";;;
               Js.ret {| blob_parts := unlockedBytes;
                         blob_type := "application/pdf" |})
                (add_events (opening_events data pw sink) s)
          end
      end).
  { intros sink s. unfold unlock_with_library. unfold Js.bind at 1.
    rewrite progress_spec. unfold Js.bind at 1, Js.try_catch.
    rewrite loadEncryptedPdf_spec, add_events_app.
    fold (sink_event sink 30 "Decrypting PDF...").
    fold (opening_events data pw sink).
    destruct (opened lib data pw) as [doc|e].
    - unfold Js.bind at 1, Js.await. by destruct (PDFDocument_create br) as [[]|].
    - unfold open_failure.
      destruct (is_password_failure buildPasswordError e).
      + by rewrite password_error_has_message.
      + destruct (bool_decide (e_message e <> EmptyString)) eqn:Hmsg; [done|].
        apply bool_decide_eq_false in Hmsg. apply dec_stable in Hmsg.
        unfold or_else. by rewrite Hmsg. }
  assert (Hopening : silent (opening_events data pw true)
                     = opening_events data pw false) by reflexivity.
  destruct (opened lib data pw) as [doc|e].
  - destruct (PDFDocument_create br) as [[]|e].
    + destruct (render_pages_any_sink br doc (numPages doc) (numPages doc)
                  1%nat []) as (rp & j & Hloop).
      destruct rp as [pdfDoc|e].
      * destruct (save br pdfDoc) as [unlockedBytes|e] eqn:Hsave.
        -- exists (Returned {| blob_parts := unlockedBytes;
                               blob_type := "application/pdf" |}),
             (fun sink =>
                opening_events data pw sink
                ++ flat_map (page_events br sink (numPages doc)) (seq 1 j)
                ++ sink_event sink 90 "Preparing unlocked PDF..."
                ++ sink_event sink 100 "Complete!").
           split.
           ++ intros sink s. rewrite Hstart. unfold Js.bind at 1.
              rewrite Hloop. unfold Js.bind at 1. rewrite progress_spec.
              unfold Js.bind at 1, Js.await. rewrite Hsave.
              unfold Js.bind at 1. rewrite progress_spec. unfold Js.ret.
              rewrite !add_events_app. unfold sink_event.
              by rewrite <- ?app_assoc.
           ++ by rewrite !silent_app, Hopening, silent_pages.
        -- exists (Thrown e),
             (fun sink =>
                opening_events data pw sink
                ++ flat_map (page_events br sink (numPages doc)) (seq 1 j)
                ++ sink_event sink 90 "Preparing unlocked PDF...").
           split.
           ++ intros sink s. rewrite Hstart. unfold Js.bind at 1.
              rewrite Hloop. unfold Js.bind at 1. rewrite progress_spec.
              unfold Js.bind at 1, Js.await. rewrite Hsave.
              rewrite !add_events_app. unfold sink_event.
              by rewrite <- ?app_assoc.
           ++ by rewrite !silent_app, Hopening, silent_pages.
      * exists (Thrown e),
          (fun sink =>
             opening_events data pw sink
             ++ flat_map (page_events br sink (numPages doc)) (seq 1 j)).
        split.
        -- intros sink s. rewrite Hstart. unfold Js.bind at 1.
           rewrite Hloop. by rewrite !add_events_app.
        -- by rewrite !silent_app, Hopening, silent_pages.
    + exists (Thrown e), (opening_events data pw). split; [|done].
      intros sink s. by rewrite Hstart.
  - exists (Thrown (open_failure e)), (opening_events data pw).
    split; [|done]. intros sink s. by rewrite Hstart.
Qed.

Lemma unlockPdfInBrowser_steps br l file pw sink :
  unlockPdfInBrowser br l file pw sink
  = match arrayBuffer file with
    | Thrown e => (Thrown e, {| loader := l; trace := [] |})
    | Returned data =>
        match loadPdfJs br {| loader := l; trace := [] |} with
        | (Returned lib, s0) => unlock_with_library br lib data pw sink s0
        | (Thrown e, s0) => (Thrown e, s0)
        end
    end.
Proof.
  unfold unlockPdfInBrowser, unlock_body.
  unfold Js.bind at 1, Js.await. destruct (arrayBuffer file); [|done].
  unfold Js.bind at 1. by destruct (loadPdfJs br _) as [[]].
Qed.

(** X6. The progress sink only watches: with or without it the call ends
    in the same way (the same blob or the same error), leaves the same
    loader state, and does the same things in the same order; the trace
    without a sink is the trace with one, less its progress events. *)
Theorem client_progress_sink_only_observes br l file pw :
  let watched := unlockPdfInBrowser br l file pw true in
  let unwatched := unlockPdfInBrowser br l file pw false in
  fst unwatched = fst watched ∧
  loader (snd unwatched) = loader (snd watched) ∧
  trace (snd unwatched) = silent (trace (snd watched)).
Proof.
  intros watched unwatched. subst watched unwatched.
  rewrite !unlockPdfInBrowser_steps. destruct (arrayBuffer file) as [data|e]; [|done].
  destruct (loadPdfJs br _) as [[lib|e] s0] eqn:Hload.
  - destruct (unlock_with_library_any_sink br lib data pw)
      as (r & evs & Hrun & Hsilent).
    rewrite !Hrun.
    apply loadPdfJs_trace in Hload as (srcs & Htr). simpl in Htr.
    unfold add_events. cbn [fst snd loader trace].
    split; [done|]. split; [done|].
    by rewrite Htr, !silent_app, silent_scripts, Hsilent.
  - apply loadPdfJs_trace in Hload as (srcs & Htr). simpl in Htr.
    cbn [fst snd]. split; [done|]. split; [done|].
    by rewrite Htr, silent_scripts.
Qed.

(** *** Failures before the decoder *)

(** X7. A file that cannot be read, or a PDF.js library that cannot be
    loaded, ends the call with that error before anything else happens:
    the decoder is not called, no page is asked for and no progress is
    reported, not even the first 30; for an unreadable file the library
    is not even loaded. *)
Theorem client_fails_before_decoder br l file pw sink e :
  arrayBuffer file = Thrown e
  ∨ (is_returned (arrayBuffer file) = true ∧
     fst (loadPdfJs br {| loader := l; trace := [] |}) = Thrown e) →
  let run := unlockPdfInBrowser br l file pw sink in
  fst run = Thrown e ∧
  decoder_calls (trace (snd run)) = [] ∧
  pages_fetched (trace (snd run)) = [] ∧
  percentages (trace (snd run)) = [] ∧
  (arrayBuffer file = Thrown e → snd run = {| loader := l; trace := [] |}).
Proof.
  intros Hfail run. subst run. rewrite unlockPdfInBrowser_steps.
  destruct Hfail as [Hread|[Hread Hload]].
  - rewrite Hread. done.
  - destruct (arrayBuffer file) as [data|]; [|done].
    destruct (loadPdfJs br _) as [[lib|e'] s0] eqn:Hrun; simpl in Hload;
      [done|]. injection Hload as ->.
    apply loadPdfJs_trace in Hrun as (srcs & Htr). simpl in Htr.
    cbn [fst snd]. rewrite Htr, decoder_calls_scripts, pages_fetched_scripts,
      percentages_scripts. done.
Qed.

End ClientProperties.

(** *** The browser strategy on the sample inputs *)

Section ClientSamples.
Import Client Samples.

Example three_pages_unlock :
  let run :=
    unlockPdfInBrowser (browser 3 "secret") fresh_loader pdf_file "secret" true in
  is_returned (fst run) = true
  ∧ percentages (trace (snd run)) = [30; 47; 63; 80; 90; 100]
  ∧ pages_fetched (trace (snd run)) = [1; 2; 3]%nat.
Proof. repeat split; vm_compute; reflexivity. Qed.

(** C2, as stated, fails on the browser strategy: it validates nothing, so
    an empty document with an empty password reaches the decoder, and the
    error is the decoder's. *)
Lemma client_decodes_unvalidated_input :
  let run :=
    unlockPdfInBrowser (browser 3 "secret") fresh_loader empty_file
      EmptyString true in
  decoder_calls (trace (snd run)) = [([], EmptyString)]
  ∧ fst run = Thrown invalid_pdf.
Proof. split; vm_compute; reflexivity. Qed.

(** C9, as stated, fails: in a document of 101 pages the event of page 1
    carries 30, which is not strictly between 30 and 90. *)
Lemma first_of_101_pages_reports_30 :
  let run :=
    unlockPdfInBrowser (browser 101 "secret") fresh_loader pdf_file
      "secret" true in
  is_returned (fst run) = true
  ∧ trace (snd run) !! 3%nat = Some (Progress 30 "Rendering page 1 of 101...")
  ∧ page_percentage (browser 101 "secret") 101 1 = 30.
Proof. repeat split; vm_compute; reflexivity. Qed.

Lemma client_progress_monotone_witness :
  let run :=
    unlockPdfInBrowser (browser_without_canvas 3 "secret") fresh_loader
      pdf_file "secret" true in
  non_decreasing (percentages (trace (snd run))) ∧
  (last (percentages (trace (snd run))) = Some 100
   ↔ is_returned (fst run) = true).
Proof.
  exact (client_progress_monotone (browser_without_canvas 3 "secret")
           fresh_loader pdf_file "secret").
Defined.

Lemma client_rebuilds_every_page_witness :
  ∃ blob s,
    unlockPdfInBrowser (browser 3 "secret") fresh_loader pdf_file "secret" false
      = (Returned blob, s) ∧
    ∃ data lib s0 doc pdfDoc,
      arrayBuffer pdf_file = Returned data ∧
      loadPdfJs (browser 3 "secret") {| loader := fresh_loader; trace := [] |}
        = (Returned lib, s0) ∧
      opened lib data "secret" = Returned doc ∧
      save (browser 3 "secret") pdfDoc = Returned (blob_parts blob) ∧
      length pdfDoc = numPages doc ∧
      pages_fetched (trace s) = seq 1 (numPages doc) ∧
      ∀ i, (1 <= i <= numPages doc)%nat →
        ∃ page out,
          getPage doc i = Returned page ∧
          pdfDoc !! (i - 1)%nat = Some out ∧
          page_result (browser 3 "secret") doc i = Returned out ∧
          page_size out
          = (width (getViewport page 2), height (getViewport page 2)).
Proof.
  eexists _, _. split; [vm_compute; reflexivity|].
  apply (client_rebuilds_every_page (browser 3 "secret") fresh_loader pdf_file
           "secret" false).
  vm_compute. reflexivity.
Defined.


Lemma client_page_progress_witness :
  ∃ blob s,
    unlockPdfInBrowser (browser 3 "secret") fresh_loader pdf_file "secret" true
      = (Returned blob, s) ∧
    ∃ data lib s0 doc,
      arrayBuffer pdf_file = Returned data ∧
      loadPdfJs (browser 3 "secret") {| loader := fresh_loader; trace := [] |}
        = (Returned lib, s0) ∧
      opened lib data "secret" = Returned doc ∧
      let N := numPages doc in
      percentages (trace s)
        = 30 :: page_percentages (browser 3 "secret") N ++ [90; 100] ∧
      length (page_percentages (browser 3 "secret") N) = N ∧
      (∀ i, (1 <= i <= N)%nat →
         page_percentages (browser 3 "secret") N !! (i - 1)%nat
           = Some (page_percentage (browser 3 "secret") N i) ∧
         page_percentage (browser 3 "secret") N i
           = 30 + round_ratio_50 (browser 3 "secret") i N ∧
         2 * Z.of_nat N * round_ratio_50 (browser 3 "secret") i N - Z.of_nat N
           <= 100 * Z.of_nat i
           <= 2 * Z.of_nat N * round_ratio_50 (browser 3 "secret") i N
              + Z.of_nat N ∧
         30 <= page_percentage (browser 3 "secret") N i <= 80 ∧
         (Z.of_nat N < 100 * Z.of_nat i →
          30 < page_percentage (browser 3 "secret") N i)) ∧
      (N = 3%nat → percentages (trace s) = [30; 47; 63; 80; 90; 100]).
Proof.
  eexists _, _. split; [vm_compute; reflexivity|].
  eapply (client_page_progress (browser 3 "secret") fresh_loader pdf_file
            "secret").
  vm_compute. reflexivity.
Defined.

Lemma loader_caches_first_attempt_witness :
  ∃ s1,
    loadPdfJs offline_browser {| loader := fresh_loader; trace := [] |}
      = (Thrown (new_Error "Failed to load PDF.js from CDN."), s1) ∧
    later_loads [browser 3 "secret"; offline_browser] (loader s1)
      = ([Thrown (new_Error "Failed to load PDF.js from CDN.");
          Thrown (new_Error "Failed to load PDF.js from CDN.")], loader s1) ∧
    fst (unlockPdfInBrowser (browser 3 "secret") (loader s1) pdf_file
           "secret" true)
      = Thrown (new_Error "Failed to load PDF.js from CDN.").
Proof.
  eexists. split; [vm_compute; reflexivity|].
  pose proof (loader_caches_first_attempt offline_browser fresh_loader _ _
                eq_refl) as [Hloads Hunlock].
  split; [exact (Hloads [browser 3 "secret"; offline_browser])|].
  exact (proj2 (proj2 (Hunlock (browser 3 "secret") pdf_file "secret" true))
           pdf_bytes eq_refl).
Defined.

End ClientSamples.

(** ** One outcome per call *)



(** ** Temporary files and validation, over the implementations *)

(** C1 (amended). In the route handler every request gets a response, and
    every temporary artifact created on the way (the file written, the
    output path named to the tool) is unlinked before the response is
    delivered: on success, on a tool failure and on any other error; the
    path is gone unless the unlink itself failed, and a failing unlink
    never changes the response. The express server works the other way
    round: it never unlinks before it answers, and unlinks the upload
    after. *)
Theorem temporary_files_deleted :
  (∀ env request fs0,
     ∃ r s,
       Route.POST env request fs0 = (Returned r, s) ∧
       (∀ p, created_during p (Route.trace s) →
             unlinked_before_response p (Route.timeline env request fs0) = true ∧
             (Route.unlink_fault env p = None → Route.fs s !! p = None)) ∧
       (∀ uf, fst (Route.POST (Route.with_unlink_fault uf env) request fs0)
              = Returned r))
  ∧ (∀ env req fs0 f,
       Express.file req = Some f →
       In (EvUnlink (Express.path f)) (Express.timeline env req fs0) ∧
       ∀ p, unlinked_before_response p (Express.timeline env req fs0) = false).
Proof.
  split; [exact route_cleanup|].
  intros env req fs0 f Hf. split.
  - by apply express_unlinks_upload.
  - intros p. apply express_never_unlinks_first.
Qed.

Lemma temporary_files_deleted_witness :
  let request := Samples.upload Samples.pdf_file "secret" in
  ∃ r s,
    Route.POST Samples.route_env request ∅ = (Returned r, s) ∧
    (∀ p, created_during p (Route.trace s) →
          unlinked_before_response p
            (Route.timeline Samples.route_env request ∅) = true ∧
          (Route.unlink_fault Samples.route_env p = None →
           Route.fs s !! p = None)) ∧
    (∀ uf, fst (Route.POST (Route.with_unlink_fault uf Samples.route_env)
                  request ∅) = Returned r).
Proof.
  exact (proj1 temporary_files_deleted Samples.route_env
           (Samples.upload Samples.pdf_file "secret") ∅).
Defined.

(** C2 (amended). The route handler answers an empty document, a document
    over 100MB or an empty password with status 400 and a validation
    message, and leaves the world as it found it: nothing written, nothing
    run, nothing read, nothing deleted. The browser strategy validates
    nothing: once the file is read and the library is there it calls the
    decoder with the bytes and the password as they came. *)
Theorem validation_before_resources :
  (∀ env request fs0 fd,
     Route.formData request = Returned fd →
     (∃ f, Route.get_pdf fd = Some (Route.EntryFile f) ∧
           (size f = 0 ∨ Route.MAX_FILE_SIZE < size f))
     ∨ Route.get_password fd = Some (Route.EntryString EmptyString) →
     ∃ msg,
       Route.POST env request fs0
         = (Returned (Route.text_response msg 400), Route.init fs0) ∧
       In msg [Route.MSG_PDF_REQUIRED; Route.MSG_PASSWORD_REQUIRED;
               Route.MSG_EMPTY; Route.MSG_TOO_LARGE])
  ∧ (∀ br l file pw sink data lib s0,
       arrayBuffer file = Returned data →
       Client.loadPdfJs br {| Client.loader := l; Client.trace := [] |}
         = (Returned lib, s0) →
       Client.decoder_calls
         (Client.trace (snd (Client.unlockPdfInBrowser br l file pw sink)))
       = [(data, pw)]).
Proof. split; [exact route_validation|exact client_always_decodes]. Qed.

Lemma validation_before_resources_witness :
  ∃ msg,
    Route.POST Samples.route_env
      (Samples.upload Samples.empty_file "secret") ∅
      = (Returned (Route.text_response msg 400), Route.init ∅) ∧
    In msg [Route.MSG_PDF_REQUIRED; Route.MSG_PASSWORD_REQUIRED;
            Route.MSG_EMPTY; Route.MSG_TOO_LARGE].
Proof.
  apply (proj1 validation_before_resources Samples.route_env
           (Samples.upload Samples.empty_file "secret") ∅
           (Samples.form Samples.empty_file "secret")).
  - reflexivity.
  - left. exists Samples.empty_file. split; [reflexivity|]. left. reflexivity.
Defined.

(** * The other tools and the pages *)

(** ** The pdf-lib helpers *)

Section PdfUtilsProperties.
Import PdfUtils.
Context {Page : Type}.
Implicit Types (lib : PdfLib Page) (pdf : list Page).

Lemma copyPages_run pdf (start n : nat) : ∀ a : nat,
  (start + a + n <= length pdf)%nat →
  copyPages pdf
    (map (fun idx => Z.of_nat start + Z.of_nat idx) (seq a n))
  = Returned (take n (drop (start + a) pdf)).
Proof.
  induction n as [|n IH]; intros a Hlen; simpl; [done|].
  destruct (lookup_lt_is_Some_2 pdf (start + a)) as [page Hpage]; [lia|].
  unfold page_at. replace (_ <? 0) with false by (symmetry; apply Z.ltb_ge; lia).
  rewrite <- Nat2Z.inj_add, Nat2Z.id, Hpage.
  rewrite (IH (S a)) by lia.
  rewrite (drop_S _ _ _ Hpage). simpl.
  by replace (start + S a)%nat with (S (start + a)) by lia.
Qed.

Lemma copyPages_array_from pdf (first n : Z) :
  0 <= first → first + n <= Z.of_nat (length pdf) →
  copyPages pdf (array_from n (fun idx => first + idx))
  = Returned (take (Z.to_nat n) (drop (Z.to_nat first) pdf)).
Proof.
  intros Hfirst Hn. unfold array_from.
  destruct (Z.le_gt_cases n 0) as [Hn0|Hn0].
  { by replace (Z.to_nat n) with 0%nat by lia. }
  pose proof (copyPages_run pdf (Z.to_nat first) (Z.to_nat n) 0) as H.
  rewrite Nat.add_0_r in H. rewrite <- H by lia.
  f_equal. apply map_ext. intros idx. rewrite Z2Nat.id by lia. done.
Qed.

Lemma copyPages_all pdf : copyPages pdf (getPageIndices pdf) = Returned pdf.
Proof.
  unfold getPageIndices.
  change (fun idx : Z => idx) with (fun idx : Z => 0 + idx).
  rewrite copyPages_array_from by lia.
  by rewrite Nat2Z.id, drop_0, firstn_all.
Qed.


Lemma push_document_spec lib pdf indices results :
  create lib = Returned tt →
  push_document lib pdf indices results
  = match copyPages pdf indices with
    | Thrown e => (Thrown e, results)
    | Returned pages =>
        match save lib pages with
        | Thrown e => (Thrown e, results)
        | Returned b => (Returned tt, results ++ [pdf_blob b])
        end
    end.
Proof.
  intros Hcreate. unfold push_document. js_unfold. rewrite Hcreate.
  destruct (copyPages pdf indices); [|done]. by destruct (save lib a).
Qed.

Lemma saved_as_pdf_blob lib pages b :
  save lib pages = Returned b → saved_as lib pages (pdf_blob b).
Proof. by split. Qed.

(** *** Splitting by count *)




Lemma count_loop_below_one lib pdf p b :
  create lib = Returned tt → save lib [] = Returned b →
  p <= 0 → pdf <> [] →
  ∀ fuel i results, i <= 0 → count_loop lib pdf p fuel i results = None.
Proof.
  intros Hcreate Hsave Hp Hpdf.
  assert (0 < Z.of_nat (length pdf)) by (destruct pdf; [done|simpl; lia]).
  induction fuel as [|fuel IH]; intros i results Hi; cbn [count_loop].
  - by replace (_ <? _) with true by (symmetry; apply Z.ltb_lt; lia).
  - replace (_ <? _) with true by (symmetry; apply Z.ltb_lt; lia).
    rewrite push_document_spec by done.
    unfold array_from. replace (Z.to_nat _) with 0%nat by lia. simpl.
    rewrite Hsave. apply IH. lia.
Qed.

Lemma count_loop_below_one_any lib pdf p :
  p <= 0 → pdf <> [] →
  ∀ fuel i results, i <= 0 →
    count_loop lib pdf p fuel i results = None ∨
    ∃ e results', count_loop lib pdf p fuel i results = Some (Thrown e, results').
Proof.
  intros Hp Hpdf.
  assert (0 < Z.of_nat (length pdf)) by (destruct pdf; [done|simpl; lia]).
  induction fuel as [|fuel IH]; intros i results Hi; cbn [count_loop].
  - left. by replace (_ <? _) with true by (symmetry; apply Z.ltb_lt; lia).
  - replace (_ <? _) with true by (symmetry; apply Z.ltb_lt; lia).
    destruct (push_document _ _ _ _) as [[[]|e] results']; [|eauto].
    apply IH. lia.
Qed.

(** X9. Splitting a document that has pages by count with [pagesPerFile]
    below 1 never returns: after any number of turns the loop is still
    running, unless a step threw; and it is still running whenever new
    documents can be created and an empty one can be saved. *)
Theorem split_by_count_below_one lib file options pdfBytes pdf :
  arrayBuffer file = Returned pdfBytes →
  load lib pdfBytes = Returned pdf →
  pdf <> [] →
  splitByCount options = true →
  pagesPerFile options <= 0 →
  ∀ fuel,
    (splitPdf lib fuel file options = None ∨
     ∃ e, splitPdf lib fuel file options
          = Some (Thrown (failed "Failed to split PDF: " e))) ∧
    (create lib = Returned tt → is_returned (save lib []) = true →
     splitPdf lib fuel file options = None).
Proof.
  intros Hbuf Hload Hpdf Hcount Hp fuel.
  unfold splitPdf. rewrite Hbuf, Hload, Hcount. split.
  - destruct (count_loop_below_one_any lib pdf _ Hp Hpdf fuel 0 [])
      as [->|(e & results' & ->)]; [lia|by left|right; simpl; eauto].
  - intros Hcreate Hsave. destruct (save lib []) as [b|] eqn:Hb; [|done].
    by rewrite (count_loop_below_one lib pdf _ b).
Qed.

(** *** Splitting by ranges *)

Lemma range_turn lib pdf (first last : Z) results :
  create lib = Returned tt →
  1 <= first → first <= last → last <= Z.of_nat (length pdf) →
  push_document lib pdf
    (array_from (last - first + 1) (fun idx => first - 1 + idx)) results
  = match save lib (pages_between pdf first last) with
    | Thrown e => (Thrown e, results)
    | Returned b => (Returned tt, results ++ [pdf_blob b])
    end.
Proof.
  intros Hcreate H1 H2 H3. rewrite push_document_spec by done.
  by rewrite copyPages_array_from by lia.
Qed.







(** *** Extracting pages *)

Lemma extract_loop_spec lib pdf :
  create lib = Returned tt →
  ∀ pages results,
    ∃ run,
      Js.for_each
        (fun pageNum =>
           if (pageNum >? 0) && (pageNum <=? Z.of_nat (length pdf)) then
             push_document lib pdf [pageNum - 1]
           else Js.ret tt)
        pages results = run ∧
      let wanted :=
        filter (fun n => 0 < n ∧ n <= Z.of_nat (length pdf)) pages in
      match run with
      | (Returned _, results') =>
          ∃ new,
            results' = results ++ new ∧
            Forall2 (fun n blob => saved_as lib (pages_between pdf n n) blob)
              wanted new
      | (Thrown e, _) =>
          ∃ n, In n wanted ∧ save lib (pages_between pdf n n) = Thrown e
      end.
Proof.
  intros Hcreate. induction pages as [|n pages IH]; intros results.
  - eexists; split; [done|]. exists []. by rewrite app_nil_r.
  - rewrite filter_cons. cbn [Js.for_each]. unfold Js.bind at 1.
    case_decide as Hn.
    + replace ((n >? 0) && (n <=? _)) with true
        by (symmetry; apply andb_true_iff; split;
            [rewrite Z.gtb_ltb; apply Z.ltb_lt|apply Z.leb_le]; lia).
      pose proof (range_turn lib pdf n n results Hcreate) as Hturn.
      replace (n - n + 1) with 1 in Hturn by lia.
      change (array_from 1 (fun idx => n - 1 + idx)) with [n - 1 + 0] in Hturn.
      rewrite Z.add_0_r in Hturn. rewrite Hturn by lia.
      destruct (save lib (pages_between pdf n n)) as [b|e] eqn:Hsave.
      * destruct (IH (results ++ [pdf_blob b])) as (run & Hrun & Hspec).
        exists run. split; [done|]. destruct run as [[[]|e] results'].
        -- destruct Hspec as (new & -> & Hnew). exists (pdf_blob b :: new).
           split; [by rewrite <- app_assoc|].
           constructor; [by apply saved_as_pdf_blob|done].
        -- destruct Hspec as (m & Hm & He). exists m. simpl. auto.
      * eexists; split; [done|]. exists n. simpl. auto.
    + replace ((n >? 0) && (n <=? _)) with false
        by (symmetry; apply andb_false_iff; rewrite Z.gtb_ltb, Z.ltb_ge, Z.leb_gt;
            lia).
      unfold Js.ret at 1. apply IH.
Qed.

Lemma extractPages_cases lib file pages pdfBytes pdf :
  arrayBuffer file = Returned pdfBytes →
  load lib pdfBytes = Returned pdf →
  create lib = Returned tt →
  let wanted := filter (fun n => 0 < n ∧ n <= Z.of_nat (length pdf)) pages in
  (∃ results,
     extractPages lib file pages = Returned results ∧
     Forall2 (fun n blob =>
                ∃ page, pdf !! Z.to_nat (n - 1) = Some page ∧
                        saved_as lib [page] blob)
       wanted results)
  ∨ (∃ n page e,
       In n wanted ∧ pdf !! Z.to_nat (n - 1) = Some page ∧
       save lib [page] = Thrown e ∧
       extractPages lib file pages
       = Thrown (failed "Failed to extract pages: " e)).
Proof.
  intros Hbuf Hload Hcreate wanted.
  assert (Hone : ∀ n, 0 < n ∧ n <= Z.of_nat (length pdf) →
            ∃ page, pdf !! Z.to_nat (n - 1) = Some page ∧
                    pages_between pdf n n = [page]).
  { intros n [H0 Hle].
    destruct (lookup_lt_is_Some_2 pdf (Z.to_nat (n - 1))) as [page Hpage];
      [lia|].
    exists page. split; [done|]. unfold pages_between.
    replace (Z.to_nat (n - n + 1)) with 1%nat by lia.
    by rewrite (drop_S _ _ _ Hpage). }
  assert (Hwanted : Forall (fun n => 0 < n ∧ n <= Z.of_nat (length pdf)) wanted).
  { apply Forall_forall. intros n Hn.
    by apply list_elem_of_filter in Hn as [? _]. }
  unfold extractPages. rewrite Hbuf, Hload.
  destruct (extract_loop_spec lib pdf Hcreate pages []) as (run & -> & Hspec).
  fold wanted in Hspec. destruct run as [[[]|e] results']; simpl in *.
  - destruct Hspec as (new & -> & Hnew). left. exists new. split; [done|].
    induction Hnew as [|n blob l new [Hs Ht] _ IH]; [constructor|].
    apply Forall_cons in Hwanted as [Hn Hl]. constructor; [|by apply IH].
    destruct (Hone n Hn) as (page & Hpage & Heq). exists page.
    split; [done|]. split; [by rewrite <- Heq|done].
  - destruct Hspec as (n & Hn & He). right.
    assert (Hrange : 0 < n ∧ n <= Z.of_nat (length pdf)).
    { apply list_elem_of_In in Hn. by apply list_elem_of_filter in Hn as [? _]. }
    destruct (Hone n Hrange) as (page & Hpage & Heq).
    exists n, page, e. rewrite <- Heq. auto.
Qed.

(** X12. [extractPages] looks at the requested page numbers in order and
    silently skips those outside [1 .. pageCount]: when it returns there
    is one document per remaining number, in the order of the request
    (a number asked twice gives two), and each holds exactly that page;
    when it throws, the save of one of these failed. *)
Theorem extract_pages_skips_outside lib file pages pdfBytes pdf :
  arrayBuffer file = Returned pdfBytes →
  load lib pdfBytes = Returned pdf →
  create lib = Returned tt →
  let wanted := filter (fun n => 0 < n ∧ n <= Z.of_nat (length pdf)) pages in
  (∃ results,
     extractPages lib file pages = Returned results ∧
     Forall2 (fun n blob =>
                ∃ page, pdf !! Z.to_nat (n - 1) = Some page ∧
                        saved_as lib [page] blob)
       wanted results)
  ∨ (∃ n page e,
       In n wanted ∧ pdf !! Z.to_nat (n - 1) = Some page ∧
       save lib [page] = Thrown e ∧
       extractPages lib file pages
       = Thrown (failed "Failed to extract pages: " e)).
Proof. apply extractPages_cases. Qed.

(** *** Merging *)

Lemma add_pages pages : ∀ doc : list Page,
  Js.for_each addPage pages doc = (Returned tt, doc ++ pages).
Proof.
  induction pages as [|page pages IH]; intros doc; simpl.
  - by rewrite app_nil_r.
  - unfold Js.bind, addPage, Js.modify. by rewrite IH, <- app_assoc.
Qed.

Lemma merge_turn_loads lib file pdf doc :
  loads lib file pdf → merge_turn lib file doc = (Returned tt, doc ++ pdf).
Proof.
  intros (pdfBytes & Hbuf & Hload). unfold merge_turn. js_unfold.
  by rewrite Hbuf, Hload, copyPages_all, add_pages.
Qed.

Lemma merge_turn_fails lib file e doc :
  fails_with lib file e → merge_turn lib file doc = (Thrown e, doc).
Proof.
  intros [Hbuf|(pdfBytes & Hbuf & Hload)]; unfold merge_turn; js_unfold;
    rewrite Hbuf; [done|]. by rewrite Hload.
Qed.

Lemma merge_loop_loads lib files pdfs :
  Forall2 (loads lib) files pdfs →
  ∀ doc, Js.for_each (merge_turn lib) files doc
         = (Returned tt, doc ++ concat pdfs).
Proof.
  induction 1 as [|file pdf files pdfs Hfile _ IH]; intros doc; simpl.
  - by rewrite app_nil_r.
  - unfold Js.bind. rewrite (merge_turn_loads _ _ _ _ Hfile), IH.
    by rewrite <- app_assoc.
Qed.

Lemma mergePdfs_of_loaded lib files pdfs :
  create lib = Returned tt →
  Forall2 (loads lib) files pdfs →
  mergePdfs lib files
  = match save lib (concat pdfs) with
    | Returned b => Returned (pdf_blob b)
    | Thrown e => Thrown (failed "Failed to merge PDFs: " e)
    end
  ∧ length (concat pdfs) = sum_list (map length pdfs).
Proof.
  intros Hcreate Hfiles. split.
  - unfold mergePdfs, merge_try. js_unfold. rewrite Hcreate.
    pose proof (merge_loop_loads lib files pdfs Hfiles []) as Hloop.
    rewrite Hloop. simpl.
    by destruct (save lib (concat pdfs)).
  - induction pdfs as [|pdf pdfs IH] in files, Hfiles |- *; [done|].
    apply Forall2_cons_inv_r in Hfiles as (file & files' & _ & Hrest & ->).
    simpl. rewrite length_app. f_equal. eauto.
Qed.

(** X13. When every file can be read and loaded, [mergePdfs] saves one
    document that holds the pages of all the files: those of the first
    file in their order, then those of the second, and so on; it has as
    many pages as the files together. A failing save is the only failure
    left, and it is wrapped. *)
Theorem merge_concatenates lib files pdfs :
  create lib = Returned tt →
  Forall2 (loads lib) files pdfs →
  mergePdfs lib files
  = match save lib (concat pdfs) with
    | Returned b => Returned (pdf_blob b)
    | Thrown e => Thrown (failed "Failed to merge PDFs: " e)
    end
  ∧ length (concat pdfs) = sum_list (map length pdfs).
Proof. apply mergePdfs_of_loaded. Qed.

Lemma mergePdfs_of_failing lib good pdfs bad e rest :
  create lib = Returned tt →
  Forall2 (loads lib) good pdfs →
  fails_with lib bad e →
  mergePdfs lib (good ++ bad :: rest)
  = Thrown (new_Error ("Failed to merge PDFs: " +:+ e_message e)).
Proof.
  intros Hcreate Hgood Hbad.
  assert (Hloop : ∀ doc,
    Js.for_each (merge_turn lib) (good ++ bad :: rest) doc
    = (Thrown e, doc ++ concat pdfs)).
  { induction Hgood as [|file pdf files pdfs' Hfile _ IH]; intros doc; simpl.
    - unfold Js.bind. rewrite (merge_turn_fails _ _ _ _ Hbad).
      by rewrite app_nil_r.
    - unfold Js.bind at 1. rewrite (merge_turn_loads _ _ _ _ Hfile), IH.
      by rewrite <- app_assoc. }
  unfold mergePdfs, merge_try. js_unfold. rewrite Hcreate.
  by rewrite (Hloop []).
Qed.

(** X14. The first file that cannot be read or loaded makes the whole merge
    throw: the error is that file's, wrapped under the merge prefix, and
    nothing is saved, whatever files stand behind it. *)
Theorem merge_fails_at_first_bad_file lib good pdfs bad e rest :
  create lib = Returned tt →
  Forall2 (loads lib) good pdfs →
  fails_with lib bad e →
  mergePdfs lib (good ++ bad :: rest)
  = Thrown (new_Error ("Failed to merge PDFs: " +:+ e_message e)).
Proof. apply mergePdfs_of_failing. Qed.

End PdfUtilsProperties.

(** ** The store *)

Section StoreProperties.
Import Store.


End StoreProperties.

(** ** The unlock page *)

Section UnlockPageProperties.
Import UnlockPage.

Ltac page_unfold :=
  unfold handleUnlock, unlock_try, fetch_unlock, setProcessing, setResult,
         alert, console_log, setTimeout, with_store, Store.setProcessing in *;
  js_unfold.

(** X16. Without a file in the store, or with an empty password,
    [handleUnlock] raises one alert and does nothing else: no request is
    sent, the store and the result are untouched, no timer is set. *)
Theorem unlock_page_guards env s :
  Store.files (store s) = [] ∨ password s = EmptyString →
  ∃ msg,
    handleUnlock env s
    = (Returned tt,
       {| store := store s; password := password s; result := result s;
          alerts := alerts s ++ [msg]; console := console s;
          timers := timers s; uuids := uuids s; requests := requests s;
          server_fs := server_fs s; served := served s |})
    ∧ In msg ["Please select a PDF file"; "Please enter the password"].
Proof.
  intros Hguard. page_unfold.
  destruct (Store.files (store s)) as [|first rest] eqn:Hfiles; simpl.
  - eexists. split; [reflexivity|]. simpl. auto.
  - destruct Hguard as [|Hpw]; [done|]. rewrite bool_decide_true by done.
    eexists. split; [reflexivity|]. simpl. auto.
Qed.

(** X17. With a file and a password, and a request that gets through,
    [handleUnlock] (taken in one piece: nothing else runs between its
    awaits) sends one request with the first file of the store and the
    password, and sets one timer. When the route handler answers with
    the unlocked document, its bytes become the result, the progress is
    100 and the error of the store is left as it was; otherwise the
    result is left as it was, processing stops at 25, and the error is
    the text of the response, which is never empty. *)
Theorem unlock_page_outcome env s first rest :
  Store.files (store s) = first :: rest →
  password s <> EmptyString →
  fetch_fault env (requests s) = None →
  ∃ r rs s',
    Route.POST (route env (requests s))
      (page_request (Store.file first) (password s)) (server_fs s)
    = (Returned r, rs) ∧
    handleUnlock env s = (Returned tt, s') ∧
    requests s' = S (requests s) ∧
    server_fs s' = Route.fs rs ∧
    served s' = served s ++ Route.trace rs ∧
    timers s' = S (timers s) ∧
    alerts s' = alerts s ∧
    Store.files (store s') = Store.files (store s) ∧
    ((∃ unlockedPdf,
        r = Route.pdf_response unlockedPdf ∧
        result s' = Some unlockedPdf ∧
        console s' = console s ∧
        Store.processing (store s')
        = {| Store.isProcessing := true; Store.progress := 100;
             Store.currentStep := "Complete!";
             Store.error := Store.error (Store.processing (store s)) |})
     ∨ (∃ msg,
          (r = Route.text_response msg 400 ∨ r = Route.text_response msg 500) ∧
          msg <> EmptyString ∧
          result s' = result s ∧
          console s' = console s ++ [new_Error msg] ∧
          Store.processing (store s')
          = {| Store.isProcessing := false; Store.progress := 25;
               Store.currentStep := "Unlocking PDF...";
               Store.error := Some msg |})).
Proof.
  intros Hfiles Hpw Hfault.
  destruct (route_response_kinds (route env (requests s))
              (page_request (Store.file first) (password s)) (server_fs s))
    as (r & rs & HPOST & Hkind).
  exists r, rs. unfold page_request in *. page_unfold.
  rewrite Hfiles. simpl. rewrite bool_decide_false by done.
  simpl. rewrite Hfault, HPOST.
  destruct Hkind as [(unlockedPdf & ->)|(msg & Hmsg & [-> | ->])]; simpl.
  - eexists. split; [done|]. split; [reflexivity|]. simpl.
    repeat split; try done. left. eauto.
  - eexists. split; [done|]. split; [reflexivity|]. simpl.
    repeat split; try done. right. exists msg. unfold or_else.
    rewrite decide_False by done. auto 10.
  - eexists. split; [done|]. split; [reflexivity|]. simpl.
    repeat split; try done. right. exists msg. unfold or_else.
    rewrite decide_False by done. auto 10.
Qed.

(** X18. When the request does not get through, [handleUnlock] shows the
    message of the error [fetch] threw, or its own fallback text when
    that message is empty; the server is not reached, the result is left
    as it was, processing stops at 25 and one timer is set. *)
Theorem unlock_page_network_failure env s first rest e :
  Store.files (store s) = first :: rest →
  password s <> EmptyString →
  fetch_fault env (requests s) = Some e →
  let s' := snd (handleUnlock env s) in
  shown_error s' = Some (or_else (e_message e) MSG_FALLBACK) ∧
  shown_error s' <> Some EmptyString ∧
  Store.isProcessing (Store.processing (store s')) = false ∧
  Store.progress (Store.processing (store s')) = 25 ∧
  result s' = result s ∧
  requests s' = requests s ∧
  served s' = served s ∧
  server_fs s' = server_fs s ∧
  console s' = console s ++ [e] ∧
  timers s' = S (timers s).
Proof.
  intros Hfiles Hpw Hfault s'. subst s'. unfold shown_error. page_unfold.
  rewrite Hfiles. simpl. rewrite bool_decide_false by done.
  simpl. rewrite Hfault. simpl. repeat split; try done.
  unfold or_else. case_decide as Hmsg; [done|]. by intros [= ?].
Qed.

(** *** What the page never does *)

Lemma validatePdfFile_cases (f : PdfUtils.PickedFile) :
  let valid :=
    PdfUtils.type f = "application/pdf" ∧
    size (PdfUtils.data f) <= 104857600 in
  (valid ∧
   PdfUtils.validatePdfFile (Some f)
   = {| PdfUtils.isValid := true; PdfUtils.error := None |})
  ∨ (¬ valid ∧ PdfUtils.type f <> "application/pdf" ∧
     PdfUtils.validatePdfFile (Some f)
     = {| PdfUtils.isValid := false;
          PdfUtils.error := Some "File must be a PDF" |})
  ∨ (¬ valid ∧ PdfUtils.type f = "application/pdf" ∧
     PdfUtils.validatePdfFile (Some f)
     = {| PdfUtils.isValid := false;
          PdfUtils.error := Some "File size must be less than 100MB" |}).
Proof.
  intros valid. subst valid. unfold PdfUtils.validatePdfFile.
  destruct (decide (PdfUtils.type f = "application/pdf")) as [Htype|Htype].
  - rewrite bool_decide_true by done. simpl.
    destruct (Z.gtb_spec (size (PdfUtils.data f)) (100 * 1024 * 1024)).
    + right; right. repeat split; [lia|done].
    + left. repeat split; [done|lia].
  - rewrite bool_decide_false by done. simpl. right; left.
    repeat split; tauto.
Qed.

Lemma onDrop_cons env f l s :
  onDrop env (f :: l) s
  = match
      (if PdfUtils.isValid (PdfUtils.validatePdfFile (Some f))
       then addFile env f
       else alert (default "undefined"
                     (PdfUtils.error (PdfUtils.validatePdfFile (Some f))))) s
    with
    | (Returned _, s1) => onDrop env l s1
    | (Thrown e, s1) => (Thrown e, s1)
    end.
Proof. reflexivity. Qed.

Lemma onDrop_spec env acceptedFiles : ∀ s,
  ∃ s',
    onDrop env acceptedFiles s = (Returned tt, s') ∧
    Store.processing (store s') = Store.processing (store s) ∧
    password s' = password s ∧ requests s' = requests s ∧
    map Store.file (Store.files (store s'))
    = map Store.file (Store.files (store s))
      ++ filter (fun f => PdfUtils.type f = "application/pdf" ∧
                          size (PdfUtils.data f) <= 104857600)
           acceptedFiles ∧
    alerts s'
    = alerts s
      ++ map (fun f => if decide (PdfUtils.type f = "application/pdf")
                       then "File size must be less than 100MB"
                       else "File must be a PDF")
           (filter (fun f => ¬ (PdfUtils.type f = "application/pdf" ∧
                                size (PdfUtils.data f) <= 104857600))
              acceptedFiles) ∧
    map Store.id (Store.files (store s'))
    = map Store.id (Store.files (store s))
      ++ map (randomUUID env)
           (seq (uuids s)
              (length (Store.files (store s'))
               - length (Store.files (store s)))).
Proof.
  induction acceptedFiles as [|f l IH]; intros s.
  - exists s. simpl. rewrite !app_nil_r, Nat.sub_diag. simpl.
    by rewrite app_nil_r.
  - rewrite onDrop_cons, !filter_cons.
    destruct (validatePdfFile_cases f)
      as [[Hvalid ->]|[(Hvalid & Htype & ->)|(Hvalid & Htype & ->)]];
      cbn [PdfUtils.isValid PdfUtils.error default];
      unfold addFile, alert, Js.modify;
      match goal with |- context [onDrop env l ?s1] =>
        destruct (IH s1) as (s' & -> & Hproc & Hpw & Hreq & Hfiles &
                              Halerts & Hids) end;
      exists s'; simpl in *.
    + rewrite decide_True by done. rewrite decide_False by tauto.
      rewrite !map_app in *. simpl in *.
      rewrite <- !app_assoc in *. simpl in *.
      repeat split; try done.
      assert (Hlen : (length (Store.files (store s'))
                      >= S (length (Store.files (store s))))%nat).
      { apply (f_equal length) in Hfiles.
        rewrite !length_app, !length_map in Hfiles.
        simpl in Hfiles. lia. }
      rewrite Hids, length_app. simpl.
      replace (length (Store.files (store s'))
               - length (Store.files (store s)))%nat
        with (S (length (Store.files (store s'))
                 - (length (Store.files (store s)) + 1)))%nat by lia.
      done.
    + rewrite decide_False by done. rewrite decide_True by done. simpl.
      rewrite decide_False by done.
      rewrite Halerts, <- app_assoc. done.
    + rewrite decide_False by done. rewrite decide_True by done. simpl.
      rewrite decide_True by done.
      rewrite Halerts, <- app_assoc. done.
Qed.

(** X19. [onDrop] adds to the store exactly the dropped files of type
    [application/pdf] of at most 104857600 bytes, in the order of the
    drop and each under the next identifier drawn; every other file
    raises one alert, about its type when that is wrong and about its
    size otherwise. Nothing else of the page changes. *)
Theorem on_drop_keeps_valid_files env acceptedFiles s :
  let s' := snd (onDrop env acceptedFiles s) in
  let valid f :=
    PdfUtils.type f = "application/pdf" ∧
    size (PdfUtils.data f) <= 104857600 in
  map Store.file (Store.files (store s'))
  = map Store.file (Store.files (store s)) ++ filter valid acceptedFiles
  ∧ alerts s'
    = alerts s
      ++ map (fun f => if decide (PdfUtils.type f = "application/pdf")
                       then "File size must be less than 100MB"
                       else "File must be a PDF")
           (filter (fun f => ¬ valid f) acceptedFiles)
  ∧ map Store.id (Store.files (store s'))
    = map Store.id (Store.files (store s))
      ++ map (randomUUID env)
           (seq (uuids s) (length (filter valid acceptedFiles)))
  ∧ Store.processing (store s') = Store.processing (store s)
  ∧ password s' = password s
  ∧ requests s' = requests s.
Proof.
  intros s' valid. subst s'.
  destruct (onDrop_spec env acceptedFiles s)
    as (s' & -> & Hproc & Hpw & Hreq & Hfiles & Halerts & Hids).
  simpl. repeat split; try done.
  rewrite Hids. do 3 f_equal.
  apply (f_equal length) in Hfiles.
  rewrite length_app, !length_map in Hfiles. subst valid. simpl. lia.
Qed.

Lemma handleUnlock_error env s :
  shown_error (snd (handleUnlock env s)) = shown_error s
  ∨ ∃ msg, shown_error (snd (handleUnlock env s)) = Some msg.
Proof.
  unfold shown_error. page_unfold.
  repeat (case_match; simplify_eq/=); eauto.
Qed.

Lemma step_keeps_error env a s :
  is_Some (shown_error s) → is_Some (shown_error (step env a s)).
Proof.
  intros Herr. destruct a; simpl.
  - destruct (onDrop_spec env acceptedFiles s) as (s' & -> & Hproc & _).
    unfold shown_error in *. simpl. by rewrite Hproc.
  - done.
  - done.
  - destruct (handleUnlock_error env s) as [->|[msg ->]]; [done|eauto].
  - unfold timer_fires. destruct (timers s); [done|]. done.
Qed.

(** X20. The unlock page never takes an error off the screen: once the
    store holds an error, it holds one after any sequence of drops,
    password edits, clearing, further unlock attempts (successful ones
    included) and timers. *)
Theorem unlock_page_never_clears_error env actions s :
  is_Some (shown_error s) → is_Some (shown_error (run env actions s)).
Proof.
  unfold run. revert s.
  induction actions as [|a actions IH]; intros s Herr; simpl; [done|].
  apply IH. by apply step_keeps_error.
Qed.

(** *** From the drop to the tool *)

Lemma handleUnlock_files env s :
  Store.files (store (snd (handleUnlock env s))) = Store.files (store s).
Proof.
  page_unfold. repeat (case_match; simplify_eq/=); done.
Qed.

Lemma step_keeps_validated env a s :
  Forall validated (Store.files (store s)) →
  Forall validated (Store.files (store (step env a s))).
Proof.
  intros Hall. destruct a; simpl; try done.
  - destruct (onDrop_spec env acceptedFiles s)
      as (s' & -> & _ & _ & _ & Hfiles & _).
    simpl.
    assert (Hall' : Forall (fun p => PdfUtils.type p = "application/pdf" ∧
                                     size (PdfUtils.data p) <= 104857600)
                      (map Store.file (Store.files (store s')))).
    { rewrite Hfiles. apply Forall_app. split; [by apply Forall_fmap|].
      apply Forall_forall. intros p Hp.
      by apply list_elem_of_filter in Hp as [? _]. }
    apply Forall_fmap in Hall'. exact Hall'.
  - by rewrite handleUnlock_files.
  - unfold timer_fires. by destruct (timers s).
Qed.

Lemma run_keeps_validated env actions : ∀ s,
  Forall validated (Store.files (store s)) →
  Forall validated (Store.files (store (run env actions s))).
Proof.
  unfold run. induction actions as [|a actions IH]; intros s Hall; simpl;
    [done|].
  apply IH. by apply step_keeps_validated.
Qed.

(** X21. Whatever was done on the page before, an unlock attempt on a file
    of the store that is not empty and can be read, with a password and a
    request that gets through, always reaches the tool: the route handler
    lets it pass its guards (the page has let in no file above the
    handler's limit), writes the temporary input and runs qpdf with the
    password typed on the page. *)
Theorem dropped_file_reaches_tool env fs0 actions first rest buffer :
  let s := run env actions (initial fs0) in
  let renv := route env (requests s) in
  Store.files (store s) = first :: rest →
  password s <> EmptyString →
  size (PdfUtils.data (Store.file first)) <> 0 →
  arrayBuffer (PdfUtils.data (Store.file first)) = Returned buffer →
  fetch_fault env (requests s) = None →
  Route.writeFile_fault renv = None →
  Route.accepted (page_request (Store.file first) (password s))
    (PdfUtils.data (Store.file first)) (password s) buffer
  ∧ ∃ tail,
      served (snd (handleUnlock env s))
      = served s
        ++ EvWriteFile (Route.temp_input renv)
           :: EvExec (Route.QPDF_BINARY_PATH renv)
                (Route.tool_args renv (password s))
           :: tail.
Proof.
  intros s renv Hfiles Hpw Hsize Hbuf Hfault Hwrite.
  assert (Hvalid : Forall validated (Store.files (store s))).
  { apply run_keeps_validated. simpl. constructor. }
  rewrite Hfiles in Hvalid. apply Forall_cons in Hvalid as [[_ Hmax] _].
  assert (Hacc : Route.accepted (page_request (Store.file first) (password s))
                   (PdfUtils.data (Store.file first)) (password s) buffer).
  { unfold Route.accepted, page_request, Route.MAX_FILE_SIZE. simpl.
    repeat split; try done. }
  split; [done|].
  destruct (accepted_runs_tool renv _ (server_fs s) _ _ _ Hacc Hwrite)
    as (r & rs & tail & HPOST & Htrace).
  exists tail. unfold page_request in HPOST. page_unfold.
  rewrite Hfiles. simpl. rewrite bool_decide_false by done. simpl.
  rewrite Hfault. fold renv. rewrite HPOST.
  destruct (negb (ok r)); simpl; by rewrite Htrace.
Qed.

End UnlockPageProperties.

(** ** The merge page *)

Section MergePageProperties.
Import MergePage.
Context {Page : Type}.
Implicit Types (lib : PdfUtils.PdfLib Page).

Ltac merge_unfold :=
  unfold handleMerge, setProcessing, setResult, alert, downloadResult,
         setTimeout, with_store, Store.setProcessing, Store.setResult in *;
  js_unfold.

(** X22. With at least two files in the store that can all be read and
    loaded, [handleMerge] stores as the result one document with the
    pages of the files in the order of the store, which is the order of
    the list on the page: all pages of the first file, then those of the
    second, and so on. It starts one download of that document when
    [autoDownload] is set and none otherwise, leaves the error of the
    store as it was, and sets one timer. With fewer than two files it
    raises an alert and does nothing else. *)
Theorem merge_page_merges_in_store_order lib s pdfs b :
  PdfUtils.create lib = Returned tt →
  Forall2 (PdfUtils.loads lib) (store_files s) pdfs →
  PdfUtils.save lib (concat pdfs) = Returned b →
  let s' := snd (handleMerge lib s) in
  let merged := PdfUtils.pdf_blob b in
  ((2 <= length (Store.files (store s)))%nat →
   Store.result (store s') = Some merged ∧
   downloads s'
   = downloads s
     ++ (if Store.autoDownload (store s)
         then [(merged, "merged-document.pdf")] else []) ∧
   Store.processing (store s')
   = {| Store.isProcessing := true; Store.progress := 100;
        Store.currentStep := "Complete!";
        Store.error := Store.error (Store.processing (store s)) |} ∧
   alerts s' = alerts s ∧ timers s' = S (timers s))
  ∧ ((length (Store.files (store s)) < 2)%nat →
     s' = {| store := store s;
             alerts :=
               alerts s ++ ["Please select at least 2 PDF files to merge"];
             downloads := downloads s; timers := timers s |}).
Proof.
  intros Hcreate Hloads Hsave s' merged. subst s' merged.
  pose proof (mergePdfs_of_loaded lib _ _ Hcreate Hloads) as [Hmerge _].
  rewrite Hsave in Hmerge. unfold store_files in *. split.
  - intros Hlen. merge_unfold.
    replace (length _ <? 2)%nat with false
      by (symmetry; apply Nat.ltb_ge; lia).
    simpl. rewrite Hmerge. simpl.
    destruct (Store.autoDownload (store s)); simpl; rewrite ?app_nil_r; done.
  - intros Hlen. merge_unfold.
    replace (length _ <? 2)%nat with true
      by (symmetry; apply Nat.ltb_lt; lia).
    done.
Qed.

(** X23. When a file of the store cannot be read or loaded, [handleMerge]
    shows the error of the first such file behind the text
    [Failed to merge PDFs: ], stops processing at 25, and neither stores
    a result nor starts a download. *)
Theorem merge_page_shows_first_failure lib s good pdfs bad e rest :
  PdfUtils.create lib = Returned tt →
  store_files s = good ++ bad :: rest →
  Forall2 (PdfUtils.loads lib) good pdfs →
  PdfUtils.fails_with lib bad e →
  (2 <= length (Store.files (store s)))%nat →
  let s' := snd (handleMerge lib s) in
  Store.processing (store s')
  = {| Store.isProcessing := false; Store.progress := 25;
       Store.currentStep := "Merging PDFs...";
       Store.error := Some ("Failed to merge PDFs: " +:+ e_message e) |} ∧
  Store.result (store s') = Store.result (store s) ∧
  downloads s' = downloads s ∧
  timers s' = S (timers s).
Proof.
  intros Hcreate Hfiles Hgood Hbad Hlen s'. subst s'.
  pose proof (mergePdfs_of_failing lib _ _ _ _ rest Hcreate Hgood Hbad)
    as Hmerge.
  rewrite <- Hfiles in Hmerge. unfold store_files in *. merge_unfold.
  replace (length _ <? 2)%nat with false
    by (symmetry; apply Nat.ltb_ge; lia).
  simpl. rewrite Hmerge. done.
Qed.

End MergePageProperties.

(** ** The extract page *)

Section ExtractPageProperties.
Import ExtractPage.

Lemma ascending_weaken l : ascending l → StronglySorted Z.le l.
Proof.
  induction 1 as [|x l _ IH Hx]; constructor; [done|].
  eapply Forall_impl; [exact Hx|]. intros y Hy. simpl in Hy. lia.
Qed.

Lemma ascending_NoDup l : ascending l → NoDup l.
Proof.
  induction 1 as [|x l _ IH Hx]; constructor; [|done].
  intros Hin. rewrite Forall_forall in Hx. specialize (Hx x Hin). lia.
Qed.

Lemma ascending_intro l : StronglySorted Z.le l → NoDup l → ascending l.
Proof.
  induction 1 as [|x l _ IH Hx]; intros Hnd; [constructor|].
  apply NoDup_cons in Hnd as [Hx' Hnd]. constructor; [by apply IH|].
  rewrite Forall_forall in *. intros y Hy. specialize (Hx y Hy).
  assert (x <> y) by (intros ->; done). lia.
Qed.

Lemma ascending_filter (P : Z → Prop) `{∀ x, Decision (P x)} (l : list Z) :
  ascending l → ascending (filter P l).
Proof.
  induction 1 as [|x l _ IH Hx]; [constructor|].
  rewrite filter_cons. case_decide; [|done]. constructor; [done|].
  rewrite Forall_forall in *. intros y Hy.
  apply list_elem_of_filter in Hy as [_ Hy]. auto.
Qed.

Lemma ascending_unique l1 l2 : ascending l1 → ascending l2 → l1 ≡ₚ l2 → l1 = l2.
Proof.
  intros H1 H2. apply (StronglySorted_unique Z.le); by apply ascending_weaken.
Qed.

Lemma filter_absent (p : Z) (l : list Z) : p ∉ l → filter (fun q => q <> p) l = l.
Proof.
  induction l as [|x l IH]; intros Hp; [done|].
  apply not_elem_of_cons in Hp as [Hx Hl].
  rewrite filter_cons, decide_True by done. by rewrite IH.
Qed.

Lemma filter_present (p : Z) (l : list Z) :
  NoDup l → p ∈ l → filter (fun q => q <> p) l ++ [p] ≡ₚ l.
Proof.
  induction 1 as [|x l Hx Hnd IH]; intros Hp; [by apply elem_of_nil in Hp|].
  rewrite filter_cons. apply elem_of_cons in Hp as [->|Hp].
  - rewrite decide_False by (intros ?; done). rewrite filter_absent by done.
    symmetry. apply Permutation_cons_append.
  - rewrite decide_True by (intros ->; done). simpl. by rewrite IH.
Qed.

Lemma togglePage_in p prev :
  p ∈ prev → togglePage p prev = filter (fun q => q <> p) prev.
Proof. intros Hin. unfold togglePage. by rewrite bool_decide_true. Qed.

Lemma togglePage_out p prev :
  p ∉ prev → togglePage p prev = merge_sort Z.le (prev ++ [p]).
Proof. intros Hin. unfold togglePage. by rewrite bool_decide_false. Qed.

Lemma togglePage_ascending p prev : ascending prev → ascending (togglePage p prev).
Proof.
  intros Hasc. unfold togglePage. case_bool_decide as Hin.
  - by apply ascending_filter.
  - apply ascending_intro.
    + apply StronglySorted_merge_sort; apply _.
    + rewrite merge_sort_Permutation. apply NoDup_app.
      split; [by apply ascending_NoDup|]. split; [|apply NoDup_singleton].
      intros x Hx Hx'. apply list_elem_of_singleton in Hx' as ->. done.
Qed.

Lemma selectAllPages_ascending pageCount : ascending (selectAllPages pageCount).
Proof.
  unfold selectAllPages, PdfUtils.array_from.
  generalize (Z.to_nat pageCount) as n. intros n.
  assert (Hgen : ∀ a, ascending (map (fun idx => Z.of_nat idx + 1) (seq a n))).
  { induction n as [|n IH]; intros a; simpl; constructor; [apply IH|].
    apply Forall_forall. intros y Hy.
    apply list_elem_of_fmap in Hy as (i & -> & Hi).
    apply elem_of_seq in Hi. lia. }
  apply Hgen.
Qed.

(** X24. However the selection of the extract page is built (pages toggled
    on and off in any order, all pages selected, the selection cleared),
    it is in strictly upward order: sorted, and no page twice. *)
Theorem selection_stays_ascending picks :
  ascending (fold_left select picks []).
Proof.
  assert (Hgen : ∀ selection, ascending selection →
                              ascending (fold_left select picks selection)).
  { induction picks as [|a picks IH]; intros selection Hasc; [done|].
    simpl. apply IH. destruct a; simpl.
    - by apply togglePage_ascending.
    - apply selectAllPages_ascending.
    - constructor. }
  apply Hgen. constructor.
Qed.

(** X25. On a selection in strictly upward order, [togglePage] switches
    one page and leaves the others: the page is in the new selection
    exactly when it was not in the old one; and toggling the same page
    twice gives the selection back. *)
Theorem toggle_page_twice pageNumber prev :
  ascending prev →
  (∀ q, q ∈ togglePage pageNumber prev ↔
        (q <> pageNumber ∧ q ∈ prev) ∨ (q = pageNumber ∧ pageNumber ∉ prev))
  ∧ togglePage pageNumber (togglePage pageNumber prev) = prev.
Proof.
  intros Hasc.
  destruct (decide (pageNumber ∈ prev)) as [Hin|Hin].
  - rewrite (togglePage_in _ _ Hin).
    assert (Hout : pageNumber ∉ filter (fun q => q <> pageNumber) prev).
    { intros Hq. apply list_elem_of_filter in Hq as [? _]. done. }
    split.
    + intros q. split.
      * intros Hq. apply list_elem_of_filter in Hq. tauto.
      * intros [[? ?]|[_ ?]]; [by apply list_elem_of_filter|done].
    + rewrite (togglePage_out _ _ Hout).
      apply ascending_unique; [|done|].
      * rewrite <- (togglePage_out _ _ Hout).
        by apply togglePage_ascending, ascending_filter.
      * rewrite merge_sort_Permutation.
        apply filter_present; [by apply ascending_NoDup|done].
  - rewrite (togglePage_out _ _ Hin).
    assert (Hnow : pageNumber ∈ merge_sort Z.le (prev ++ [pageNumber])).
    { rewrite merge_sort_Permutation, elem_of_app, list_elem_of_singleton.
      auto. }
    split.
    + intros q.
      rewrite merge_sort_Permutation, elem_of_app, list_elem_of_singleton.
      split.
      * intros [Hq| ->]; [left|right; done].
        split; [intros ->; done|done].
      * intros [[_ ?]|[-> _]]; auto.
    + rewrite (togglePage_in _ _ Hnow).
      apply ascending_unique; [|done|].
      * apply ascending_filter. rewrite <- (togglePage_out _ _ Hin).
        by apply togglePage_ascending.
      * rewrite merge_sort_Permutation, filter_app, filter_absent by done.
        rewrite filter_cons, decide_False by (intros ?; done).
        by rewrite filter_nil, app_nil_r.
Qed.

Context {Page : Type}.

(** X26. When every selected page is a page of the document and the
    selection has not changed since the extraction, [downloadAll] starts
    one download per selected page, in the order of the selection; the
    download of page [n] holds exactly that page and is named after the
    first file of the store, without its first [.pdf], and after [n]. *)
Theorem extract_downloads_named_by_page (lib : PdfUtils.PdfLib Page)
    files first rest selectedPages extractResults pdfBytes pdf :
  files = first :: rest →
  arrayBuffer (PdfUtils.data (Store.file first)) = Returned pdfBytes →
  PdfUtils.load lib pdfBytes = Returned pdf →
  PdfUtils.create lib = Returned tt →
  Forall (fun n => 0 < n ∧ n <= Z.of_nat (length pdf)) selectedPages →
  PdfUtils.extractPages lib (PdfUtils.data (Store.file first)) selectedPages
  = Returned extractResults →
  Forall2
    (fun n download =>
       download.2
       = remove_first ".pdf" (Store.name first) +:+ "_page_" +:+ pretty n
         +:+ ".pdf"
       ∧ ∃ page, pdf !! Z.to_nat (n - 1) = Some page ∧
                 PdfUtils.saved_as lib [page] download.1)
    selectedPages (downloadAll files selectedPages extractResults).
Proof.
  intros -> Hbuf Hload Hcreate Hinside Hrun.
  destruct (extractPages_cases lib _ selectedPages _ _ Hbuf Hload Hcreate)
    as [(results & Hres & Hall)|(n & page & e & _ & _ & _ & Hthrown)];
    [|congruence].
  rewrite Hrun in Hres. injection Hres as <-.
  assert (Hfilter : filter (fun n => 0 < n ∧ n <= Z.of_nat (length pdf))
                      selectedPages = selectedPages).
  { clear -Hinside. induction Hinside as [|n l Hn _ IH]; [done|].
    by rewrite filter_cons, decide_True, IH. }
  rewrite Hfilter in Hall. clear Hfilter Hinside Hrun.
  apply Forall2_same_length_lookup. split.
  - unfold downloadAll. rewrite length_imap. by eapply Forall2_length.
  - intros i n download Hn Hd. unfold downloadAll in Hd.
    apply list_lookup_imap_Some in Hd as (blob & Hblob & ->). simpl.
    rewrite Hn. simpl. split; [done|].
    destruct (Forall2_lookup_l _ _ _ _ _ Hall Hn) as (blob' & Hblob' & Hpage).
    rewrite Hblob in Hblob'. by injection Hblob' as <-.
Qed.

End ExtractPageProperties.

(** ** The properties above on the sample inputs *)

Section PageSampleProperties.
Import PageSamples.


Lemma split_by_count_below_one_witness :
  PdfUtils.splitPdf one_page_per_byte 1000 five_pages (by_count 0) = None.
Proof.
  apply (split_by_count_below_one one_page_per_byte five_pages (by_count 0)
           _ _ eq_refl eq_refl ltac:(discriminate) eq_refl
           ltac:(simpl; lia) 1000%nat); reflexivity.
Defined.



Lemma extract_pages_skips_outside_witness :
  ∃ results,
    PdfUtils.extractPages one_page_per_byte five_pages [2; 9; 0; 5; 2]
    = Returned results ∧
    length results = 3%nat.
Proof.
  destruct (extract_pages_skips_outside one_page_per_byte five_pages
              [2; 9; 0; 5; 2] _ _ eq_refl eq_refl eq_refl)
    as [(results & Hrun & Hall)|(n & page & e & _ & _ & Hsave & _)].
  - exists results. split; [exact Hrun|].
    symmetry. exact (Forall2_length _ _ _ Hall).
  - discriminate Hsave.
Defined.

Lemma merge_concatenates_witness :
  PdfUtils.mergePdfs one_page_per_byte [two_pages; five_pages]
  = Returned
      (PdfUtils.pdf_blob
         [Byte.x0a; Byte.x0b; Byte.x01; Byte.x02; Byte.x03; Byte.x04;
          Byte.x05]).
Proof.
  refine (proj1 (merge_concatenates one_page_per_byte [two_pages; five_pages]
                   [[Byte.x0a; Byte.x0b];
                    [Byte.x01; Byte.x02; Byte.x03; Byte.x04; Byte.x05]]
                   eq_refl _)).
  repeat constructor; eexists; split; reflexivity.
Defined.

Lemma merge_fails_at_first_bad_file_witness :
  PdfUtils.mergePdfs one_page_per_byte [two_pages; unreadable_file; five_pages]
  = Thrown (new_Error "Failed to merge PDFs: The file could not be read.").
Proof.
  refine (merge_fails_at_first_bad_file one_page_per_byte [two_pages]
            [[Byte.x0a; Byte.x0b]] unreadable_file not_readable [five_pages]
            eq_refl _ _).
  - repeat constructor; eexists; split; reflexivity.
  - left. reflexivity.
Defined.


Lemma unlock_page_guards_witness :
  ∃ msg,
    UnlockPage.handleUnlock page_env (ready EmptyString)
    = (Returned tt,
       {| UnlockPage.store := UnlockPage.store (ready EmptyString);
          UnlockPage.password := EmptyString;
          UnlockPage.result := None;
          UnlockPage.alerts := [msg]; UnlockPage.console := [];
          UnlockPage.timers := 0; UnlockPage.uuids := 1;
          UnlockPage.requests := 0; UnlockPage.server_fs := ∅;
          UnlockPage.served := [] |})
    ∧ In msg ["Please select a PDF file"; "Please enter the password"].
Proof.
  exact (unlock_page_guards page_env (ready EmptyString) (or_intror eq_refl)).
Defined.

Lemma unlock_page_outcome_witness :
  UnlockPage.result
    (snd (UnlockPage.handleUnlock page_env (ready "secret")))
  = Some Samples.pdf_bytes
  ∧ Store.error
      (Store.processing
         (UnlockPage.store
            (snd (UnlockPage.handleUnlock page_env (ready "wrong")))))
    = Some "qpdf: /tmp/pdf-input-3f9a-0.pdf: invalid password".
Proof.
  split.
  - destruct (unlock_page_outcome page_env (ready "secret")
                (PageSamples.stored "file-0" "locked.pdf" Samples.pdf_file) []
                eq_refl ltac:(discriminate) eq_refl)
      as (r & rs & s' & HPOST & Hrun & _).
    rewrite Hrun. vm_compute in Hrun. injection Hrun as <-. reflexivity.
  - destruct (unlock_page_outcome page_env (ready "wrong")
                (PageSamples.stored "file-0" "locked.pdf" Samples.pdf_file) []
                eq_refl ltac:(discriminate) eq_refl)
      as (r & rs & s' & HPOST & Hrun & _).
    rewrite Hrun. vm_compute in Hrun. injection Hrun as <-. reflexivity.
Defined.

Lemma unlock_page_never_clears_error_witness :
  is_Some
    (UnlockPage.shown_error
       (UnlockPage.run page_env
          [UnlockPage.TimerFires; UnlockPage.TypePassword "secret";
           UnlockPage.Unlock; UnlockPage.TimerFires]
          (snd (UnlockPage.handleUnlock page_env (ready "wrong"))))).
Proof.
  apply unlock_page_never_clears_error. vm_compute. eauto.
Defined.

Lemma dropped_file_reaches_tool_witness :
  ∃ tail,
    UnlockPage.served
      (snd (UnlockPage.handleUnlock page_env (ready "secret")))
    = EvWriteFile "/tmp/pdf-input-3f9a-0.pdf"
      :: EvExec "qpdf"
           ["--password=secret"; "--decrypt"; "/tmp/pdf-input-3f9a-0.pdf";
            "/tmp/pdf-output-3f9a-1.pdf"]
      :: tail.
Proof.
  destruct (dropped_file_reaches_tool page_env ∅
              [UnlockPage.Drop [picked "locked.pdf" Samples.pdf_file];
               UnlockPage.TypePassword "secret"]
              (PageSamples.stored "file-0" "locked.pdf" Samples.pdf_file) []
              Samples.pdf_bytes
              eq_refl ltac:(discriminate) ltac:(discriminate) eq_refl eq_refl
              eq_refl)
    as [_ [tail Hserved]].
  exists tail. exact Hserved.
Defined.

Lemma route_touches_only_temp_files_witness :
  Route.fs
    (snd (Route.POST Samples.route_env
            (Samples.upload Samples.pdf_file "secret")
            {[ "/home/app/notes.txt" := Samples.pdf_bytes ]}))
  !! "/home/app/notes.txt"
  = Some Samples.pdf_bytes.
Proof.
  refine (proj1 (route_touches_only_temp_files Samples.route_env
                   (Samples.upload Samples.pdf_file "secret")
                   {[ "/home/app/notes.txt" := Samples.pdf_bytes ]}
                   "/home/app/notes.txt" _ _ _)).
  - discriminate.
  - discriminate.
  - intros password fs. simpl. unfold Samples.qpdf_like.
    destruct (fs !! Route.temp_input Samples.route_env); [|reflexivity].
    destruct (decide _); [|reflexivity]. simpl.
    apply lookup_insert_ne. discriminate.
Defined.

Lemma express_failure_answer_is_fixed_witness :
  Express.timeline express_env_without_qpdf
    (Samples.express_upload "secret") Samples.express_fs
  = [EvExec "qpdf"
       ["--password=secret"; "--decrypt"; "uploads/3f9a";
        "uploads/3f9a-unlocked.pdf"];
     EvConsole "Error" (Samples.spawn_enoent "qpdf");
     EvRespond (Route.text_response Express.MSG_FAILED 400);
     EvUnlink "uploads/3f9a"].
Proof.
  exact (express_failure_answer_is_fixed express_env_without_qpdf
           (Samples.express_upload "secret")
           Samples.express_fs {| Express.path := "uploads/3f9a" |}
           (Samples.spawn_enoent "qpdf") Samples.express_fs eq_refl eq_refl).
Defined.

Lemma express_success_unlinks_both_witness :
  Express.fs
    (snd (Express.unlock Samples.express_env (Samples.express_upload "secret")
            Samples.express_fs))
  = ∅.
Proof.
  rewrite (express_success_unlinks_both Samples.express_env
             (Samples.express_upload "secret") Samples.express_fs
             {| Express.path := "uploads/3f9a" |}
             (<["uploads/3f9a-unlocked.pdf" := Samples.pdf_bytes]>
                Samples.express_fs)
             Samples.pdf_bytes eq_refl eq_refl eq_refl
             (ex_intro _ Samples.pdf_bytes eq_refl) eq_refl eq_refl).
  vm_compute. reflexivity.
Defined.

Lemma client_first_failing_page_witness :
  let run :=
    Client.unlockPdfInBrowser (Samples.browser_without_canvas 3 "secret")
      Samples.fresh_loader Samples.pdf_file "secret" true in
  fst run = Thrown Client.no_canvas_error ∧
  Client.pages_fetched (Client.trace (snd run)) = [1; 2]%nat ∧
  Client.percentages (Client.trace (snd run)) = [30; 47; 63].
Proof.
  assert (Hpages : ∀ i, (1 <= i < 2)%nat →
    is_returned
      (Client.page_result (Samples.browser_without_canvas 3 "secret")
         (Samples.document 3) i) = true).
  { intros i Hi. assert (i = 1%nat) as -> by lia. reflexivity. }
  exact (client_first_failing_page (Samples.browser_without_canvas 3 "secret")
           Samples.fresh_loader Samples.pdf_file "secret" true
           Samples.pdf_bytes _ _ (Samples.document 3) 2 Client.no_canvas_error
           eq_refl eq_refl eq_refl eq_refl ltac:(simpl; lia) Hpages eq_refl).
Defined.

Lemma client_fails_before_decoder_witness :
  let run :=
    Client.unlockPdfInBrowser Samples.offline_browser Samples.fresh_loader
      Samples.pdf_file "secret" true in
  fst run = Thrown (new_Error "Failed to load PDF.js from CDN.") ∧
  Client.decoder_calls (Client.trace (snd run)) = [] ∧
  Client.percentages (Client.trace (snd run)) = [].
Proof.
  destruct (client_fails_before_decoder Samples.offline_browser
              Samples.fresh_loader Samples.pdf_file "secret" true
              (new_Error "Failed to load PDF.js from CDN.")
              (or_intror (conj eq_refl eq_refl)))
    as (Hrun & Hdec & _ & Hpct & _).
  exact (conj Hrun (conj Hdec Hpct)).
Defined.

Lemma toggle_page_twice_witness :
  ExtractPage.togglePage 4 (ExtractPage.togglePage 4 [2; 5; 9]) = [2; 5; 9].
Proof.
  refine (proj2 (toggle_page_twice 4 [2; 5; 9] _)).
  repeat constructor; lia.
Defined.

Lemma extract_downloads_named_by_page_witness :
  ∃ results,
    PdfUtils.extractPages one_page_per_byte five_pages [2; 5]
    = Returned results ∧
    map snd
      (ExtractPage.downloadAll [stored "file-0" "report.pdf" five_pages]
         [2; 5] results)
    = ["report_page_2.pdf"; "report_page_5.pdf"].
Proof.
  exists [PdfUtils.pdf_blob [Byte.x02]; PdfUtils.pdf_blob [Byte.x05]].
  split; [reflexivity|].
  pose proof (extract_downloads_named_by_page one_page_per_byte
                [stored "file-0" "report.pdf" five_pages]
                (stored "file-0" "report.pdf" five_pages) [] [2; 5]
                [PdfUtils.pdf_blob [Byte.x02]; PdfUtils.pdf_blob [Byte.x05]]
                _ _ eq_refl eq_refl eq_refl eq_refl
                ltac:(repeat constructor; simpl; lia) eq_refl) as Hall.
  apply Forall2_cons_inv_l in Hall as (d1 & rest1 & [Hname1 _] & Hall & Heq).
  apply Forall2_cons_inv_l in Hall as (d2 & rest2 & [Hname2 _] & Hall & ->).
  apply Forall2_nil_inv_l in Hall as ->.
  rewrite Heq. simpl. rewrite Hname1, Hname2. reflexivity.
Defined.

Lemma unlock_page_network_failure_witness :
  UnlockPage.shown_error
    (snd (UnlockPage.handleUnlock offline_page_env (ready "secret")))
  = Some "Failed to fetch".
Proof.
  refine (proj1 (unlock_page_network_failure offline_page_env (ready "secret")
                   (stored "file-0" "locked.pdf" Samples.pdf_file) []
                   failed_to_fetch eq_refl _ eq_refl)).
  discriminate.
Defined.

Lemma merge_page_merges_in_store_order_witness :
  Store.result
    (MergePage.store
       (snd (MergePage.handleMerge one_page_per_byte two_files_dropped)))
  = Some
      (PdfUtils.pdf_blob
         [Byte.x0a; Byte.x0b; Byte.x01; Byte.x02; Byte.x03; Byte.x04;
          Byte.x05]).
Proof.
  refine (proj1 (proj1 (merge_page_merges_in_store_order one_page_per_byte
                          two_files_dropped
                          [[Byte.x0a; Byte.x0b];
                           [Byte.x01; Byte.x02; Byte.x03; Byte.x04; Byte.x05]]
                          _ eq_refl _ eq_refl) _)).
  - repeat constructor; eexists; split; reflexivity.
  - simpl. lia.
Defined.

Lemma merge_page_shows_first_failure_witness :
  Store.error
    (Store.processing
       (MergePage.store
          (snd (MergePage.handleMerge one_page_per_byte
                  one_file_unreadable))))
  = Some "Failed to merge PDFs: The file could not be read.".
Proof.
  pose proof (merge_page_shows_first_failure one_page_per_byte
                one_file_unreadable [two_pages] [[Byte.x0a; Byte.x0b]]
                unreadable_file not_readable [] eq_refl eq_refl) as Hshow.
  destruct Hshow as [Hproc _].
  - repeat constructor; eexists; split; reflexivity.
  - left. reflexivity.
  - simpl. lia.
  - rewrite Hproc. reflexivity.
Defined.

End PageSampleProperties.
